(** * PhysicalExport: the table export operator of infinity

    A shallow embedding of [src/executor/operator/physical_export.cpp]:
    the logical-type lowering for parquet ([GetArrowType],
    [BuildArrowArray]), the four sinks ([ExportToCSV], [ExportToJSONL],
    [ExportToFVECS], [ExportToPARQUET]) with their three nested scan
    loops, and the dispatcher [Execute].  The result handler of the
    persistence manager
    ([src/storage/persistence/persist_result_handler.cpp]) is embedded
    in the module [Persist].

    Conventions.
    - [SizeT] counters ([offset], [row_count], [file_no_], row indexes)
      are 64-bit unsigned in the source.  They only ever count rows of
      the snapshot, so they are modelled as [nat]; no operation on them
      can wrap ([--offset] is guarded by [offset > 0]).
    - [ColumnID] is a 64-bit unsigned selector and is modelled as [N],
      because the virtual-column sentinels are very large values.
    - [RecoverableError] / [UnrecoverableError] throw; indexing a
      [Vector] past its end and dereferencing a null [SharedPtr] are
      undefined behaviour.  All four are outcomes of the error monad
      [Result].
    - The file system is the list of files opened for writing, in the
      order they were opened; directory creation and [Open] are taken
      to succeed. *)

From Stdlib Require Import String Ascii NArith ZArith PeanoNat Bool Lia List.
From Stdlib.Strings Require Import Byte.
From Stdlib Require DecimalString DecimalNat.
Import ListNotations.

Set Implicit Arguments.
Set Warnings "-register-all".
Open Scope string_scope.
Open Scope nat_scope.
Open Scope list_scope.

(* ================================================================= *)
(** ** Faults and the error monad *)

Inductive Fault : Type :=
| RecoverableError (status : string)     (* RecoverableError(Status) *)
| UnrecoverableError (message : string)  (* UnrecoverableError(String) *)
| OutOfBounds                            (* Vector::operator[] past the end *)
| NullDereference                        (* -> on a null SharedPtr *)
| InvalidCast                            (* static_cast to the wrong TypeInfo *)
| LoopFuelExhausted.                     (* artefact of the model, never produced
                                            by [ExportToPARQUET] (see
                                            [consume_loop_fuel]) *)

Inductive Result (A : Type) : Type :=
| Ok (a : A)
| Raise (f : Fault).
Arguments Ok {A} a.
Arguments Raise {A} f.

Definition bind {A B} (c : Result A) (k : A -> Result B) : Result B :=
  match c with
  | Ok a => k a
  | Raise f => Raise f
  end.

Declare Scope result_scope.
Delimit Scope result_scope with result.
Notation "x <- c ;; k" := (bind c (fun x => k))
  (at level 61, c at next level, right associativity) : result_scope.
Notation "' pat <- c ;; k" := (bind c (fun x => match x with pat => k end))
  (at level 61, pat pattern, c at next level, right associativity) : result_scope.
Open Scope result_scope.

Fixpoint mapM {A B} (f : A -> Result B) (l : list A) : Result (list B) :=
  match l with
  | [] => Ok []
  | x :: xs => y <- f x ;; ys <- mapM f xs ;; Ok (y :: ys)
  end.

Definition is_recoverable (f : Fault) : bool :=
  match f with RecoverableError _ => true | _ => false end.

Definition is_unrecoverable (f : Fault) : bool :=
  match f with UnrecoverableError _ => true | _ => false end.

(* ================================================================= *)
(** ** Logical types and column definitions *)

Inductive LogicalType : Type :=
| kBoolean | kTinyInt | kSmallInt | kInteger | kBigInt | kHugeInt | kDecimal
| kFloat | kDouble | kFloat16 | kBFloat16
| kVarchar | kDate | kTime | kDateTime | kTimestamp | kInterval
| kArray | kTuple | kPoint | kLine | kLineSeg | kBox | kCircle | kUuid
| kEmbedding | kRowID | kMixed | kNull | kMissing
| kTensor | kTensorArray | kSparse | kEmptyArray | kMultiVector
| kInvalid.

Inductive EmbeddingDataType : Type :=
| kElemBit | kElemInt8 | kElemInt16 | kElemInt32 | kElemInt64
| kElemFloat | kElemDouble | kElemUInt8 | kElemFloat16 | kElemBFloat16
| kElemInvalid.

(** [type_info()] of a [DataType]: an [EmbeddingInfo], a [SparseInfo], or
    none. *)
Inductive TypeInfo : Type :=
| NoTypeInfo
| EmbeddingInfo (Type_ : EmbeddingDataType) (Dimension : nat)
| SparseInfo (DataType_ IndexType : EmbeddingDataType) (Dimension : nat).

Record DataType : Type := {
  type : LogicalType;
  type_info : TypeInfo
}.

Record ColumnDef : Type := {
  name : string;
  column_type : DataType
}.

(** [static_cast<const SparseInfo *>(type_info().get())] and its
    [EmbeddingInfo] sibling. *)
Definition as_SparseInfo (t : DataType)
  : Result (EmbeddingDataType * EmbeddingDataType) :=
  match type_info t with
  | SparseInfo d i _ => Ok (d, i)
  | NoTypeInfo => Raise NullDereference
  | EmbeddingInfo _ _ => Raise InvalidCast
  end.

Definition as_EmbeddingInfo (t : DataType) : Result (EmbeddingDataType * nat) :=
  match type_info t with
  | EmbeddingInfo e d => Ok (e, d)
  | NoTypeInfo => Raise NullDereference
  | SparseInfo _ _ _ => Raise InvalidCast
  end.

(* ================================================================= *)
(** ** The physical (arrow) type system *)

Inductive TimeUnit : Type := SECOND | MILLI | MICRO | NANO.

Inductive ArrowType : Type :=
| boolean | int8 | int16 | int32 | int64 | uint8
| float16 | float32 | float64
| date32 | time32 (u : TimeUnit) | timestamp (u : TimeUnit) | utf8
| list_ (elem : ArrowType)
| fixed_size_list (elem : ArrowType) (size : nat)
| struct_ (fields : list (string * ArrowType)).

Inductive ArrowBuilder : Type :=
| BooleanBuilder | Int8Builder | Int16Builder | Int32Builder | Int64Builder
| UInt8Builder | HalfFloatBuilder | FloatBuilder | DoubleBuilder
| Date32Builder | Time32Builder (t : ArrowType) | TimestampBuilder (t : ArrowType)
| StringBuilder
| ListBuilder (value_builder : ArrowBuilder)
| FixedSizeListBuilder (value_builder : ArrowBuilder) (size : nat)
| StructBuilder (struct_type : ArrowType) (field_builders : list ArrowBuilder).

(** [ArrayBuilder::type()] of the arrow library. *)
Fixpoint builder_type (b : ArrowBuilder) : ArrowType :=
  match b with
  | BooleanBuilder => boolean
  | Int8Builder => int8
  | Int16Builder => int16
  | Int32Builder => int32
  | Int64Builder => int64
  | UInt8Builder => uint8
  | HalfFloatBuilder => float16
  | FloatBuilder => float32
  | DoubleBuilder => float64
  | Date32Builder => date32
  | Time32Builder t => t
  | TimestampBuilder t => t
  | StringBuilder => utf8
  | ListBuilder v => list_ (builder_type v)
  | FixedSizeListBuilder v n => fixed_size_list (builder_type v) n
  | StructBuilder t _ => t
  end.

(** [->type()] on a [SharedPtr<arrow::ArrayBuilder>] that may be null. *)
Definition deref_type (b : option ArrowBuilder) : Result ArrowType :=
  match b with
  | Some b => Ok (builder_type b)
  | None => Raise NullDereference
  end.

(* ----------------------------------------------------------------- *)
(** *** [PhysicalExport::GetArrowType] *)

Definition sparse_index_type (i : EmbeddingDataType) : Result ArrowType :=
  match i with
  | kElemInt8 => Ok (list_ int8)
  | kElemInt16 => Ok (list_ int16)
  | kElemInt32 => Ok (list_ int32)
  | kElemInt64 => Ok (list_ int64)
  | _ => Raise (UnrecoverableError "Index type invalid")
  end.

Definition sparse_value_type (d : EmbeddingDataType) : Result (option ArrowType) :=
  match d with
  | kElemBit => Ok None
  | kElemInt8 => Ok (Some (list_ int8))
  | kElemInt16 => Ok (Some (list_ int16))
  | kElemInt32 => Ok (Some (list_ int32))
  | kElemInt64 => Ok (Some (list_ int64))
  | kElemFloat => Ok (Some (list_ float32))
  | kElemDouble => Ok (Some (list_ float64))
  | kElemUInt8 => Ok (Some (list_ uint8))
  | kElemFloat16 => Ok (Some (list_ float16))
  | kElemBFloat16 => Ok (Some (list_ float32))
  | kElemInvalid => Raise (UnrecoverableError "Data type invalid")
  end.

Definition embedding_elem_type (e : EmbeddingDataType) : Result ArrowType :=
  match e with
  | kElemBit => Ok boolean
  | kElemInt8 => Ok int8
  | kElemInt16 => Ok int16
  | kElemInt32 => Ok int32
  | kElemInt64 => Ok int64
  | kElemFloat => Ok float32
  | kElemDouble => Ok float64
  | kElemUInt8 => Ok uint8
  | kElemFloat16 => Ok float16
  | kElemBFloat16 => Ok float32
  | kElemInvalid =>
      Raise (UnrecoverableError "Invalid case EmbeddingDataType::kElemInvalid")
  end.

Definition GetArrowType (column_def : ColumnDef) : Result ArrowType :=
  let column_type := column_type column_def in
  match type column_type with
  | kBoolean => Ok boolean
  | kTinyInt => Ok int8
  | kSmallInt => Ok int16
  | kInteger => Ok int32
  | kBigInt => Ok int64
  | kFloat16 => Ok float16
  | kBFloat16 => Ok float32
  | kFloat => Ok float32
  | kDouble => Ok float64
  | kDate => Ok date32
  | kTime => Ok (time32 SECOND)
  | kDateTime | kTimestamp => Ok (timestamp SECOND)
  | kVarchar => Ok utf8
  | kSparse =>
      '(data_type, idx_type) <- as_SparseInfo column_type ;;
      index_type <- sparse_index_type idx_type ;;
      value_type <- sparse_value_type data_type ;;
      let fields := [("index", index_type)] in
      let fields :=
        match value_type with
        | Some vt => fields ++ [("value", vt)]
        | None => fields
        end in
      Ok (struct_ fields)
  | kEmbedding | kMultiVector | kTensor | kTensorArray =>
      '(elem, dimension) <- as_EmbeddingInfo column_type ;;
      arrow_embedding_elem_type <- embedding_elem_type elem ;;
      let arrow_embedding_type :=
        fixed_size_list arrow_embedding_elem_type dimension in
      let arrow_tensor_type := list_ arrow_embedding_type in
      let arrow_tensor_array_type := list_ arrow_tensor_type in
      match type column_type with
      | kEmbedding => Ok arrow_embedding_type
      | kTensor | kMultiVector => Ok arrow_tensor_type
      | kTensorArray => Ok arrow_tensor_array_type
      | _ => Raise (UnrecoverableError "Unreachable code!")
      end
  | kRowID | kInterval | kHugeInt | kDecimal | kArray | kTuple | kPoint
  | kLine | kLineSeg | kBox | kCircle | kUuid | kMixed | kNull | kMissing
  | kEmptyArray | kInvalid =>
      Raise (UnrecoverableError "Invalid data type")
  end.

(* ----------------------------------------------------------------- *)
(** *** [PhysicalExport::BuildArrowArray]: the choice of the builder *)

Definition sparse_index_builder (i : EmbeddingDataType) : Result ArrowBuilder :=
  match i with
  | kElemInt8 => Ok (ListBuilder Int8Builder)
  | kElemInt16 => Ok (ListBuilder Int16Builder)
  | kElemInt32 => Ok (ListBuilder Int32Builder)
  | kElemInt64 => Ok (ListBuilder Int64Builder)
  | _ => Raise (UnrecoverableError "Invalid index type.")
  end.

(** [value_builder] starts as [nullptr] and stays so for [kElemBit]. *)
Definition sparse_value_builder (d : EmbeddingDataType)
  : Result (option ArrowBuilder) :=
  match d with
  | kElemBit => Ok None
  | kElemInt8 => Ok (Some (ListBuilder Int8Builder))
  | kElemInt16 => Ok (Some (ListBuilder Int16Builder))
  | kElemInt32 => Ok (Some (ListBuilder Int32Builder))
  | kElemInt64 => Ok (Some (ListBuilder Int64Builder))
  | kElemFloat => Ok (Some (ListBuilder FloatBuilder))
  | kElemDouble => Ok (Some (ListBuilder DoubleBuilder))
  | kElemUInt8 => Ok (Some (ListBuilder UInt8Builder))
  | kElemFloat16 => Ok (Some (ListBuilder HalfFloatBuilder))
  | kElemBFloat16 => Ok (Some (ListBuilder FloatBuilder))
  | kElemInvalid => Raise (UnrecoverableError "Invalid data type.")
  end.

Definition embedding_element_builder (e : EmbeddingDataType)
  : Result ArrowBuilder :=
  match e with
  | kElemBit => Ok BooleanBuilder
  | kElemInt8 => Ok Int8Builder
  | kElemInt16 => Ok Int16Builder
  | kElemInt32 => Ok Int32Builder
  | kElemInt64 => Ok Int64Builder
  | kElemFloat => Ok FloatBuilder
  | kElemDouble => Ok DoubleBuilder
  | kElemUInt8 => Ok UInt8Builder
  | kElemFloat16 => Ok HalfFloatBuilder
  | kElemBFloat16 => Ok FloatBuilder
  | kElemInvalid =>
      Raise (UnrecoverableError
               "Invalid embedding data type: EmbeddingDataType::kElemInvalid")
  end.

(** The [switch] of [BuildArrowArray] (lines 871-1108): the value of
    [array_builder] when the loop over the rows starts. *)
Definition MakeArrayBuilder (column_def : ColumnDef) : Result ArrowBuilder :=
  let column_type := column_type column_def in
  match type column_type with
  | kBoolean => Ok BooleanBuilder
  | kTinyInt => Ok Int8Builder
  | kSmallInt => Ok Int16Builder
  | kInteger => Ok Int32Builder
  | kBigInt => Ok Int64Builder
  | kFloat => Ok FloatBuilder
  | kDouble => Ok DoubleBuilder
  | kFloat16 => Ok HalfFloatBuilder
  | kBFloat16 => Ok FloatBuilder
  | kDate => Ok Date32Builder
  | kTime => Ok (Time32Builder (time32 SECOND))
  | kDateTime | kTimestamp => Ok (TimestampBuilder (timestamp SECOND))
  | kVarchar => Ok StringBuilder
  | kSparse =>
      '(data_type, idx_type) <- as_SparseInfo column_type ;;
      index_builder <- sparse_index_builder idx_type ;;
      value_builder <- sparse_value_builder data_type ;;
      index_field <- deref_type (Some index_builder) ;;
      value_field <- deref_type value_builder ;;
      let struct_type := struct_ [("index", index_field); ("value", value_field)] in
      let field_builders :=
        match value_builder with
        | Some vb => [index_builder; vb]
        | None => [index_builder]
        end in
      Ok (StructBuilder struct_type field_builders)
  | kEmbedding | kMultiVector | kTensor | kTensorArray =>
      '(elem, dimension) <- as_EmbeddingInfo column_type ;;
      embedding_element_builder <- embedding_element_builder elem ;;
      let embedding_arrow_array_builder :=
        FixedSizeListBuilder embedding_element_builder dimension in
      let tensor_arrow_array_builder :=
        ListBuilder embedding_arrow_array_builder in
      let tensor_array_arrow_array_builder :=
        ListBuilder tensor_arrow_array_builder in
      match type column_type with
      | kEmbedding => Ok embedding_arrow_array_builder
      | kTensor | kMultiVector => Ok tensor_arrow_array_builder
      | kTensorArray => Ok tensor_array_arrow_array_builder
      | _ => Raise (UnrecoverableError "Unreachable code!")
      end
  | kRowID | kInterval | kHugeInt | kDecimal | kArray | kTuple | kPoint
  | kLine | kLineSeg | kBox | kCircle | kUuid | kMixed | kNull | kMissing
  | kEmptyArray | kInvalid =>
      Raise (UnrecoverableError "Invalid data type")
  end.

(* ================================================================= *)
(** ** Collaborators of the operator that are not part of this file

    [Value] (value.cpp), the json library, the catalog's printing
    helpers and the constants of [default_values] are used by
    [physical_export.cpp] but defined elsewhere.  They are parameters
    of the development. *)

Definition ColumnID : Type := N.        (* u64 *)
Definition SegmentID : Type := nat.     (* u32 *)
Definition SegmentOffset : Type := nat. (* u32 *)

Class Collaborators : Type := {
  Value : Type;
  (** [v.type().type()] *)
  Value_type : Value -> LogicalType;
  (** [v.ToString()] *)
  ToString : Value -> string;
  (** [v.GetEmbedding()], a [Span<char>] *)
  GetEmbedding : Value -> list byte;
  (** [nlohmann::json], a default-constructed object, [v.AppendToJson]
      and [dump] *)
  Json : Type;
  json_null : Json;
  AppendToJson : Value -> string -> Json -> Json;
  json_dump : Json -> string;
  (** the [Value] of [RowID(segment_id, segment_offset)] *)
  RowIDValue : SegmentID -> N -> Value;
  (** [DataType::ToString] and [EmbeddingType::EmbeddingDataType2String],
      used in error messages only *)
  DataType_ToString : DataType -> string;
  EmbeddingDataType2String : EmbeddingDataType -> string;
  (** the selectors of the three virtual columns and the block capacity *)
  COLUMN_IDENTIFIER_ROW_ID : ColumnID;
  COLUMN_IDENTIFIER_CREATE : ColumnID;
  COLUMN_IDENTIFIER_DELETE : ColumnID;
  DEFAULT_BLOCK_CAPACITY : N;
  (** the three selectors are the [case] labels of one [switch] *)
  COLUMN_IDENTIFIER_distinct :
    COLUMN_IDENTIFIER_ROW_ID <> COLUMN_IDENTIFIER_CREATE /\
    COLUMN_IDENTIFIER_ROW_ID <> COLUMN_IDENTIFIER_DELETE /\
    COLUMN_IDENTIFIER_CREATE <> COLUMN_IDENTIFIER_DELETE
}.

(** [Vector::operator[]] with a [ColumnID] index. *)
Definition index {A} (v : list A) (i : ColumnID) : Result A :=
  if (i <? N.of_nat (length v))%N then
    match nth_error v (N.to_nat i) with
    | Some a => Ok a
    | None => Raise OutOfBounds
    end
  else Raise OutOfBounds.

(** The text of a [SizeT] printed by [fmt::format]. *)
Definition decimal (n : nat) : string := DecimalString.NilZero.string_of_uint (Nat.to_uint n).

Definition LF : string := String (ascii_of_nat 10) EmptyString.
Definition QUOTE : string := String (ascii_of_nat 34) EmptyString.

Definition byte_of_N (n : N) : byte :=
  match Byte.of_N (n mod 256) with
  | Some b => b
  | None => x00
  end.

(** The four bytes of an [i32] in memory on a little-endian host. *)
Definition i32_bytes (n : N) : list byte :=
  let w := (n mod 2 ^ 32)%N in
  [byte_of_N w; byte_of_N (w / 2 ^ 8); byte_of_N (w / 2 ^ 16); byte_of_N (w / 2 ^ 24)].

(** An output file: its path and the bytes appended to it so far. *)
Record File : Type := {
  path : string;
  content : list byte
}.

(** [kOther] stands for the values of the enum [Execute] has no case
    for. *)
Inductive CopyFileType : Type := kCSV | kJSONL | kFVECS | kPARQUET | kOther.

(** The outcome of one iteration of a loop whose body may
    [goto label_return]. *)
Inductive Control : Type := Next | GotoReturn.

(** A [for] loop over [l] whose body threads a state and may leave all
    enclosing loops. *)
Fixpoint for_each {A S} (body : S -> A -> Result (Control * S))
         (l : list A) (s : S) : Result (Control * S) :=
  match l with
  | [] => Ok (Next, s)
  | x :: rest =>
      '(c, s') <- body s x ;;
      match c with
      | GotoReturn => Ok (GotoReturn, s')
      | Next => for_each body rest s'
      end
  end.

Section Operator.
Context {collab : Collaborators}.

(* ================================================================= *)
(** ** Storage as seen by the export *)

(** A [ColumnVector]: [Size()] is [length], [GetValue] is [GetValue]. *)
Definition ColumnVector : Type := list Value.

Definition GetValue (column_vector : ColumnVector) (row_idx : nat) : Result Value :=
  match nth_error column_vector row_idx with
  | Some v => Ok v
  | None => Raise OutOfBounds
  end.

Record BlockEntry : Type := {
  block_id : nat;                       (* block_id(), u16 *)
  segment_offset : SegmentOffset;       (* segment_offset() *)
  block_row_count : nat;                (* row_count() *)
  GetConstColumnVector : ColumnID -> ColumnVector;
  GetCreateTSVector : nat -> nat -> ColumnVector;
  GetDeleteTSVector : nat -> nat -> ColumnVector
}.

(** A segment of the block index.  [visible] is the filter
    [DeleteFilter(segment_entry_, txn->BeginTS(), segment_offset_)]
    the export builds for the segment; it is applied to
    [seg_off + row_idx], an offset inside the segment. *)
Record SegmentSnapshot : Type := {
  visible : SegmentOffset -> bool;
  block_map_ : list BlockEntry
}.

(** The members of [PhysicalExport] the export reads.  [block_index_]
    lists [segment_block_index_], a [std::map], in ascending key order,
    which is the order a range-for visits it. *)
Record PhysicalExport : Type := {
  file_type_ : CopyFileType;
  file_path_ : string;
  header_ : bool;
  delimiter_ : ascii;
  column_idx_array_ : list ColumnID;
  offset_ : nat;
  limit_ : nat;
  row_limit_ : nat;
  column_defs : list ColumnDef;         (* table_entry_->column_defs() *)
  block_index_ : list (SegmentID * SegmentSnapshot)
}.

(** [select_columns]: all columns, or the given ones (lines 89-99). *)
Definition select_columns (this : PhysicalExport) : list ColumnID :=
  match column_idx_array_ this with
  | [] => map N.of_nat (seq 0 (length (column_defs this)))
  | _ => column_idx_array_ this
  end.

(** Modelled from the spec: [ColumnVector::AppendWith(RowID, count)]
    (column_vector.cpp is not under src/) "synthesizes a dense run of
    composite (segment-id, intra-segment-row-offset) identifiers, one
    per row in the block". *)
Definition AppendWith (segment_id : SegmentID) (segment_offset : N) (count : nat)
  : ColumnVector :=
  map (fun i => RowIDValue segment_id (segment_offset + N.of_nat i)) (seq 0 count).

(** The [switch] that fills [column_vectors] for one block
    (lines 167-197, 303-333, 623-653). *)
Definition materialize_column (segment_id : SegmentID) (block_entry : BlockEntry)
           (select_column_idx : ColumnID) : Result ColumnVector :=
  let block_row_count := block_row_count block_entry in
  if (select_column_idx =? COLUMN_IDENTIFIER_ROW_ID)%N then
    let segment_offset :=
      ((N.of_nat (block_id block_entry) * DEFAULT_BLOCK_CAPACITY) mod 2 ^ 32)%N in
    Ok (AppendWith segment_id segment_offset block_row_count)
  else if (select_column_idx =? COLUMN_IDENTIFIER_CREATE)%N then
    Ok (GetCreateTSVector block_entry 0 block_row_count)
  else if (select_column_idx =? COLUMN_IDENTIFIER_DELETE)%N then
    Ok (GetDeleteTSVector block_entry 0 block_row_count)
  else
    let column_vector := GetConstColumnVector block_entry select_column_idx in
    if length column_vector =? block_row_count then Ok column_vector
    else Raise (UnrecoverableError
                  "Unmatched row_count between block and block_column").

Definition materialize (select_columns : list ColumnID)
           (segment_id : SegmentID) (block_entry : BlockEntry)
  : Result (list ColumnVector) :=
  mapM (materialize_column segment_id block_entry) select_columns.

(* ================================================================= *)
(** ** The scan loop of the text, json and fvecs sinks

    [ExportToCSV] (154-246), [ExportToJSONL] (290-390) and
    [ExportToFVECS] (447-494) run the same three nested loops; they
    differ in how a block is materialized and how a row is serialized,
    the two parameters of this section. *)

Record ScanState : Type := {
  offset : nat;
  row_count : nat;
  file_no_ : nat;
  closed_files : list File;   (* files whose handle has been replaced *)
  file_handle : File          (* the file the handle writes to *)
}.

Definition Append (bytes : list byte) (st : ScanState) : ScanState :=
  {| offset := offset st; row_count := row_count st; file_no_ := file_no_ st;
     closed_files := closed_files st;
     file_handle := {| path := path (file_handle st);
                       content := content (file_handle st) ++ bytes |} |}.

Definition part_path (file_path : string) (file_no : nat) : string :=
  (file_path ++ ".part" ++ decimal file_no)%string.

(** [++file_no_], open [{file_path_}.part{file_no_}] and move the new
    handle into [file_handle]. *)
Definition open_part (this : PhysicalExport) (st : ScanState) : ScanState :=
  {| offset := offset st; row_count := row_count st; file_no_ := S (file_no_ st);
     closed_files := closed_files st ++ [file_handle st];
     file_handle := {| path := part_path (file_path_ this) (S (file_no_ st));
                       content := [] |} |}.

Definition files (st : ScanState) : list File :=
  closed_files st ++ [file_handle st].

Section ScanLoop.
Variable this : PhysicalExport.
Variable materialize_block : SegmentID -> BlockEntry -> Result (list ColumnVector).
Variable serialize : list ColumnVector -> nat -> Result (list byte).

(** The body of the row loop. *)
Definition export_row (visible : SegmentOffset -> bool) (seg_off : SegmentOffset)
           (column_vectors : list ColumnVector) (st : ScanState) (row_idx : nat)
  : Result (Control * ScanState) :=
  if negb (visible (seg_off + row_idx)) then Ok (Next, st)
  else if 0 <? offset st then
    Ok (Next, {| offset := offset st - 1; row_count := row_count st;
                 file_no_ := file_no_ st; closed_files := closed_files st;
                 file_handle := file_handle st |})
  else
    line <- serialize column_vectors row_idx ;;
    let st :=
      if (0 <? row_count st) && negb (row_limit_ this =? 0)
         && (row_count st mod row_limit_ this =? 0)
      then open_part this st else st in
    let st := Append line st in
    let st := {| offset := offset st; row_count := S (row_count st);
                 file_no_ := file_no_ st; closed_files := closed_files st;
                 file_handle := file_handle st |} in
    if negb (limit_ this =? 0) && (row_count st =? limit_ this)
    then Ok (GotoReturn, st)
    else Ok (Next, st).

Definition export_block (segment_id : SegmentID) (visible : SegmentOffset -> bool)
           (st : ScanState) (block_entry : BlockEntry)
  : Result (Control * ScanState) :=
  column_vectors <- materialize_block segment_id block_entry ;;
  for_each (export_row visible (segment_offset block_entry) column_vectors)
           (seq 0 (block_row_count block_entry)) st.

Definition export_segment (st : ScanState) (segment : SegmentID * SegmentSnapshot)
  : Result (Control * ScanState) :=
  let '(segment_id, segment_snapshot) := segment in
  for_each (export_block segment_id (visible segment_snapshot))
           (block_map_ segment_snapshot) st.

(** The loops from a freshly opened [file_path_] that already holds
    [head]; the result is [row_count] and the files written. *)
Definition scan (head : list byte) : Result (nat * list File) :=
  let st := {| offset := offset_ this; row_count := 0; file_no_ := 0;
               closed_files := [];
               file_handle := {| path := file_path_ this; content := head |} |} in
  '(_, st) <- for_each export_segment (block_index_ this) st ;;
  Ok (row_count st, files st).

End ScanLoop.

Definition bytes (s : string) : list byte := list_byte_of_string s.

(** The name a selector is exported under: the three virtual columns,
    or the catalog's name of a physical column (lines 121-138, 346-366). *)
Definition export_name (this : PhysicalExport) (column_idx : ColumnID)
  : Result string :=
  if (column_idx =? COLUMN_IDENTIFIER_ROW_ID)%N then Ok "_row_id"
  else if (column_idx =? COLUMN_IDENTIFIER_CREATE)%N then Ok "_create_timestamp"
  else if (column_idx =? COLUMN_IDENTIFIER_DELETE)%N then Ok "_delete_timestamp"
  else column_def <- index (column_defs this) column_idx ;; Ok (name column_def).

(* ----------------------------------------------------------------- *)
(** *** [PhysicalExport::ExportToCSV] *)

(** The header (lines 116-146): every name is followed by the
    delimiter, the last one by a newline. *)
Fixpoint csv_header (this : PhysicalExport) (columns : list ColumnID)
  : Result string :=
  match columns with
  | [] => Ok ""
  | column_idx :: rest =>
      column_name <- export_name this column_idx ;;
      let sep := match rest with
                 | [] => LF
                 | _ => String (delimiter_ this) ""
                 end in
      tail <- csv_header this rest ;;
      Ok (column_name ++ sep ++ tail)%string
  end.

(** One value of a line (lines 210-222). *)
Definition csv_cell (v : Value) : string :=
  match Value_type v with
  | kEmbedding | kMultiVector | kTensor | kTensorArray | kSparse =>
      (QUOTE ++ ToString v ++ QUOTE)%string
  | _ => ToString v
  end.

(** One line (lines 207-228). *)
Fixpoint csv_line (delimiter : ascii) (column_vectors : list ColumnVector)
         (row_idx : nat) : Result string :=
  match column_vectors with
  | [] => Ok ""
  | column_vector :: rest =>
      v <- GetValue column_vector row_idx ;;
      let sep := match rest with
                 | [] => LF
                 | _ => String delimiter ""
                 end in
      tail <- csv_line delimiter rest row_idx ;;
      Ok (csv_cell v ++ sep ++ tail)%string
  end.

Definition ExportToCSV (this : PhysicalExport) : Result (nat * list File) :=
  let select_columns := select_columns this in
  header <- (if header_ this
             then header <- csv_header this select_columns ;; Ok (bytes header)
             else Ok []) ;;
  scan this (materialize select_columns)
       (fun column_vectors row_idx =>
          line <- csv_line (delimiter_ this) column_vectors row_idx ;;
          Ok (bytes line))
       header.

(* ----------------------------------------------------------------- *)
(** *** [PhysicalExport::ExportToJSONL] *)

(** The object of one row (lines 343-368). *)
Fixpoint jsonl_object (this : PhysicalExport)
         (columns : list (ColumnID * ColumnVector)) (row_idx : nat)
         (line_json : Json) : Result Json :=
  match columns with
  | [] => Ok line_json
  | (select_column_idx, column_vector) :: rest =>
      key <- export_name this select_column_idx ;;
      v <- GetValue column_vector row_idx ;;
      jsonl_object this rest row_idx (AppendToJson v key line_json)
  end.

Definition ExportToJSONL (this : PhysicalExport) : Result (nat * list File) :=
  let select_columns := select_columns this in
  scan this (materialize select_columns)
       (fun column_vectors row_idx =>
          line_json <- jsonl_object this (combine select_columns column_vectors)
                                    row_idx json_null ;;
          Ok (bytes (json_dump line_json ++ LF)%string))
       [].

(* ----------------------------------------------------------------- *)
(** *** [PhysicalExport::ExportToFVECS] *)

(** The checks of lines 398-424; the result is [exported_column_idx]
    and [dimension]. *)
Definition fvecs_check (this : PhysicalExport) : Result (ColumnID * N) :=
  match column_idx_array_ this with
  | [exported_column_idx] =>
      column_def <- index (column_defs this) exported_column_idx ;;
      let data_type := column_type column_def in
      match type data_type with
      | kEmbedding =>
          '(elem, dim) <- as_EmbeddingInfo data_type ;;
          match elem with
          | kElemFloat => Ok (exported_column_idx, (N.of_nat dim mod 2 ^ 32)%N)
          | _ =>
              Raise (RecoverableError
                       ("Type: " ++ EmbeddingDataType2String elem ++
                        ", only float element type embedding is supported now"))
          end
      | _ =>
          Raise (UnrecoverableError
                   ("Only embedding column can be exported as FVECS file, but it is "
                    ++ DataType_ToString data_type))
      end
  | _ =>
      Raise (UnrecoverableError
               "Only one column with embedding data type can be exported as FVECS file")
  end.

(** Lines 457-461. *)
Definition fvecs_materialize (exported_column_idx : ColumnID)
           (segment_id : SegmentID) (block_entry : BlockEntry)
  : Result (list ColumnVector) :=
  let exported_column_vector :=
    GetConstColumnVector block_entry exported_column_idx in
  if length exported_column_vector =? block_row_count block_entry
  then Ok [exported_column_vector]
  else Raise (UnrecoverableError
                "Unmatched row_count between block and block_column").

(** Lines 472-486: [dimension] and the embedding, by two [Append]s. *)
Definition fvecs_record (dimension : N) (v : Value) : list byte :=
  i32_bytes dimension ++ GetEmbedding v.

Definition fvecs_serialize (dimension : N)
           (column_vectors : list ColumnVector) (row_idx : nat)
  : Result (list byte) :=
  match column_vectors with
  | exported_column_vector :: _ =>
      v <- GetValue exported_column_vector row_idx ;;
      Ok (fvecs_record dimension v)
  | [] => Raise OutOfBounds
  end.

Definition ExportToFVECS (this : PhysicalExport) : Result (nat * list File) :=
  '(exported_column_idx, dimension) <- fvecs_check this ;;
  scan this (fvecs_materialize exported_column_idx) (fvecs_serialize dimension) [].

(* ----------------------------------------------------------------- *)
(** *** [PhysicalExport::ExportToPARQUET] *)

Record ArrowArray : Type := {
  array_builder : ArrowBuilder;
  array_values : list Value
}.

Record RecordBatch : Type := {
  num_rows : nat;
  block_arrays : list ArrowArray
}.

(** A parquet file: its path, the schema of its writer and the record
    batches written. *)
Record ParquetFile : Type := {
  output_file_path : string;
  schema : list (string * ArrowType);
  record_batches : list RecordBatch
}.

Record ParquetState : Type := {
  pq_offset : nat;                 (* offset *)
  pq_row_count : nat;              (* row_count *)
  pq_file_no_ : nat;               (* file_no_ *)
  switch_to_new_file : bool;
  closed_writers : list ParquetFile;
  file_writer : ParquetFile
}.

(** Lines 516-521. *)
Definition schema_fields (this : PhysicalExport)
  : Result (list (string * ArrowType)) :=
  mapM (fun column_id =>
          column_def <- index (column_defs this) column_id ;;
          arrow_type <- GetArrowType column_def ;;
          Ok (name column_def, arrow_type))
       (select_columns this).

(** [BuildArrowArray] (lines 866-1120): the builder, then one
    [AppendToArrowArray] per row of the batch. *)
Definition BuildArrowArray (column_def : ColumnDef) (column_vector : ColumnVector)
           (block_rows_for_output : list nat) : Result ArrowArray :=
  builder <- MakeArrayBuilder column_def ;;
  values <- mapM (GetValue column_vector) block_rows_for_output ;;
  Ok {| array_builder := builder; array_values := values |}.

Section ConsumeBlock.
Variable this : PhysicalExport.
Variable fields : list (string * ArrowType).
Variable column_vectors : list ColumnVector.
Variable visible : SegmentOffset -> bool.
Variable seg_off : SegmentOffset.

(** The inner loop (lines 561-578) from the rows not yet visited.  It
    yields [block_rows_for_output], [need_switch_to_new_file], the
    state, and the rows from [start_block_row_idx] on: a [break] does
    not advance the index. *)
Fixpoint collect_rows (rows : list nat) (block_rows_for_output : list nat)
         (st : ParquetState) : list nat * bool * ParquetState * list nat :=
  match rows with
  | [] => (block_rows_for_output, false, st, [])
  | start_block_row_idx :: rest =>
      if negb (visible (seg_off + start_block_row_idx)) then
        collect_rows rest block_rows_for_output st
      else if 0 <? pq_offset st then
        collect_rows rest block_rows_for_output
          {| pq_offset := pq_offset st - 1; pq_row_count := pq_row_count st;
             pq_file_no_ := pq_file_no_ st;
             switch_to_new_file := switch_to_new_file st;
             closed_writers := closed_writers st; file_writer := file_writer st |}
      else
        let block_rows_for_output := block_rows_for_output ++ [start_block_row_idx] in
        let st :=
          {| pq_offset := pq_offset st; pq_row_count := S (pq_row_count st);
             pq_file_no_ := pq_file_no_ st;
             switch_to_new_file := switch_to_new_file st;
             closed_writers := closed_writers st; file_writer := file_writer st |} in
        if negb (row_limit_ this =? 0) && (pq_row_count st mod row_limit_ this =? 0)
        then (block_rows_for_output, true, st, rows)
        else if pq_row_count st =? limit_ this
        then (block_rows_for_output, false, st, rows)
        else collect_rows rest block_rows_for_output st
  end.

(** Lines 582-588: close the writer and open the next part. *)
Definition open_next_writer (st : ParquetState) : ParquetState :=
  {| pq_offset := pq_offset st; pq_row_count := pq_row_count st;
     pq_file_no_ := S (pq_file_no_ st);
     switch_to_new_file := switch_to_new_file st;
     closed_writers := closed_writers st ++ [file_writer st];
     file_writer := {| output_file_path :=
                         part_path (file_path_ this) (S (pq_file_no_ st));
                       schema := fields; record_batches := [] |} |}.

(** Lines 589-600: build the batch, write it and record
    [need_switch_to_new_file]. *)
Definition write_batch (block_rows_for_output : list nat)
           (need_switch_to_new_file : bool) (st : ParquetState)
  : Result ParquetState :=
  let st := if switch_to_new_file st then open_next_writer st else st in
  block_arrays <-
    mapM (fun '(select_column_idx, column_vector) =>
            column_def <- index (column_defs this) select_column_idx ;;
            BuildArrowArray column_def column_vector block_rows_for_output)
         (combine (select_columns this) column_vectors) ;;
  let block_batch := {| num_rows := length block_rows_for_output;
                        block_arrays := block_arrays |} in
  Ok {| pq_offset := pq_offset st; pq_row_count := pq_row_count st;
        pq_file_no_ := pq_file_no_ st;
        switch_to_new_file := need_switch_to_new_file;
        closed_writers := closed_writers st;
        file_writer :=
          {| output_file_path := output_file_path (file_writer st);
             schema := schema (file_writer st);
             record_batches := record_batches (file_writer st) ++ [block_batch] |} |}.

(** The outer loop of [consume_block] (lines 559-604).  [fuel] bounds
    the number of its iterations. *)
Fixpoint consume_loop (fuel : nat) (rows : list nat) (st : ParquetState)
  : Result (bool * ParquetState) :=
  match rows with
  | [] => Ok (true, st)
  | _ :: _ =>
      match fuel with
      | 0 => Raise LoopFuelExhausted
      | S fuel =>
          let '(block_rows_for_output, need_switch_to_new_file, st, rest) :=
            collect_rows rows [] st in
          match block_rows_for_output with
          | [] => consume_loop fuel (tl rest) st
          | _ :: _ =>
              st <- write_batch block_rows_for_output need_switch_to_new_file st ;;
              if pq_row_count st =? limit_ this then Ok (false, st)
              else consume_loop fuel (tl rest) st
          end
      end
  end.

Definition consume_block (block_row_count : nat) (st : ParquetState)
  : Result (bool * ParquetState) :=
  consume_loop block_row_count (seq 0 block_row_count) st.

End ConsumeBlock.

Definition parquet_block (this : PhysicalExport) (fields : list (string * ArrowType))
           (segment_id : SegmentID) (visible : SegmentOffset -> bool)
           (st : ParquetState) (block_entry : BlockEntry)
  : Result (Control * ParquetState) :=
  column_vectors <- materialize (select_columns this) segment_id block_entry ;;
  '(go_on, st) <- consume_block this fields column_vectors visible
                                (segment_offset block_entry)
                                (block_row_count block_entry) st ;;
  if go_on then Ok (Next, st) else Ok (GotoReturn, st).

Definition parquet_segment (this : PhysicalExport) (fields : list (string * ArrowType))
           (st : ParquetState) (segment : SegmentID * SegmentSnapshot)
  : Result (Control * ParquetState) :=
  let '(segment_id, segment_snapshot) := segment in
  for_each (parquet_block this fields segment_id (visible segment_snapshot))
           (block_map_ segment_snapshot) st.

Definition ExportToPARQUET (this : PhysicalExport)
  : Result (nat * list ParquetFile) :=
  fields <- schema_fields this ;;
  let st := {| pq_offset := offset_ this; pq_row_count := 0; pq_file_no_ := 0;
               switch_to_new_file := false; closed_writers := [];
               file_writer := {| output_file_path := file_path_ this;
                                 schema := fields; record_batches := [] |} |} in
  '(_, st) <- for_each (parquet_segment this fields) (block_index_ this) st ;;
  Ok (pq_row_count st, closed_writers st ++ [file_writer st]).

(* ----------------------------------------------------------------- *)
(** *** [PhysicalExport::Execute] *)

(** The dispatch on [file_type_]; the result is [exported_row_count]
    and [result_msg_]. *)
Definition Execute (this : PhysicalExport) : Result (nat * string) :=
  exported_row_count <-
    match file_type_ this with
    | kCSV => '(n, _) <- ExportToCSV this ;; Ok n
    | kJSONL => '(n, _) <- ExportToJSONL this ;; Ok n
    | kFVECS => '(n, _) <- ExportToFVECS this ;; Ok n
    | kPARQUET => '(n, _) <- ExportToPARQUET this ;; Ok n
    | kOther => Raise (UnrecoverableError "Not supported file type")
    end ;;
  Ok (exported_row_count,
      ("EXPORT " ++ decimal exported_row_count ++ " Rows")%string).

End Operator.

(* ================================================================= *)
(** ** What an export is expected to produce

    The rows of the snapshot in scan order, the visible ones, and the
    ones left after [offset_] and [limit_]; the way rows are spread
    over the output files. *)

Section Expected.
Context {collab : Collaborators}.

(** A physical row: its segment (with the segment's filter), its block
    and its index in the block. *)
Record RowRef : Type := {
  rr_segment_id : SegmentID;
  rr_filter : SegmentOffset -> bool;
  rr_block : BlockEntry;
  rr_idx : nat
}.

Definition block_scan (segment_id : SegmentID) (filter : SegmentOffset -> bool)
           (block_entry : BlockEntry) : list RowRef :=
  map (fun row_idx => {| rr_segment_id := segment_id; rr_filter := filter;
                         rr_block := block_entry; rr_idx := row_idx |})
      (seq 0 (block_row_count block_entry)).

Definition segment_scan (segment : SegmentID * SegmentSnapshot) : list RowRef :=
  flat_map (block_scan (fst segment) (visible (snd segment)))
           (block_map_ (snd segment)).

(** Segment order, block order within a segment, row order within a
    block. *)
Definition scan_order (this : PhysicalExport) : list RowRef :=
  flat_map segment_scan (block_index_ this).

Definition row_visible (r : RowRef) : bool :=
  rr_filter r (segment_offset (rr_block r) + rr_idx r).

Definition visible_rows (this : PhysicalExport) : list RowRef :=
  filter row_visible (scan_order this).

Definition take_limit {A} (limit : nat) (l : list A) : list A :=
  if limit =? 0 then l else firstn limit l.

Definition exported_rows (this : PhysicalExport) : list RowRef :=
  take_limit (limit_ this) (skipn (offset_ this) (visible_rows this)).

(** What a sink appends for a row, from the sink's two parameters of
    [scan]. *)
Definition row_bytes
           (materialize_block : SegmentID -> BlockEntry -> Result (list ColumnVector))
           (serialize : list ColumnVector -> nat -> Result (list byte))
           (r : RowRef) : Result (list byte) :=
  column_vectors <- materialize_block (rr_segment_id r) (rr_block r) ;;
  serialize column_vectors (rr_idx r).

Definition csv_row (this : PhysicalExport) : RowRef -> Result (list byte) :=
  row_bytes (materialize (select_columns this))
            (fun column_vectors row_idx =>
               line <- csv_line (delimiter_ this) column_vectors row_idx ;;
               Ok (bytes line)).

Definition jsonl_row (this : PhysicalExport) : RowRef -> Result (list byte) :=
  row_bytes (materialize (select_columns this))
            (fun column_vectors row_idx =>
               line_json <- jsonl_object this
                              (combine (select_columns this) column_vectors)
                              row_idx json_null ;;
               Ok (bytes (json_dump line_json ++ LF)%string)).

Definition fvecs_row (exported_column_idx : ColumnID) (dimension : N)
  : RowRef -> Result (list byte) :=
  row_bytes (fvecs_materialize exported_column_idx) (fvecs_serialize dimension).

Definition opt_list {A} (o : option A) : list A :=
  match o with Some a => [a] | None => [] end.

(** The values of the selected columns in a row. *)
Definition row_values (this : PhysicalExport) (r : RowRef) : list Value :=
  match materialize (select_columns this) (rr_segment_id r) (rr_block r) with
  | Ok column_vectors =>
      flat_map (fun column_vector => opt_list (nth_error column_vector (rr_idx r)))
               column_vectors
  | Raise _ => []
  end.

(** The rows of a record batch and of a parquet file, read across
    their arrays. *)
Definition batch_rows (b : RecordBatch) : list (list Value) :=
  map (fun i => flat_map (fun a => opt_list (nth_error (array_values a) i))
                         (block_arrays b))
      (seq 0 (num_rows b)).

Definition parquet_rows (f : ParquetFile) : list (list Value) :=
  flat_map batch_rows (record_batches f).

(** The path of the [i]-th file of an export. *)
Definition export_path (file_path : string) (i : nat) : string :=
  match i with
  | 0 => file_path
  | S _ => part_path file_path i
  end.

(** The files a text sink leaves when the base file starts with [head]
    and the [i]-th file receives the lines [nth i chunks]. *)
Definition text_files (file_path : string) (head : list byte)
           (chunks : list (list (list byte))) : list File :=
  map (fun ic => {| path := export_path file_path (fst ic);
                    content := (if fst ic =? 0 then head else [])
                               ++ concat (snd ic) |})
      (combine (seq 0 (length chunks)) chunks).

(** ceil(n / k) for a positive k. *)
Definition ceil_div (n k : nat) : nat := (n + k - 1) / k.

(** [chunks] cuts [rows] into consecutive runs of [k] rows; the last
    run may be shorter.  For [k = 0] there is one run. *)
Definition split_every {A} (k : nat) (rows : list A) (chunks : list (list A))
  : Prop :=
  concat chunks = rows /\
  length chunks = (if k =? 0 then 1 else Nat.max 1 (ceil_div (length rows) k)) /\
  forall i, i < length chunks ->
            nth i chunks [] =
            (if k =? 0 then rows else firstn k (skipn (i * k) rows)).

(* ----------------------------------------------------------------- *)
(** *** The scan driver, abstractly

    One state machine over the rows in scan order, each tagged with its
    visibility: it skips, counts down the offset, adds the row to the
    current run or starts a new run, and stops at the limit.  The four
    sinks are related to it in the proofs. *)

Record Driver (P : Type) : Type := {
  d_offset : nat;
  d_count : nat;
  d_closed : list (list P);
  d_current : list P;
  d_done : bool
}.

Definition driver_emit {P} (limit k : nat) (d : Driver P) (p : P) : Driver P :=
  if d_done d then d
  else
    let rotate := (0 <? d_count d) && negb (k =? 0) && (d_count d mod k =? 0) in
    {| d_offset := d_offset d;
       d_count := S (d_count d);
       d_closed := if rotate then d_closed d ++ [d_current d] else d_closed d;
       d_current := if rotate then [p] else d_current d ++ [p];
       d_done := negb (limit =? 0) && (S (d_count d) =? limit) |}.

Definition driver_step {P} (limit k : nat) (d : Driver P) (e : bool * P)
  : Driver P :=
  if d_done d then d
  else if negb (fst e) then d
  else if 0 <? d_offset d then
    {| d_offset := d_offset d - 1; d_count := d_count d;
       d_closed := d_closed d; d_current := d_current d; d_done := d_done d |}
  else driver_emit limit k d (snd e).

Definition driver_init (P : Type) (offset : nat) : Driver P :=
  {| d_offset := offset; d_count := 0; d_closed := []; d_current := [];
     d_done := false |}.

Definition driver_chunks {P} (d : Driver P) : list (list P) :=
  d_closed d ++ [d_current d].

Definition unwrap {A} (r : Result (list A)) : list A :=
  match r with Ok l => l | Raise _ => [] end.

(** A row as the driver sees it: its visibility and what is emitted
    for it. *)
Definition row_event {P} (payload : RowRef -> P) (r : RowRef) : bool * P :=
  (row_visible r, payload r).

(** What the visible events carry. *)
Definition payloads {P} (events : list (bool * P)) : list P :=
  map snd (filter fst events).

(** What is still to be emitted from [W] once [E] has been. *)
Definition remaining {P} (limit : nat) (E W : list P) : list P :=
  if limit =? 0 then W else firstn (limit - length E) W.

(** The state of the driver after it has emitted [E]. *)
Definition driver_inv {P} (limit k : nat) (E : list P) (d : Driver P) : Prop :=
  d_count d = length E /\
  concat (d_closed d) ++ d_current d = E /\
  (k = 0 -> d_closed d = []) /\
  (0 < k -> Forall (fun c => length c = k) (d_closed d) /\
            length (d_current d) <= k /\
            (d_current d = [] -> E = [])) /\
  (d_done d = false -> limit = 0 \/ length E < limit) /\
  (d_done d = true -> limit <> 0 /\ length E = limit).

(** The current run is full: the next row starts a new file. *)
Definition run_full (k count : nat) : bool :=
  (0 <? count) && negb (k =? 0) && (count mod k =? 0).



End Expected.

(** A loop body [body] follows the driver on the events [ev x] of its
    element [x]: from related states it reaches related states, and it
    leaves the loops exactly when the driver is done. *)
Definition simulates {A S P : Type} (limit k : nat) (Rel : S -> Driver P -> Prop)
           (body : S -> A -> Result (Control * S)) (ev : A -> list (bool * P))
           (x : A) : Prop :=
  forall s d, Rel s d -> d_done d = false ->
    exists c s',
      body s x = Ok (c, s') /\
      Rel s' (fold_left (driver_step limit k) (ev x) d) /\
      (c = GotoReturn <-> d_done (fold_left (driver_step limit k) (ev x) d) = true).



(* ================================================================= *)
(** ** When an export runs to completion *)

Section WellFormed.
Context {collab : Collaborators}.

Definition is_virtual (c : ColumnID) : bool :=
  (c =? COLUMN_IDENTIFIER_ROW_ID)%N || (c =? COLUMN_IDENTIFIER_CREATE)%N
  || (c =? COLUMN_IDENTIFIER_DELETE)%N.

(** The column vector a selector yields for a block has the block's row
    count.  For a physical column the export checks it; for the two
    timestamp vectors it is the contract of the accessor. *)
Definition column_sized (block_entry : BlockEntry) (c : ColumnID) : bool :=
  let n := block_row_count block_entry in
  if (c =? COLUMN_IDENTIFIER_ROW_ID)%N then true
  else if (c =? COLUMN_IDENTIFIER_CREATE)%N then
    length (GetCreateTSVector block_entry 0 n) =? n
  else if (c =? COLUMN_IDENTIFIER_DELETE)%N then
    length (GetDeleteTSVector block_entry 0 n) =? n
  else length (GetConstColumnVector block_entry c) =? n.

Definition all_blocks (this : PhysicalExport) : list BlockEntry :=
  flat_map (fun segment => block_map_ (snd segment)) (block_index_ this).

Definition blocks_sized (this : PhysicalExport) (columns : list ColumnID) : bool :=
  forallb (fun b => forallb (column_sized b) columns) (all_blocks this).

(** Every selector is a virtual column or a position of [column_defs]. *)
Definition columns_known (this : PhysicalExport) : bool :=
  forallb (fun c => is_virtual c || (c <? N.of_nat (length (column_defs this)))%N)
          (select_columns this).

Definition text_exportable (this : PhysicalExport) : bool :=
  columns_known this && blocks_sized this (select_columns this).

Definition fvecs_exportable (this : PhysicalExport) : bool :=
  match fvecs_check this with
  | Ok (exported_column_idx, _) =>
      forallb (fun b => length (GetConstColumnVector b exported_column_idx)
                        =? block_row_count b)
              (all_blocks this)
  | Raise _ => false
  end.

Definition lowers (column_def : ColumnDef) : bool :=
  match GetArrowType column_def, MakeArrayBuilder column_def with
  | Ok _, Ok _ => true
  | _, _ => false
  end.

Definition column_lowers (this : PhysicalExport) (c : ColumnID) : bool :=
  match index (column_defs this) c with
  | Ok column_def => lowers column_def
  | Raise _ => false
  end.

(** Every selector is a position of [column_defs] whose type both
    [GetArrowType] and [BuildArrowArray] accept. *)
Definition parquet_exportable (this : PhysicalExport) : bool :=
  forallb (column_lowers this) (select_columns this)
  && blocks_sized this (select_columns this).

End WellFormed.

(* ================================================================= *)
(** ** How the sinks relate to the driver *)

Section TextRelation.
Context {collab : Collaborators}.
Variable this : PhysicalExport.
Variable materialize_block : SegmentID -> BlockEntry -> Result (list ColumnVector).
Variable serialize : list ColumnVector -> nat -> Result (list byte).
Variable head : list byte.

(** The state of a text sink and the driver's: same counters, and the
    files hold the driver's runs. *)
Definition text_rel (st : ScanState) (d : Driver (list byte)) : Prop :=
  offset st = d_offset d /\
  row_count st = d_count d /\
  file_no_ st = length (d_closed d) /\
  closed_files st = text_files (file_path_ this) head (d_closed d) /\
  file_handle st =
    {| path := export_path (file_path_ this) (length (d_closed d));
       content := (if length (d_closed d) =? 0 then head else [])
                  ++ concat (d_current d) |}.

Definition text_payload (r : RowRef) : list byte :=
  unwrap (row_bytes materialize_block serialize r).

(** The block materializes and each of its rows serializes. *)
Definition block_ready (segment_id : SegmentID) (block_entry : BlockEntry) : Prop :=
  exists column_vectors,
    materialize_block segment_id block_entry = Ok column_vectors /\
    forall row_idx, row_idx < block_row_count block_entry ->
                    exists line, serialize column_vectors row_idx = Ok line.

Definition snapshot_ready : Prop :=
  forall segment, In segment (block_index_ this) ->
  forall block_entry, In block_entry (block_map_ (snd segment)) ->
                      block_ready (fst segment) block_entry.

End TextRelation.

Section ParquetRelation.
Context {collab : Collaborators}.
Variable this : PhysicalExport.

Definition pq_base (st : ParquetState) (d : Driver (list Value)) : Prop :=
  pq_offset st = d_offset d /\
  pq_row_count st = d_count d /\
  pq_file_no_ st = length (closed_writers st) /\
  map output_file_path (closed_writers st ++ [file_writer st])
  = map (export_path (file_path_ this)) (seq 0 (S (length (closed_writers st)))).

(** The runs of rows the files hold once the rows pending in
    [block_rows_for_output] are written. *)
Definition pq_chunks (st : ParquetState) (pending : list (list Value))
  : list (list (list Value)) * list (list Value) :=
  match pending with
  | [] => (map parquet_rows (closed_writers st), parquet_rows (file_writer st))
  | _ :: _ =>
      if switch_to_new_file st
      then (map parquet_rows (closed_writers st ++ [file_writer st]), pending)
      else (map parquet_rows (closed_writers st),
            parquet_rows (file_writer st) ++ pending)
  end.

Definition pq_pending (st : ParquetState) (pending : list (list Value))
           (d : Driver (list Value)) : Prop :=
  pq_base st d /\ (d_closed d, d_current d) = pq_chunks st pending.

Definition pq_rel (st : ParquetState) (d : Driver (list Value)) : Prop :=
  pq_pending st [] d /\
  switch_to_new_file st = run_full (row_limit_ this) (d_count d).

(** The values of row [idx] across the column vectors of a block. *)
Definition rowv (column_vectors : list ColumnVector) (idx : nat) : list Value :=
  flat_map (fun cv => opt_list (nth_error cv idx)) column_vectors.

Definition block_events (column_vectors : list ColumnVector)
           (filter : SegmentOffset -> bool) (seg_off : SegmentOffset)
           (rows : list nat) : list (bool * list Value) :=
  map (fun idx => (filter (seg_off + idx), rowv column_vectors idx)) rows.

(** A column of a batch holds the column vector's values at the rows
    of the batch. *)
Definition column_of_batch (rows : list nat) (cv : ColumnVector) (a : ArrowArray)
  : Prop :=
  map Some (array_values a) = map (nth_error cv) rows.

(** Every selected column lowers and its vector has [n] values. *)
Definition columns_ready (column_vectors : list ColumnVector) (n : nat) : Prop :=
  Forall2 (fun c cv => (exists cd, index (column_defs this) c = Ok cd
                                   /\ lowers cd = true)
                       /\ length cv = n)
          (select_columns this) column_vectors.

End ParquetRelation.

(* ================================================================= *)
(** ** Scenarios and their vocabulary *)

(** The value of a byte string read as a little-endian number. *)
Definition le_value (bs : list byte) : N :=
  fold_right (fun b acc => (Byte.to_N b + 256 * acc)%N) 0%N bs.



Section Scenarios.
Context {collab : Collaborators}.

(** A block of [rows] rows whose physical column [c] is
    [nth c columns []]. *)
Definition plain_block (rows : nat) (columns : list ColumnVector) : BlockEntry :=
  {| block_id := 0; segment_offset := 0; block_row_count := rows;
     GetConstColumnVector := fun c => nth (N.to_nat c) columns [];
     GetCreateTSVector := fun _ _ => [];
     GetDeleteTSVector := fun _ _ => [] |}.

Definition one_block (b : BlockEntry) : list (SegmentID * SegmentSnapshot) :=
  [(0, {| visible := fun _ => true; block_map_ := [b] |})].

(** The text scenario: columns [(id : int, name : text)], three visible
    rows, header on, delimiter [,], offset 0, limit 0, no splitting. *)
Definition text_scenario (ids names : ColumnVector) : PhysicalExport :=
  {| file_type_ := kCSV; file_path_ := "out.csv"; header_ := true;
     delimiter_ := ","%char; column_idx_array_ := [];
     offset_ := 0; limit_ := 0; row_limit_ := 0;
     column_defs :=
       [ {| name := "id";
            column_type := {| type := kInteger; type_info := NoTypeInfo |} |};
         {| name := "name";
            column_type := {| type := kVarchar; type_info := NoTypeInfo |} |} ];
     block_index_ := one_block (plain_block 3 [ids; names]) |}.


Definition quoted (t : LogicalType) : bool :=
  match t with
  | kEmbedding | kMultiVector | kTensor | kTensorArray | kSparse => true
  | _ => false
  end.

End Scenarios.

Definition scalar_column (column_name : string) (t : LogicalType) : ColumnDef :=
  {| name := column_name; column_type := {| type := t; type_info := NoTypeInfo |} |}.

Definition sparse_column (column_name : string) (data index : EmbeddingDataType)
           (dimension : nat) : ColumnDef :=
  {| name := column_name;
     column_type := {| type := kSparse;
                       type_info := SparseInfo data index dimension |} |}.

(** The physical type matching an integer index width. *)
Definition index_arrow_type (i : EmbeddingDataType) : option ArrowType :=
  match i with
  | kElemInt8 => Some int8
  | kElemInt16 => Some int16
  | kElemInt32 => Some int32
  | kElemInt64 => Some int64
  | _ => None
  end.

(** The files [paths] hold the runs [chunks] of [rows] under the
    per-file limit [k]: as many files as runs, named [file_path],
    [file_path.part1], ...; [ceil(n / k)] of them when there are rows
    to split, else one; the [i]-th run is rows [i * k] to
    [i * k + k - 1], so that every file but the last has [k] rows, the
    base file has the first [k], and no part is empty. *)
Definition files_split {A} (file_path : string) (k : nat) (rows : list A)
           (paths : list string) (chunks : list (list A)) : Prop :=
  paths = map (export_path file_path) (seq 0 (length chunks)) /\
  concat chunks = rows /\
  length chunks = (if (k =? 0) || (length rows =? 0) then 1
                   else ceil_div (length rows) k) /\
  (forall i, i < length chunks ->
             nth i chunks [] = if k =? 0 then rows
                               else firstn k (skipn (i * k) rows)) /\
  (0 < k -> forall i, S i < length chunks -> length (nth i chunks []) = k) /\
  (forall i, 0 < i < length chunks -> nth i chunks [] <> []).

(* ================================================================= *)
(** ** A small implementation of the collaborators

    Enough of [Value], json and the constants to run the exports on
    concrete tables.  A float element of an embedding is kept as its 32
    IEEE-754 bits, which is what the column vector stores. *)

Module Sample.

Inductive SampleValue : Type :=
| IntegerValue (i : Z)
| VarcharValue (s : string)
| EmbeddingValue (elements : list N)
| RowIDSample (segment_id : nat) (segment_offset : N)
| TimestampValue (ts : N).

Definition sample_type (v : SampleValue) : LogicalType :=
  match v with
  | IntegerValue _ => kInteger
  | VarcharValue _ => kVarchar
  | EmbeddingValue _ => kEmbedding
  | RowIDSample _ _ => kRowID
  | TimestampValue _ => kBigInt
  end.

Definition decimalN (n : N) : string := DecimalString.NilZero.string_of_uint (N.to_uint n).

Definition sample_text (v : SampleValue) : string :=
  match v with
  | IntegerValue i => DecimalString.NilZero.string_of_int (Z.to_int i)
  | VarcharValue s => s
  | EmbeddingValue elements =>
      ("[" ++ String.concat "," (map decimalN elements) ++ "]")%string
  | RowIDSample segment_id segment_offset =>
      (decimal segment_id ++ ":" ++ decimalN segment_offset)%string
  | TimestampValue ts => decimalN ts
  end.

Definition sample_embedding (v : SampleValue) : list byte :=
  match v with
  | EmbeddingValue elements => flat_map i32_bytes elements
  | _ => []
  end.

Definition sample_json_dump (members : list (string * string)) : string :=
  ("{" ++ String.concat ","
            (map (fun kv => QUOTE ++ fst kv ++ QUOTE ++ ":" ++ snd kv) members)
       ++ "}")%string.

Definition collaborators : Collaborators := {|
  Value := SampleValue;
  Value_type := sample_type;
  ToString := sample_text;
  GetEmbedding := sample_embedding;
  Json := list (string * string);
  json_null := [];
  AppendToJson := fun v key members => members ++ [(key, sample_text v)];
  json_dump := sample_json_dump;
  RowIDValue := RowIDSample;
  DataType_ToString := fun _ => "type";
  EmbeddingDataType2String := fun _ => "element";
  COLUMN_IDENTIFIER_ROW_ID := (2 ^ 64 - 1)%N;
  COLUMN_IDENTIFIER_CREATE := (2 ^ 64 - 2)%N;
  COLUMN_IDENTIFIER_DELETE := (2 ^ 64 - 3)%N;
  DEFAULT_BLOCK_CAPACITY := 8192%N;
  COLUMN_IDENTIFIER_distinct :=
    conj (proj1 (N.eqb_neq (2 ^ 64 - 1) (2 ^ 64 - 2)) eq_refl)
         (conj (proj1 (N.eqb_neq (2 ^ 64 - 1) (2 ^ 64 - 3)) eq_refl)
               (proj1 (N.eqb_neq (2 ^ 64 - 2) (2 ^ 64 - 3)) eq_refl))
|}.

(** A block holding the given columns, every row created at 1 and
    deleted never. *)
Definition block (id : nat) (seg_off : nat) (rows : nat)
           (columns : list (@ColumnVector collaborators))
  : @BlockEntry collaborators :=
  {| block_id := id; segment_offset := seg_off; block_row_count := rows;
     GetConstColumnVector := fun c => nth (N.to_nat c) columns [];
     GetCreateTSVector := fun from to => repeat (TimestampValue 1) (to - from);
     GetDeleteTSVector := fun from to => repeat (TimestampValue 0) (to - from) |}.

Definition int_column : list Z -> @ColumnVector collaborators :=
  map IntegerValue.
Definition text_column : list string -> @ColumnVector collaborators :=
  map VarcharValue.
Definition embedding_column : list (list N) -> @ColumnVector collaborators :=
  map EmbeddingValue.

(** The table of the text scenario: columns [id : int], [name : text]
    and the rows (1, a), (2, b), (3, c) in one block. *)
Definition id_name_defs : list ColumnDef :=
  [ {| name := "id"; column_type := {| type := kInteger; type_info := NoTypeInfo |} |};
    {| name := "name"; column_type := {| type := kVarchar; type_info := NoTypeInfo |} |} ].

Definition id_name_block : @BlockEntry collaborators :=
  block 0 0 3 [int_column [1; 2; 3]%Z; text_column ["a"; "b"; "c"]].

Definition all_visible : SegmentOffset -> bool := fun _ => true.

Definition id_name_export (file_type : CopyFileType) (columns : list ColumnID)
           (header : bool) (offset limit row_limit : nat)
           (filter : SegmentOffset -> bool) : @PhysicalExport collaborators :=
  {| file_type_ := file_type; file_path_ := "/tmp/t.out"; header_ := header;
     delimiter_ := ","%char; column_idx_array_ := columns;
     offset_ := offset; limit_ := limit; row_limit_ := row_limit;
     column_defs := id_name_defs;
     block_index_ := [(0, {| visible := filter; block_map_ := [id_name_block] |})] |}.

(** A table with one embedding column of dimension 2 holding
    [1.0, 2.0] and [3.0, 4.0]. *)
Definition vec_defs (elem : EmbeddingDataType) : list ColumnDef :=
  [ {| name := "vec";
       column_type := {| type := kEmbedding; type_info := EmbeddingInfo elem 2 |} |} ].

Definition vec_block : @BlockEntry collaborators :=
  block 0 0 2 [embedding_column [[0x3F800000; 0x40000000]%N;
                                   [0x40400000; 0x40800000]%N]].

Definition vec_export (defs : list ColumnDef) (columns : list ColumnID)
  : @PhysicalExport collaborators :=
  {| file_type_ := kFVECS; file_path_ := "/tmp/v.fvecs"; header_ := false;
     delimiter_ := ","%char; column_idx_array_ := columns;
     offset_ := 0; limit_ := 0; row_limit_ := 0;
     column_defs := defs;
     block_index_ := [(0, {| visible := all_visible; block_map_ := [vec_block] |})] |}.

End Sample.

(* ================================================================= *)
(** ** Variations of an export and what its output is made of *)

Section Variations.
Context {collab : Collaborators}.

(** The same export with another [offset_] and [limit_]. *)
Definition with_window (this : PhysicalExport) (offset limit : nat) : PhysicalExport :=
  {| file_type_ := file_type_ this; file_path_ := file_path_ this;
     header_ := header_ this; delimiter_ := delimiter_ this;
     column_idx_array_ := column_idx_array_ this;
     offset_ := offset; limit_ := limit; row_limit_ := row_limit_ this;
     column_defs := column_defs this; block_index_ := block_index_ this |}.

(** The same export with another column list. *)
Definition with_columns (this : PhysicalExport) (columns : list ColumnID)
  : PhysicalExport :=
  {| file_type_ := file_type_ this; file_path_ := file_path_ this;
     header_ := header_ this; delimiter_ := delimiter_ this;
     column_idx_array_ := columns;
     offset_ := offset_ this; limit_ := limit_ this; row_limit_ := row_limit_ this;
     column_defs := column_defs this; block_index_ := block_index_ this |}.

(** The same export over another block index. *)
Definition with_index (this : PhysicalExport)
           (segments : list (SegmentID * SegmentSnapshot)) : PhysicalExport :=
  {| file_type_ := file_type_ this; file_path_ := file_path_ this;
     header_ := header_ this; delimiter_ := delimiter_ this;
     column_idx_array_ := column_idx_array_ this;
     offset_ := offset_ this; limit_ := limit_ this; row_limit_ := row_limit_ this;
     column_defs := column_defs this; block_index_ := segments |}.

(** The same export over the part of the block index that precedes a
    block: the segments [before], then the blocks [blocks_before] of
    the block's own segment. *)
Definition read_before (this : PhysicalExport)
           (before : list (SegmentID * SegmentSnapshot))
           (segment_id : SegmentID) (segment : SegmentSnapshot)
           (blocks_before : list BlockEntry) : PhysicalExport :=
  with_index this
    (before ++ [(segment_id, {| visible := visible segment;
                                block_map_ := blocks_before |})]).

(** Every position of [column_defs], in order. *)
Definition all_columns (this : PhysicalExport) : list ColumnID :=
  map N.of_nat (seq 0 (length (column_defs this))).


(** The fault of lines 191-194, 327-330, 458-461 and 647-650. *)
Definition unmatched_row_count : Fault :=
  UnrecoverableError "Unmatched row_count between block and block_column".

(** A record batch fits the schema [fields]: it has rows, one array per
    field, each built by a builder of the field's type and holding one
    value per row of the batch. *)
Definition batch_fits (fields : list (string * ArrowType)) (b : RecordBatch) : Prop :=
  0 < num_rows b /\
  Forall2 (fun field a => builder_type (array_builder a) = snd field /\
                          length (array_values a) = num_rows b)
          fields (block_arrays b).

Definition file_fits (fields : list (string * ArrowType)) (f : ParquetFile) : Prop :=
  schema f = fields /\ Forall (batch_fits fields) (record_batches f).

Definition writers_fit (fields : list (string * ArrowType)) (st : ParquetState)
  : Prop :=
  Forall (file_fits fields) (closed_writers st ++ [file_writer st]).

End Variations.

(* ================================================================= *)
(** ** PersistResultHandler

    [src/storage/persistence/persist_result_handler.cpp].  [ObjAddr]
    and the persistence manager [pm_] are defined elsewhere and are
    parameters.  The file system is the list of the paths that exist;
    [fs::remove] deletes a path that exists and does nothing for one
    that does not. *)

Module Persist.

Record PersistWriteResult : Type := {
  persist_keys_ : list string;
  drop_keys_ : list string
}.

Section Handler.
Variable ObjAddr : Type.
Variable obj_key_ : ObjAddr -> string.
Variable GetObjPath : string -> string.

Record PersistReadResult : Type := {
  obj_addr_ : ObjAddr;
  cached_ : bool
}.

Definition fs_remove (p : string) (fs : list string) : list string :=
  filter (fun q => negb (String.eqb q p)) fs.

(** The first loop visits [persist_keys_] and does nothing with them. *)
Definition HandleWriteResult (result : PersistWriteResult) (fs : list string)
  : list string :=
  let fs := fold_left (fun fs _ => fs) (persist_keys_ result) fs in
  fold_left (fun fs drop_key => fs_remove (GetObjPath drop_key) fs)
            (drop_keys_ result) fs.

Definition HandleReadResult (result : PersistReadResult) : Result ObjAddr :=
  if negb (cached_ result)
  then Raise (UnrecoverableError
                ("HandleReadResult: object " ++ obj_key_ (obj_addr_ result)
                 ++ " is not cached"))
  else Ok (obj_addr_ result).

End Handler.
End Persist.

(* ================================================================= *)
(** * Proofs *)

(* ================================================================= *)
(** ** Lists cut into runs *)

Section Runs.
Variable A : Type.

Lemma concat_uniform_length (k : nat) (cs : list (list A)) :
  Forall (fun c => length c = k) cs -> length (concat cs) = length cs * k.
Proof.
  induction 1 as [|c cs Hc _ IH]; simpl; [reflexivity|].
  rewrite length_app, IH, Hc. reflexivity.
Qed.

Lemma nth_run (k : nat) (closed : list (list A)) (current : list A) :
  Forall (fun c => length c = k) closed ->
  length current <= k ->
  forall i, i <= length closed ->
    nth i (closed ++ [current]) [] =
    firstn k (skipn (i * k) (concat closed ++ current)).
Proof.
  intros Hclosed Hcur. induction Hclosed as [|c cs Hc _ IH]; intros i Hi.
  - simpl in Hi. assert (i = 0) by lia. subst. simpl.
    symmetry. apply firstn_all2. exact Hcur.
  - destruct i as [|i]; simpl.
    + rewrite <- app_assoc, firstn_app, Hc, Nat.sub_diag. simpl.
      rewrite app_nil_r. apply eq_sym, firstn_all2. lia.
    + simpl in Hi. rewrite IH by lia.
      rewrite <- app_assoc, (skipn_app (k + i * k) c), Hc.
      rewrite (skipn_all2 c) by lia. simpl.
      replace (k + i * k - k) with (i * k) by lia. reflexivity.
Qed.

Lemma ceil_div_run (k m c : nat) :
  0 < c <= k -> ceil_div (m * k + c) k = S m.
Proof.
  intros Hc. unfold ceil_div. symmetry.
  apply Nat.div_unique with (r := c - 1); lia.
Qed.

Lemma ceil_div_0 (k : nat) : 0 < k -> ceil_div 0 k = 0.
Proof.
  intros Hk. unfold ceil_div. apply Nat.div_small. lia.
Qed.

End Runs.

(* ================================================================= *)
(** ** The abstract driver *)

Section DriverFacts.
Variable P : Type.
Variables limit k : nat.

Lemma driver_step_done (d : Driver P) (e : bool * P) :
  d_done d = true -> driver_step limit k d e = d.
Proof. intros H. unfold driver_step. now rewrite H. Qed.

Lemma driver_run_done (events : list (bool * P)) (d : Driver P) :
  d_done d = true -> fold_left (driver_step limit k) events d = d.
Proof.
  induction events as [|e events IH]; intros H; simpl; [reflexivity|].
  rewrite driver_step_done by exact H. now apply IH.
Qed.

Lemma driver_inv_init (o : nat) : driver_inv limit k [] (driver_init P o).
Proof.
  unfold driver_inv, driver_init; simpl.
  repeat split; auto; try lia; try discriminate.
Qed.

Lemma driver_emit_inv (E : list P) (d : Driver P) (p : P) :
  driver_inv limit k E d -> d_done d = false ->
  driver_inv limit k (E ++ [p]) (driver_emit limit k d p).
Proof.
  intros (Hcount & Hcat & Hk0 & Hk & Hrun & _) Hdone.
  specialize (Hrun Hdone).
  unfold driver_emit. rewrite Hdone.
  assert (Hlen : length (E ++ [p]) = S (length E))
    by (rewrite length_app; simpl; lia).
  assert (Hflags :
    (negb (limit =? 0) && (S (d_count d) =? limit) = false ->
       limit = 0 \/ length (E ++ [p]) < limit) /\
    (negb (limit =? 0) && (S (d_count d) =? limit) = true ->
       limit <> 0 /\ length (E ++ [p]) = limit)).
  { rewrite Hlen, Hcount. split; intros H.
    - apply andb_false_iff in H. destruct H as [H|H].
      + left. apply negb_false_iff, Nat.eqb_eq in H. exact H.
      + apply Nat.eqb_neq in H. destruct Hrun; [now left | right; lia].
    - apply andb_true_iff in H. destruct H as [H1 H2].
      apply negb_true_iff, Nat.eqb_neq in H1. apply Nat.eqb_eq in H2. lia. }
  destruct Hflags as [Hf Ht].
  destruct (Nat.eq_dec k 0) as [K0|K0].
  - (* no splitting *)
    assert (Hk0b : (k =? 0) = true) by (apply Nat.eqb_eq; exact K0).
    rewrite Hk0b. cbn [negb]. rewrite andb_false_r. cbn [andb].
    unfold driver_inv; cbn [d_count d_closed d_current d_done].
    split; [lia|]. split; [rewrite app_assoc, Hcat; reflexivity|].
    split; [exact Hk0|]. split; [intros; lia|]. split; assumption.
  - assert (Kpos : 0 < k) by lia.
    destruct (Hk Kpos) as (Hall & Hcur & Hnil).
    assert (Hsum : d_count d = length (d_closed d) * k + length (d_current d)).
    { rewrite Hcount, <- Hcat, length_app, concat_uniform_length with (k := k) by exact Hall.
      reflexivity. }
    assert (Hmod : d_count d mod k = length (d_current d) mod k).
    { rewrite Hsum, Nat.add_comm, Nat.Div0.mod_add. reflexivity. }
    destruct ((0 <? d_count d) && negb (k =? 0) && (d_count d mod k =? 0)) eqn:Hrot.
    + (* the current run is full: a new one starts *)
      apply andb_true_iff in Hrot. destruct Hrot as [Hrot Hz].
      apply andb_true_iff in Hrot. destruct Hrot as [Hpos _].
      apply Nat.ltb_lt in Hpos. apply Nat.eqb_eq in Hz. rewrite Hmod in Hz.
      assert (Hfull : length (d_current d) = k).
      { destruct (Nat.eq_dec (length (d_current d)) k) as [|Hne]; [assumption|].
        rewrite Nat.mod_small in Hz by lia.
        apply length_zero_iff_nil in Hz. apply Hnil in Hz.
        rewrite Hz in Hcount. simpl in Hcount. lia. }
      unfold driver_inv; cbn [d_count d_closed d_current d_done].
      split; [lia|].
      split; [rewrite concat_app; cbn [concat]; rewrite app_nil_r, Hcat; reflexivity|].
      split; [intros; lia|].
      split; [|split; assumption].
      intros _. split; [|split; [cbn [length]; lia | discriminate]].
      apply Forall_app. split; [exact Hall | constructor; [exact Hfull | constructor]].
    + (* the row joins the current run *)
      assert (Hroom : length (d_current d) < k).
      { destruct (Nat.eq_dec (length (d_current d)) k) as [Hfull|]; [|lia].
        exfalso.
        assert ((0 <? d_count d) = true) by (apply Nat.ltb_lt; lia).
        assert (negb (k =? 0) = true) by (apply negb_true_iff, Nat.eqb_neq; lia).
        assert ((d_count d mod k =? 0) = true).
        { apply Nat.eqb_eq. rewrite Hmod, Hfull. apply Nat.Div0.mod_same. }
        rewrite H, H0, H1 in Hrot. discriminate. }
      unfold driver_inv; cbn [d_count d_closed d_current d_done].
      split; [lia|].
      split; [rewrite app_assoc, Hcat; reflexivity|].
      split; [intros; lia|].
      split; [|split; assumption].
      intros _. split; [exact Hall|].
      split; [rewrite length_app; cbn [length]; lia|].
      intros Habs. apply app_eq_nil in Habs. destruct Habs; discriminate.
Qed.

Lemma remaining_cons (E W : list P) (p : P) :
  limit = 0 \/ length E < limit ->
  E ++ remaining limit E (p :: W) = (E ++ [p]) ++ remaining limit (E ++ [p]) W.
Proof.
  intros H. unfold remaining. rewrite <- app_assoc. simpl.
  destruct (limit =? 0) eqn:L; [reflexivity|].
  apply Nat.eqb_neq in L. destruct H as [H|H]; [contradiction|].
  rewrite length_app. simpl.
  replace (limit - length E) with (S (limit - (length E + 1))) by lia.
  reflexivity.
Qed.

Lemma driver_emit_offset (d : Driver P) (p : P) :
  d_offset (driver_emit limit k d p) = d_offset d.
Proof. unfold driver_emit. destruct (d_done d); reflexivity. Qed.

Lemma driver_run_inv (events : list (bool * P)) :
  forall (d : Driver P) (E : list P),
    driver_inv limit k E d -> d_done d = false ->
    driver_inv limit k (E ++ remaining limit E (skipn (d_offset d) (payloads events)))
               (fold_left (driver_step limit k) events d).
Proof.
  induction events as [|[vis p] events IH]; intros d E Hinv Hdone.
  - simpl. unfold payloads, remaining. simpl. rewrite skipn_nil.
    destruct (limit =? 0); [|rewrite firstn_nil]; rewrite app_nil_r; exact Hinv.
  - cbn [fold_left]. unfold driver_step at 2. rewrite Hdone. cbn [fst snd negb].
    destruct vis; cbn [negb].
    + destruct (d_offset d) as [|o] eqn:Ho; cbn [Nat.ltb Nat.leb].
      * (* the row is emitted *)
        pose proof (driver_emit_inv p Hinv Hdone) as Hinv'.
        assert (Hrun : limit = 0 \/ length E < limit) by (apply Hinv; exact Hdone).
        unfold payloads. cbn [filter fst map snd skipn]. fold (payloads events).
        rewrite remaining_cons by exact Hrun.
        destruct (d_done (driver_emit limit k d p)) eqn:Hd'.
        -- rewrite driver_run_done by exact Hd'.
           assert (Hstop : limit <> 0 /\ length (E ++ [p]) = limit)
             by (apply Hinv'; exact Hd').
           destruct Hstop as [Hl Hlen].
           unfold remaining. apply Nat.eqb_neq in Hl. rewrite Hl.
           rewrite Hlen, Nat.sub_diag. cbn [firstn]. rewrite app_nil_r.
           exact Hinv'.
        -- specialize (IH _ _ Hinv' Hd').
           rewrite driver_emit_offset, Ho in IH. exact IH.
      * (* the row is skipped by the offset *)
        unfold payloads. cbn [filter fst map snd skipn]. fold (payloads events).
        match goal with
        | |- context [fold_left _ events ?d'] =>
            specialize (IH d' E)
        end.
        cbn [d_offset d_done] in IH.
        replace (S o - 1) with o in * by lia.
        apply IH; [|reflexivity].
        unfold driver_inv in *. cbn [d_count d_closed d_current d_done].
        rewrite Hdone in Hinv. exact Hinv.
    + (* the row is not visible *)
      unfold payloads. cbn [filter fst]. fold (payloads events).
      apply IH; assumption.
Qed.

Lemma payloads_map {R : Type} (vis : R -> bool) (payload : R -> P) (rows : list R) :
  payloads (map (fun r => (vis r, payload r)) rows)
  = map payload (filter vis rows).
Proof.
  unfold payloads. induction rows as [|r rows IH]; [reflexivity|].
  cbn [map filter fst]. destruct (vis r); cbn [map snd]; now rewrite IH.
Qed.

Lemma take_limit_map {R : Type} (f : R -> P) (l : list R) :
  take_limit limit (map f l) = map f (take_limit limit l).
Proof.
  unfold take_limit. destruct (limit =? 0); [reflexivity|].
  apply firstn_map.
Qed.

(** The abstract driver emits the expected rows and cuts them into
    runs of [k]. *)
Lemma driver_run_spec (events : list (bool * P)) (o : nat) :
  let d := fold_left (driver_step limit k) events (driver_init P o) in
  let E := take_limit limit (skipn o (payloads events)) in
  d_count d = length E /\ split_every k E (driver_chunks d).
Proof.
  intros d E.
  pose proof (driver_run_inv events (driver_inv_init o) eq_refl) as Hinv.
  cbn [app d_offset driver_init] in Hinv.
  unfold remaining in Hinv. cbn [length] in Hinv. rewrite Nat.sub_0_r in Hinv.
  fold (take_limit limit (skipn o (payloads events))) in Hinv.
  fold E in Hinv. fold d in Hinv.
  destruct Hinv as (Hcount & Hcat & Hk0 & Hk & _).
  split; [exact Hcount|].
  unfold split_every, driver_chunks.
  destruct (Nat.eq_dec k 0) as [K0|K0].
  - assert (Hk0b : (k =? 0) = true) by (apply Nat.eqb_eq; exact K0).
    rewrite Hk0b. rewrite (Hk0 K0) in *. cbn [app concat length] in *.
    rewrite app_nil_r. repeat split; auto.
    intros i Hi. assert (i = 0) by lia. subst i. exact Hcat.
  - assert (Kpos : 0 < k) by lia.
    destruct (Hk Kpos) as (Hall & Hcur & Hnil).
    apply Nat.eqb_neq in K0. rewrite K0.
    assert (Hlen : length E = length (d_closed d) * k + length (d_current d)).
    { rewrite <- Hcat, length_app, concat_uniform_length with (k := k) by exact Hall.
      reflexivity. }
    repeat split.
    + rewrite concat_app. cbn [concat]. rewrite app_nil_r. exact Hcat.
    + rewrite length_app. cbn [length].
      destruct (d_current d) as [|p cur] eqn:Hc.
      * rewrite (Hnil eq_refl) in *. cbn [length] in *.
        assert (length (d_closed d) = 0) by nia.
        rewrite H, ceil_div_0 by exact Kpos. reflexivity.
      * rewrite Hlen, ceil_div_run by (cbn [length] in *; lia). lia.
    + intros i Hi. rewrite length_app in Hi. cbn [length] in Hi.
      rewrite nth_run with (k := k); [|exact Hall|exact Hcur|lia].
      rewrite Hcat. reflexivity.
Qed.

End DriverFacts.

Section Simulation.
Context {A S P : Type}.
Variables limit k : nat.
Variable Rel : S -> Driver P -> Prop.

Lemma for_each_simulates (body : S -> A -> Result (Control * S))
      (ev : A -> list (bool * P)) (l : list A) :
  Forall (simulates limit k Rel body ev) l ->
  simulates limit k Rel (fun s l => for_each body l s) (flat_map ev) l.
Proof.
  induction 1 as [|x l Hx _ IH]; intros s d HR Hd.
  - exists Next, s. cbn. repeat split; try assumption; congruence.
  - destruct (Hx s d HR Hd) as (c & s' & Hb & HR' & Hc).
    cbn [for_each flat_map]. rewrite Hb. cbn [bind]. rewrite fold_left_app.
    destruct c.
    + apply IH; [exact HR'|].
      destruct (d_done (fold_left (driver_step limit k) (ev x) d)); [|reflexivity].
      destruct Hc as [_ Hc]. specialize (Hc eq_refl). discriminate.
    + assert (Hd' : d_done (fold_left (driver_step limit k) (ev x) d) = true)
        by (apply Hc; reflexivity).
      rewrite driver_run_done by exact Hd'.
      exists GotoReturn, s'. repeat split; auto.
Qed.

Lemma simulates_ext (B : Type) (body : S -> B -> Result (Control * S))
      (ev ev' : B -> list (bool * P)) (x : B) :
  ev x = ev' x -> simulates limit k Rel body ev x -> simulates limit k Rel body ev' x.
Proof. unfold simulates. intros <-. auto. Qed.

End Simulation.

Lemma flat_map_singleton {A B} (f : A -> B) (l : list A) :
  flat_map (fun x => [f x]) l = map f l.
Proof. induction l; cbn; congruence. Qed.

Lemma combine_snoc {X Y} (xs : list X) (ys : list Y) (x : X) (y : Y) :
  length xs = length ys ->
  combine (xs ++ [x]) (ys ++ [y]) = combine xs ys ++ [(x, y)].
Proof.
  revert ys. induction xs as [|x0 xs IH]; intros [|y0 ys] Hlen; try discriminate.
  - reflexivity.
  - cbn. f_equal. apply IH. cbn in Hlen. lia.
Qed.

Lemma text_files_snoc (p : string) (head : list byte)
      (cs : list (list (list byte))) (c : list (list byte)) :
  text_files p head (cs ++ [c]) =
  text_files p head cs ++
  [{| path := export_path p (length cs);
      content := (if length cs =? 0 then head else []) ++ concat c |}].
Proof.
  unfold text_files.
  rewrite length_app. cbn [length]. rewrite Nat.add_1_r, seq_S.
  rewrite combine_snoc by (rewrite length_seq; reflexivity).
  rewrite map_app. reflexivity.
Qed.

Section TextSink.
Context {collab : Collaborators}.
Variable this : PhysicalExport.
Variable materialize_block : SegmentID -> BlockEntry -> Result (list ColumnVector).
Variable serialize : list ColumnVector -> nat -> Result (list byte).
Variable head : list byte.

Local Abbreviation sim := (simulates (limit_ this) (row_limit_ this) (text_rel this head)).
Local Abbreviation payload := (text_payload materialize_block serialize).

Lemma export_row_simulates (segment_id : SegmentID) (filter : SegmentOffset -> bool)
      (block_entry : BlockEntry) (column_vectors : list ColumnVector)
      (row_idx : nat) (line : list byte) :
  serialize column_vectors row_idx = Ok line ->
  sim (export_row this serialize filter (segment_offset block_entry) column_vectors)
      (fun i => [(filter (segment_offset block_entry + i), line)])
      row_idx.
Proof.
  intros Hser st d (Hoff & Hcount & Hno & Hclosed & Hhandle) Hd.
  unfold export_row. cbn [fold_left]. unfold driver_step. rewrite Hd. cbn [fst snd].
  destruct (filter (segment_offset block_entry + row_idx)); cbn [negb].
  2:{ exists Next, st. repeat split; try assumption; congruence. }
  rewrite Hoff.
  destruct (0 <? d_offset d) eqn:Hpos.
  { eexists Next, _. split; [reflexivity|].
    split; [|cbn [d_done]; split; congruence].
    unfold text_rel. cbn. repeat split; assumption || reflexivity. }
  rewrite Hser. cbn [bind].
  unfold driver_emit. rewrite Hd, Hcount.
  set (rotate := (0 <? d_count d) && negb (row_limit_ this =? 0)
                 && (d_count d mod row_limit_ this =? 0)).
  set (st1 := if rotate then open_part this st else st).
  assert (Hrc : row_count st1 = d_count d)
    by (subst st1; destruct rotate; cbn; exact Hcount).
  cbn [row_count Append]. rewrite Hrc.
  destruct (negb (limit_ this =? 0) && (S (d_count d) =? limit_ this)) eqn:Hlim;
    eexists _, _; (split; [reflexivity|]);
    (split; [|cbn [d_done]; split; intros; reflexivity || congruence]).
  all: subst st1; unfold text_rel; destruct rotate;
    cbn -[text_files export_path Nat.eqb].
  all: rewrite ?text_files_snoc, ?length_app, ?Hoff, ?Hcount, ?Hno, ?Hclosed, ?Hhandle.
  all: cbn [length path content]; rewrite ?Nat.add_1_r; cbn [export_path Nat.eqb app].
  all: rewrite ?concat_app; cbn [concat]; rewrite ?app_nil_r, ?app_assoc.
  all: repeat split; reflexivity.
Qed.


Lemma export_block_simulates (segment_id : SegmentID)
      (filter : SegmentOffset -> bool) (block_entry : BlockEntry) :
  block_ready materialize_block serialize segment_id block_entry ->
  sim (export_block this materialize_block serialize segment_id filter)
      (fun b => map (row_event payload) (block_scan segment_id filter b))
      block_entry.
Proof.
  intros (column_vectors & Hmat & Hser) st d HR Hd.
  unfold export_block. rewrite Hmat. cbn [bind].
  set (ev := fun i => [(filter (segment_offset block_entry + i),
                        unwrap (serialize column_vectors i))]).
  assert (Hrows : Forall
            (sim (export_row this serialize filter (segment_offset block_entry)
                             column_vectors) ev)
            (seq 0 (block_row_count block_entry))).
  { apply Forall_forall. intros i Hi. apply in_seq in Hi.
    destruct (Hser i) as [line Hline]; [lia|].
    eapply simulates_ext; [|eapply export_row_simulates with (segment_id := segment_id); exact Hline].
    unfold ev. rewrite Hline. reflexivity. }
  pose proof (for_each_simulates Hrows st d HR Hd) as Hsim.
  replace (map (row_event payload) (block_scan segment_id filter block_entry))
    with (flat_map ev (seq 0 (block_row_count block_entry))); [exact Hsim|].
  unfold ev. rewrite flat_map_singleton. unfold block_scan. rewrite map_map.
  apply map_ext. intros i. unfold row_event, row_visible, text_payload, row_bytes.
  cbn. rewrite Hmat. reflexivity.
Qed.

Lemma map_flat_map {X Y Z} (f : Y -> Z) (g : X -> list Y) (l : list X) :
  map f (flat_map g l) = flat_map (fun x => map f (g x)) l.
Proof.
  induction l as [|x l IH]; [reflexivity|].
  cbn. rewrite map_app, IH. reflexivity.
Qed.

Lemma export_segment_simulates (segment : SegmentID * SegmentSnapshot) :
  (forall b, In b (block_map_ (snd segment)) ->
             block_ready materialize_block serialize (fst segment) b) ->
  sim (export_segment this materialize_block serialize)
      (fun sg => map (row_event payload) (segment_scan sg))
      segment.
Proof.
  intros Hready st d HR Hd. destruct segment as [segment_id segment_snapshot].
  cbn [export_segment fst snd] in *.
  assert (Hblocks : Forall
            (sim (export_block this materialize_block serialize segment_id
                               (visible segment_snapshot))
                 (fun b => map (row_event payload)
                               (block_scan segment_id (visible segment_snapshot) b)))
            (block_map_ segment_snapshot)).
  { apply Forall_forall. intros b Hb. apply export_block_simulates. auto. }
  pose proof (for_each_simulates Hblocks st d HR Hd) as Hsim.
  unfold segment_scan. cbn [fst snd]. rewrite map_flat_map. exact Hsim.
Qed.

(** The three nested loops of a text sink produce the expected rows,
    [row_limit_] to a file. *)
Lemma scan_spec :
  snapshot_ready this materialize_block serialize ->
  exists chunks,
    scan this materialize_block serialize head
    = Ok (length (exported_rows this),
          text_files (file_path_ this) head chunks) /\
    split_every (row_limit_ this) (map payload (exported_rows this)) chunks.
Proof.
  intros Hready.
  assert (Hsegs : Forall
            (sim (export_segment this materialize_block serialize)
                 (fun sg => map (row_event payload) (segment_scan sg)))
            (block_index_ this)).
  { apply Forall_forall. intros sg Hsg. apply export_segment_simulates. auto. }
  set (st0 := {| offset := offset_ this; row_count := 0; file_no_ := 0;
                 closed_files := [];
                 file_handle := {| path := file_path_ this; content := head |} |}).
  assert (HR0 : text_rel this head st0 (driver_init (list byte) (offset_ this))).
  { unfold text_rel, st0. cbn. rewrite app_nil_r. repeat split; reflexivity. }
  destruct (for_each_simulates Hsegs st0 _ HR0 eq_refl) as (c & st & Hrun & HR & _).
  rewrite <- map_flat_map in HR. fold (scan_order this) in HR.
  set (events := map (row_event payload) (scan_order this)) in HR.
  pose proof (driver_run_spec (limit_ this) (row_limit_ this) events (offset_ this))
    as [Hcount Hsplit].
  cbv zeta in Hcount, Hsplit.
  set (d := fold_left (driver_step (limit_ this) (row_limit_ this)) events
                      (driver_init (list byte) (offset_ this))) in *.
  assert (HE : take_limit (limit_ this) (skipn (offset_ this) (payloads events))
               = map payload (exported_rows this)).
  { unfold events, row_event. rewrite payloads_map, skipn_map, take_limit_map.
    reflexivity. }
  rewrite HE in Hcount, Hsplit. rewrite length_map in Hcount.
  destruct HR as (_ & Hrc & _ & Hclosed & Hhandle).
  exists (driver_chunks d). split; [|exact Hsplit].
  unfold scan. fold st0. rewrite Hrun. cbn [bind].
  rewrite Hrc, Hcount. unfold files, driver_chunks.
  rewrite text_files_snoc, Hclosed, Hhandle. reflexivity.
Qed.

Lemma rows_ready :
  snapshot_ready this materialize_block serialize ->
  forall r, In r (scan_order this) ->
            row_bytes materialize_block serialize r = Ok (payload r).
Proof.
  intros Hready r Hr. unfold scan_order in Hr.
  apply in_flat_map in Hr. destruct Hr as (sg & Hsg & Hr).
  unfold segment_scan in Hr. apply in_flat_map in Hr. destruct Hr as (b & Hb & Hr).
  unfold block_scan in Hr. apply in_map_iff in Hr. destruct Hr as (i & <- & Hi).
  apply in_seq in Hi.
  destruct (Hready sg Hsg b Hb) as (column_vectors & Hmat & Hser).
  destruct (Hser i) as [line Hline]; [lia|].
  unfold text_payload, row_bytes. cbn. rewrite Hmat. cbn [bind]. rewrite Hline.
  reflexivity.
Qed.

End TextSink.

(* ================================================================= *)
(** ** The snapshots the sinks run on to completion *)

Section Ready.
Context {collab : Collaborators}.

Lemma mapM_ok {A B} (f : A -> Result B) (Q : A -> B -> Prop) (l : list A) :
  (forall x, In x l -> exists y, f x = Ok y /\ Q x y) ->
  exists ys, mapM f l = Ok ys /\ Forall2 Q l ys.
Proof.
  induction l as [|x l IH]; intros H.
  - exists []. split; [reflexivity | constructor].
  - destruct (H x (or_introl eq_refl)) as (y & Hy & HQ).
    destruct IH as (ys & Hys & HQs); [intros; apply H; now right|].
    exists (y :: ys). cbn. rewrite Hy. cbn. rewrite Hys. cbn.
    split; [reflexivity | now constructor].
Qed.

Lemma index_ok {A} (v : list A) (i : ColumnID) :
  (i <? N.of_nat (length v))%N = true -> exists a, index v i = Ok a.
Proof.
  intros H. unfold index. rewrite H.
  destruct (nth_error v (N.to_nat i)) as [a|] eqn:E; [now exists a|].
  apply nth_error_None in E. apply N.ltb_lt in H. lia.
Qed.

Lemma index_out_of_bounds {A} (v : list A) (i : ColumnID) :
  (N.of_nat (length v) <= i)%N -> index v i = Raise OutOfBounds.
Proof.
  intros H. unfold index.
  destruct (i <? N.of_nat (length v))%N eqn:E; [|reflexivity].
  apply N.ltb_lt in E. lia.
Qed.

Lemma GetValue_ok (column_vector : ColumnVector) (row_idx : nat) :
  row_idx < length column_vector ->
  exists v, GetValue column_vector row_idx = Ok v /\
            nth_error column_vector row_idx = Some v.
Proof.
  intros H. unfold GetValue.
  destruct (nth_error column_vector row_idx) as [v|] eqn:E; [now exists v|].
  apply nth_error_None in E. lia.
Qed.

Lemma AppendWith_length (segment_id : SegmentID) (o : N) (n : nat) :
  length (AppendWith segment_id o n) = n.
Proof. unfold AppendWith. now rewrite length_map, length_seq. Qed.

Lemma materialize_column_sized (segment_id : SegmentID) (b : BlockEntry)
      (c : ColumnID) :
  column_sized b c = true ->
  exists cv, materialize_column segment_id b c = Ok cv /\
             length cv = block_row_count b.
Proof.
  unfold column_sized, materialize_column. intros H.
  destruct (c =? COLUMN_IDENTIFIER_ROW_ID)%N.
  { eexists. split; [reflexivity | apply AppendWith_length]. }
  destruct (c =? COLUMN_IDENTIFIER_CREATE)%N.
  { eexists. split; [reflexivity | now apply Nat.eqb_eq]. }
  destruct (c =? COLUMN_IDENTIFIER_DELETE)%N.
  { eexists. split; [reflexivity | now apply Nat.eqb_eq]. }
  rewrite H. eexists. split; [reflexivity | now apply Nat.eqb_eq].
Qed.

Lemma materialize_sized (columns : list ColumnID) (segment_id : SegmentID)
      (b : BlockEntry) :
  forallb (column_sized b) columns = true ->
  exists cvs, materialize columns segment_id b = Ok cvs /\
              Forall2 (fun _ cv => length cv = block_row_count b) columns cvs.
Proof.
  intros H. unfold materialize. apply mapM_ok.
  intros c Hc. apply materialize_column_sized.
  rewrite forallb_forall in H. auto.
Qed.

Lemma in_all_blocks (this : PhysicalExport) segment b :
  In segment (block_index_ this) -> In b (block_map_ (snd segment)) ->
  In b (all_blocks this).
Proof.
  intros Hs Hb. unfold all_blocks. apply in_flat_map. now exists segment.
Qed.

Lemma export_name_ok (this : PhysicalExport) (c : ColumnID) :
  is_virtual c || (c <? N.of_nat (length (column_defs this)))%N = true ->
  exists s, export_name this c = Ok s.
Proof.
  unfold is_virtual, export_name. intros H.
  destruct (c =? COLUMN_IDENTIFIER_ROW_ID)%N; [now eexists|].
  destruct (c =? COLUMN_IDENTIFIER_CREATE)%N; [now eexists|].
  destruct (c =? COLUMN_IDENTIFIER_DELETE)%N; [now eexists|].
  cbn in H. destruct (index_ok _ _ H) as [cd Hcd]. rewrite Hcd. now eexists.
Qed.

Lemma csv_header_ok (this : PhysicalExport) (columns : list ColumnID) :
  forallb (fun c => is_virtual c || (c <? N.of_nat (length (column_defs this)))%N)
          columns = true ->
  exists header, csv_header this columns = Ok header.
Proof.
  induction columns as [|c columns IH]; intros H; [now eexists|].
  cbn [forallb] in H. apply andb_true_iff in H. destruct H as [Hc H].
  destruct (export_name_ok this c Hc) as [s Hs]. destruct (IH H) as [t Ht].
  cbn [csv_header]. rewrite Hs. cbn [bind]. rewrite Ht. now eexists.
Qed.

Lemma csv_line_ok (delimiter : ascii) (cvs : list ColumnVector) (row_idx : nat) :
  Forall (fun cv => row_idx < length cv) cvs ->
  exists line, csv_line delimiter cvs row_idx = Ok line.
Proof.
  induction 1 as [|cv cvs Hcv _ [t Ht]]; [now eexists|].
  destruct (GetValue_ok cv Hcv) as (v & Hv & _).
  cbn [csv_line]. rewrite Hv. cbn [bind]. rewrite Ht. now eexists.
Qed.

Lemma jsonl_object_ok (this : PhysicalExport) (row_idx : nat)
      (columns : list (ColumnID * ColumnVector)) :
  Forall (fun cc => (is_virtual (fst cc)
                     || (fst cc <? N.of_nat (length (column_defs this)))%N = true)
                    /\ row_idx < length (snd cc)) columns ->
  forall line_json, exists j, jsonl_object this columns row_idx line_json = Ok j.
Proof.
  induction 1 as [|[c cv] columns [Hc Hcv] _ IH]; intros line_json; [now eexists|].
  cbn [fst snd] in *.
  destruct (export_name_ok this c Hc) as [s Hs].
  destruct (GetValue_ok cv Hcv) as (v & Hv & _).
  cbn [jsonl_object]. rewrite Hs. cbn [bind]. rewrite Hv. cbn [bind]. apply IH.
Qed.

Lemma Forall2_right {A B} (Q : B -> Prop) (l : list A) (l' : list B) :
  Forall2 (fun _ y => Q y) l l' -> Forall Q l'.
Proof. induction 1; constructor; auto. Qed.

Lemma csv_ready (this : PhysicalExport) :
  text_exportable this = true ->
  snapshot_ready this (materialize (select_columns this))
    (fun column_vectors row_idx =>
       line <- csv_line (delimiter_ this) column_vectors row_idx ;;
       Ok (bytes line)).
Proof.
  intros H. apply andb_true_iff in H. destruct H as [_ H].
  intros segment Hs b Hb.
  unfold blocks_sized in H. rewrite forallb_forall in H.
  specialize (H b (in_all_blocks this segment b Hs Hb)).
  destruct (materialize_sized _ (fst segment) _ H) as (cvs & Hm & Hsz).
  exists cvs. split; [exact Hm|]. intros i Hi.
  destruct (@csv_line_ok (delimiter_ this) cvs i) as [line Hl].
  { apply Forall2_right in Hsz. eapply Forall_impl; [|exact Hsz].
    cbn. intros cv ->. exact Hi. }
  rewrite Hl. cbn. now eexists.
Qed.

Lemma Forall_combine {A B} (Q1 : A -> Prop) (Q2 : B -> Prop) l l' :
  Forall Q1 l -> Forall Q2 l' ->
  Forall (fun ab => Q1 (fst ab) /\ Q2 (snd ab)) (combine l l').
Proof.
  intros H. revert l'. induction H as [|a l Ha _ IH]; intros l' H'; [constructor|].
  destruct H' as [|b l' Hb H']; [constructor|].
  cbn. constructor; [now split | now apply IH].
Qed.

Lemma jsonl_ready (this : PhysicalExport) :
  text_exportable this = true ->
  snapshot_ready this (materialize (select_columns this))
    (fun column_vectors row_idx =>
       line_json <- jsonl_object this
                      (combine (select_columns this) column_vectors)
                      row_idx json_null ;;
       Ok (bytes (json_dump line_json ++ LF)%string)).
Proof.
  intros H. apply andb_true_iff in H. destruct H as [Hk H].
  intros segment Hs b Hb.
  unfold blocks_sized in H. rewrite forallb_forall in H.
  specialize (H b (in_all_blocks this segment b Hs Hb)).
  destruct (materialize_sized _ (fst segment) _ H) as (cvs & Hm & Hsz).
  exists cvs. split; [exact Hm|]. intros i Hi.
  destruct (@jsonl_object_ok this i (combine (select_columns this) cvs))
    with (line_json := json_null) as [j Hj].
  { apply Forall_combine
      with (Q1 := fun c => is_virtual c
                           || (c <? N.of_nat (length (column_defs this)))%N = true)
           (Q2 := fun cv : ColumnVector => i < length cv).
    - unfold columns_known in Hk. rewrite forallb_forall in Hk.
      apply Forall_forall. exact Hk.
    - apply Forall2_right in Hsz. eapply Forall_impl; [|exact Hsz].
      cbn. intros cv ->. exact Hi. }
  rewrite Hj. cbn. now eexists.
Qed.

Lemma fvecs_ready (this : PhysicalExport) (exported_column_idx : ColumnID)
      (dimension : N) :
  fvecs_check this = Ok (exported_column_idx, dimension) ->
  fvecs_exportable this = true ->
  snapshot_ready this (fvecs_materialize exported_column_idx)
                 (fvecs_serialize dimension).
Proof.
  intros Hc H. unfold fvecs_exportable in H. rewrite Hc in H.
  rewrite forallb_forall in H.
  intros segment Hs b Hb.
  specialize (H b (in_all_blocks this segment b Hs Hb)).
  unfold block_ready, fvecs_materialize. rewrite H.
  eexists. split; [reflexivity|]. intros i Hi.
  apply Nat.eqb_eq in H.
  destruct (@GetValue_ok (GetConstColumnVector b exported_column_idx) i)
    as (v & Hv & _); [lia|].
  cbn. rewrite Hv. cbn. now eexists.
Qed.

End Ready.

(* ================================================================= *)
(** ** The parquet sink *)

Section Batches.
Context {collab : Collaborators}.

Lemma mapM_GetValue (cv : ColumnVector) (rows : list nat) :
  Forall (fun i => i < length cv) rows ->
  exists vs, mapM (GetValue cv) rows = Ok vs /\
             map Some vs = map (nth_error cv) rows.
Proof.
  induction 1 as [|i rows Hi _ (vs & Hvs & Heq)].
  - exists []. split; reflexivity.
  - destruct (GetValue_ok cv Hi) as (v & Hv & Hnth).
    exists (v :: vs). cbn. rewrite Hv. cbn. rewrite Hvs. cbn.
    split; [reflexivity|]. now rewrite Hnth, Heq.
Qed.

Lemma map_nth_seq {A B} (F : A -> B) (l : list A) (dflt : A) :
  map (fun i => F (nth i l dflt)) (seq 0 (length l)) = map F l.
Proof.
  induction l as [|a l IH]; [reflexivity|].
  cbn [length seq map nth]. f_equal.
  rewrite <- seq_shift, map_map. exact IH.
Qed.

Lemma batch_rows_spec (rows : list nat) (cvs : list ColumnVector)
      (arrays : list ArrowArray) :
  Forall2 (column_of_batch rows) cvs arrays ->
  batch_rows {| num_rows := length rows; block_arrays := arrays |}
  = map (fun idx => flat_map (fun cv => opt_list (nth_error cv idx)) cvs) rows.
Proof.
  intros H. unfold batch_rows. cbn [num_rows block_arrays].
  rewrite <- (map_nth_seq
                (fun idx => flat_map (fun cv => opt_list (nth_error cv idx)) cvs)
                rows 0).
  apply map_ext_in. intros i Hi. apply in_seq in Hi.
  induction H as [|cv a cvs arrays Hcol _ IH]; [reflexivity|].
  cbn [flat_map]. rewrite IH. f_equal.
  unfold column_of_batch in Hcol.
  assert (E : nth_error (map Some (array_values a)) i
              = nth_error (map (nth_error cv) rows) i) by now rewrite Hcol.
  rewrite !nth_error_map in E.
  rewrite (nth_error_nth' rows 0) in E by lia. cbn in E.
  destruct (nth_error (array_values a) i); cbn in E; [|discriminate].
  injection E as <-. reflexivity.
Qed.

End Batches.

Section ParquetSink.
Context {collab : Collaborators}.
Variable this : PhysicalExport.
Variable fields : list (string * ArrowType).

Section Block.
Variable column_vectors : list ColumnVector.
Variable filter : SegmentOffset -> bool.
Variable seg_off : SegmentOffset.

Local Abbreviation step := (driver_step (limit_ this) (row_limit_ this)).
Local Abbreviation pending := (pq_pending this).
Local Abbreviation rel := (pq_rel this).
Local Abbreviation values_at := (rowv column_vectors).
Local Abbreviation events_of := (block_events column_vectors filter seg_off).

Lemma run_full_S (count : nat) :
  run_full (row_limit_ this) (S count)
  = negb (row_limit_ this =? 0) && (S count mod row_limit_ this =? 0).
Proof. reflexivity. Qed.

Lemma emit_pending (st : ParquetState) (acc : list nat) (d : Driver (list Value))
      (r : nat) :
  pending st (map values_at acc) d ->
  d_done d = false ->
  (acc <> [] -> run_full (row_limit_ this) (d_count d) = false) ->
  (acc = [] -> switch_to_new_file st = run_full (row_limit_ this) (d_count d)) ->
  pending
    {| pq_offset := pq_offset st; pq_row_count := S (pq_row_count st);
       pq_file_no_ := pq_file_no_ st;
       switch_to_new_file := switch_to_new_file st;
       closed_writers := closed_writers st; file_writer := file_writer st |}
    (map values_at (acc ++ [r]))
    (driver_emit (limit_ this) (row_limit_ this) d (values_at r)).
Proof.
  intros [(Ho & Hc & Hn & Hp) Hch] Hd Hfull Hsw.
  unfold driver_emit. rewrite Hd. fold (run_full (row_limit_ this) (d_count d)).
  split.
  - unfold pq_base. cbn. rewrite Hc. repeat split; assumption.
  - cbn [d_closed d_current]. rewrite map_app. cbn [map].
    destruct acc as [|a acc].
    + cbn [map app] in *. unfold pq_chunks in *.
      cbn [switch_to_new_file closed_writers file_writer].
      rewrite <- (Hsw eq_refl). injection Hch as Hcl Hcur.
      destruct (switch_to_new_file st).
      * rewrite map_app, Hcl, Hcur. reflexivity.
      * rewrite Hcl, Hcur. reflexivity.
    + rewrite Hfull by discriminate.
      cbn [map app] in *. unfold pq_chunks in *.
      cbn [switch_to_new_file closed_writers file_writer].
      destruct (switch_to_new_file st); injection Hch as Hcl Hcur;
        rewrite Hcl, Hcur; [reflexivity|].
      rewrite <- app_assoc. reflexivity.
Qed.

Lemma collect_rows_sim (rows : list nat) :
  forall (acc : list nat) (st : ParquetState) (d : Driver (list Value)),
    pending st (map values_at acc) d ->
    d_done d = false ->
    (acc <> [] -> run_full (row_limit_ this) (d_count d) = false
                  /\ pq_row_count st <> limit_ this) ->
    (acc = [] -> switch_to_new_file st = run_full (row_limit_ this) (d_count d)) ->
    exists acc' need st' rest consumed,
      collect_rows this filter seg_off rows acc st = (acc', need, st', rest) /\
      rows = consumed ++ tl rest /\
      (rows <> [] -> consumed <> []) /\
      incl acc' (acc ++ consumed) /\
      pending st' (map values_at acc') (fold_left step (events_of consumed) d) /\
      (acc' = [] ->
         rest = [] /\
         d_done (fold_left step (events_of consumed) d) = false /\
         switch_to_new_file st'
         = run_full (row_limit_ this)
                    (d_count (fold_left step (events_of consumed) d))) /\
      (acc' <> [] ->
         need = run_full (row_limit_ this)
                         (d_count (fold_left step (events_of consumed) d)) /\
         (d_done (fold_left step (events_of consumed) d) = true
          <-> pq_row_count st' = limit_ this)).
Proof.
  induction rows as [|r rows IH]; intros acc st d Hpend Hd Hacc Hsw.
  - exists acc, false, st, [], []. cbn.
    split; [reflexivity|]. split; [reflexivity|]. split; [congruence|].
    split; [rewrite app_nil_r; apply incl_refl|].
    split; [exact Hpend|]. split.
    + intros E. auto.
    + intros E. destruct (Hacc E) as [Hf Hl]. split; [now rewrite Hf|].
      split; [congruence | intros; contradiction].
  - cbn [collect_rows].
    destruct (filter (seg_off + r)) eqn:Hvis; cbn [negb].
    2:{ (* not visible *)
      destruct (IH acc st d Hpend Hd Hacc Hsw)
        as (acc' & need & st' & rest & consumed & Hrun & Hrows & _ & Hincl & Hrest).
      exists acc', need, st', rest, (r :: consumed).
      split; [exact Hrun|]. split; [cbn; now rewrite <- Hrows|].
      split; [discriminate|].
      split; [intros x Hx; apply Hincl in Hx; apply in_app_iff in Hx;
              apply in_app_iff; destruct Hx; [now left | right; now right]|].
      assert (Hstep : step d (filter (seg_off + r), values_at r) = d)
        by (unfold driver_step; rewrite Hd, Hvis; reflexivity).
      cbn [block_events map fold_left]. rewrite Hstep. exact Hrest. }
    destruct Hpend as [Hbase Hch]. pose proof Hbase as (Ho & Hc & Hn & Hp).
    destruct (0 <? pq_offset st) eqn:Hoff.
    { (* skipped by the offset *)
      set (st1 := {| pq_offset := pq_offset st - 1; pq_row_count := pq_row_count st;
                     pq_file_no_ := pq_file_no_ st;
                     switch_to_new_file := switch_to_new_file st;
                     closed_writers := closed_writers st;
                     file_writer := file_writer st |}).
      set (d1 := {| d_offset := d_offset d - 1; d_count := d_count d;
                    d_closed := d_closed d; d_current := d_current d;
                    d_done := d_done d |}).
      assert (Hpend1 : pending st1 (map values_at acc) d1).
      { split.
        - unfold pq_base, st1, d1. cbn. rewrite Ho. repeat split; assumption.
        - exact Hch. }
      destruct (IH acc st1 d1 Hpend1 Hd Hacc Hsw)
        as (acc' & need & st' & rest & consumed & Hrun & Hrows & _ & Hincl & Hrest).
      exists acc', need, st', rest, (r :: consumed).
      split; [exact Hrun|]. split; [cbn; now rewrite <- Hrows|].
      split; [discriminate|].
      split; [intros x Hx; apply Hincl in Hx; apply in_app_iff in Hx;
              apply in_app_iff; destruct Hx; [now left | right; now right]|].
      assert (Hstep : step d (filter (seg_off + r), values_at r) = d1)
        by (unfold driver_step, d1; rewrite Hvis; cbn [fst negb];
            rewrite <- Ho, Hoff, Hd; reflexivity).
      cbn [block_events map fold_left]. rewrite Hstep. exact Hrest. }
    (* emitted *)
    set (st1 := {| pq_offset := pq_offset st; pq_row_count := S (pq_row_count st);
                   pq_file_no_ := pq_file_no_ st;
                   switch_to_new_file := switch_to_new_file st;
                   closed_writers := closed_writers st;
                   file_writer := file_writer st |}).
    set (d1 := driver_emit (limit_ this) (row_limit_ this) d (values_at r)).
    assert (Hstep : step d (filter (seg_off + r), values_at r) = d1).
    { unfold driver_step. rewrite Hd, Hvis, <- Ho, Hoff. reflexivity. }
    assert (Hpend1 : pending st1 (map values_at (acc ++ [r])) d1).
    { apply emit_pending; [split; assumption | exact Hd | | exact Hsw].
      intros E. apply Hacc. exact E. }
    assert (Hcount1 : d_count d1 = S (pq_row_count st)).
    { unfold d1, driver_emit. rewrite Hd. cbn. now rewrite Hc. }
    assert (Hdone1 : d_done d1 = true <-> S (pq_row_count st) = limit_ this).
    { unfold d1, driver_emit. rewrite Hd. cbn [d_done]. rewrite <- Hc.
      split; intros H.
      - apply andb_true_iff in H. destruct H as [_ H]. now apply Nat.eqb_eq in H.
      - apply andb_true_iff. split; [|now apply Nat.eqb_eq].
        apply negb_true_iff, Nat.eqb_neq. lia. }
    assert (Hnonempty : acc ++ [r] <> []) by (destruct acc; discriminate).
    change (pq_row_count st1) with (S (pq_row_count st)).
    destruct (negb (row_limit_ this =? 0) && (S (pq_row_count st) mod row_limit_ this =? 0))
      eqn:Hb.
    { exists (acc ++ [r]), true, st1, (r :: rows), [r].
      split; [reflexivity|]. split; [reflexivity|]. split; [discriminate|].
      split; [apply incl_refl|].
      cbn [block_events map fold_left]. rewrite Hstep.
      split; [exact Hpend1|]. split; [intros E; contradiction|].
      intros _. rewrite Hcount1, run_full_S, Hb. split; [reflexivity | exact Hdone1]. }
    destruct (S (pq_row_count st) =? limit_ this) eqn:Hl.
    { exists (acc ++ [r]), false, st1, (r :: rows), [r].
      split; [reflexivity|]. split; [reflexivity|]. split; [discriminate|].
      split; [apply incl_refl|].
      cbn [block_events map fold_left]. rewrite Hstep.
      split; [exact Hpend1|]. split; [intros E; contradiction|].
      intros _. rewrite Hcount1, run_full_S, Hb. split; [reflexivity | exact Hdone1]. }
    apply Nat.eqb_neq in Hl.
    assert (Hd1 : d_done d1 = false).
    { destruct (d_done d1); [|reflexivity]. exfalso. apply Hl, Hdone1. reflexivity. }
    destruct (IH (acc ++ [r]) st1 d1 Hpend1 Hd1)
      as (acc' & need & st' & rest & consumed & Hrun & Hrows & _ & Hincl & Hrest).
    { intros _. rewrite Hcount1, run_full_S, Hb. split; [reflexivity | exact Hl]. }
    { intros E. contradiction. }
    exists acc', need, st', rest, (r :: consumed).
    split; [exact Hrun|]. split; [cbn; now rewrite <- Hrows|].
    split; [discriminate|].
    split; [intros x Hx; apply Hincl in Hx; rewrite <- app_assoc in Hx; exact Hx|].
    cbn [block_events map fold_left]. rewrite Hstep. exact Hrest.
Qed.


Variable n : nat.
Local Abbreviation ready := (columns_ready this column_vectors n).

Lemma build_arrays (acc : list nat) :
  ready -> Forall (fun i => i < n) acc ->
  exists arrays,
    mapM (fun '(select_column_idx, column_vector) =>
            column_def <- index (column_defs this) select_column_idx ;;
            BuildArrowArray column_def column_vector acc)
         (combine (select_columns this) column_vectors) = Ok arrays /\
    Forall2 (column_of_batch acc) column_vectors arrays.
Proof.
  unfold columns_ready. intros H Hacc.
  induction H as [|c cv cols cvs [(cd & Hcd & Hlow) Hlen] _ (arrays & Harr & Hcols)].
  - exists []. split; [reflexivity | constructor].
  - destruct (@mapM_GetValue _ cv acc) as (vs & Hvs & Heq).
    { eapply Forall_impl; [|exact Hacc]. cbn. intros. lia. }
    unfold lowers in Hlow.
    destruct (GetArrowType cd); [|discriminate].
    destruct (MakeArrayBuilder cd) as [b|] eqn:Hb; [|discriminate].
    exists ({| array_builder := b; array_values := vs |} :: arrays).
    cbn [combine mapM]. rewrite Hcd. cbn [bind]. unfold BuildArrowArray in *.
    rewrite Hb. cbn [bind]. rewrite Hvs. cbn [bind]. rewrite Harr. cbn [bind].
    split; [reflexivity|]. constructor; [exact Heq | exact Hcols].
Qed.

Lemma write_batch_sim (acc : list nat) (need : bool) (st : ParquetState)
      (d : Driver (list Value)) :
  acc <> [] -> ready -> Forall (fun i => i < n) acc ->
  pending st (map values_at acc) d ->
  need = run_full (row_limit_ this) (d_count d) ->
  exists st',
    write_batch this fields column_vectors acc need st = Ok st' /\
    rel st' d /\ pq_row_count st' = pq_row_count st.
Proof.
  intros Hne Hready Hacc [(Ho & Hc & Hn & Hp) Hch] Hneed.
  destruct (build_arrays Hready Hacc) as (arrays & Harr & Hcols).
  unfold write_batch. rewrite Harr. cbn [bind].
  eexists. split; [reflexivity|].
  pose proof (batch_rows_spec Hcols) as Hbatch. fold (rowv column_vectors) in Hbatch.
  assert (Hch' : (d_closed d, d_current d)
                 = if switch_to_new_file st
                   then (map parquet_rows (closed_writers st ++ [file_writer st]),
                         map values_at acc)
                   else (map parquet_rows (closed_writers st),
                         parquet_rows (file_writer st) ++ map values_at acc)).
  { destruct acc; [contradiction | exact Hch]. }
  clear Hch.
  destruct (switch_to_new_file st); injection Hch' as Hcl Hcur.
  - split; [|reflexivity]. split; [split|exact Hneed].
    + unfold pq_base. cbn -[seq export_path part_path].
      rewrite !length_app. cbn [length]. rewrite Nat.add_1_r.
      split; [exact Ho|]. split; [exact Hc|]. split; [now rewrite Hn|].
      rewrite (seq_S (S _)), !map_app, <- map_app, Hp. cbn [map output_file_path].
      rewrite Hn. reflexivity.
    + unfold pq_chunks. cbn [closed_writers file_writer open_next_writer].
      rewrite Hcl, Hcur. f_equal.
      unfold parquet_rows. cbn [record_batches app flat_map].
      rewrite app_nil_r. symmetry. exact Hbatch.
  - split; [|reflexivity]. split; [split|exact Hneed].
    + unfold pq_base. cbn -[seq export_path part_path].
      split; [exact Ho|]. split; [exact Hc|]. split; [exact Hn|].
      rewrite map_app in *. exact Hp.
    + unfold pq_chunks. cbn [closed_writers file_writer].
      rewrite Hcl, Hcur. f_equal.
      unfold parquet_rows. cbn [record_batches].
      rewrite flat_map_app. cbn [flat_map]. rewrite app_nil_r.
      f_equal. symmetry. exact Hbatch.
Qed.

Lemma consume_loop_nil (fuel : nat) (st : ParquetState) :
  consume_loop this fields column_vectors filter seg_off fuel [] st = Ok (true, st).
Proof. destruct fuel; reflexivity. Qed.

Lemma consume_loop_sim (fuel : nat) :
  ready ->
  forall (rows : list nat) (st : ParquetState) (d : Driver (list Value)),
    length rows <= fuel ->
    Forall (fun i => i < n) rows ->
    rel st d -> d_done d = false ->
    exists go st',
      consume_loop this fields column_vectors filter seg_off fuel rows st
      = Ok (go, st') /\
      rel st' (fold_left step (events_of rows) d) /\
      (go = false <-> d_done (fold_left step (events_of rows) d) = true).
Proof.
  intros Hready. induction fuel as [|fuel IH]; intros rows st d Hlen Hrows Hrel Hd.
  - destruct rows; [|cbn in Hlen; lia].
    exists true, st. cbn. repeat split; try apply Hrel; congruence.
  - destruct rows as [|r rows].
    { exists true, st. cbn. repeat split; try apply Hrel; congruence. }
    destruct Hrel as [Hpend Hsw].
    destruct (@collect_rows_sim (r :: rows) [] st d Hpend Hd)
      as (acc' & need & st1 & rest & consumed & Hrun & Hsplit & Hcons & Hincl
          & Hpend1 & Hempty & Hfull).
    { intros E. contradiction. }
    { intros _. exact Hsw. }
    cbn [consume_loop]. rewrite Hrun.
    assert (Hshort : length (tl rest) <= fuel).
    { specialize (Hcons ltac:(discriminate)).
      assert (length (r :: rows) = length consumed + length (tl rest))
        by (rewrite Hsplit at 1; apply length_app).
      destruct consumed; [contradiction|]. cbn in *. lia. }
    assert (Htl : Forall (fun i => i < n) (tl rest)).
    { rewrite Hsplit in Hrows. apply Forall_app in Hrows. tauto. }
    assert (Hev : events_of (r :: rows)
                  = events_of consumed ++ events_of (tl rest)).
    { unfold block_events. rewrite <- map_app, <- Hsplit. reflexivity. }
    rewrite Hev, fold_left_app.
    set (d1 := fold_left step (events_of consumed) d) in *.
    destruct acc' as [|a acc'].
    + destruct (Hempty eq_refl) as (Hrest & Hd1 & Hsw1).
      rewrite Hrest in *. cbn [tl block_events map fold_left].
      rewrite consume_loop_nil.
      exists true, st1. split; [reflexivity|].
      split; [split; assumption | split; congruence].
    + destruct (Hfull ltac:(discriminate)) as [Hneed Hdone].
      destruct (@write_batch_sim (a :: acc') need st1 d1) as (st2 & Hw & Hrel2 & Hrc);
        try assumption; try discriminate.
      { cbn [app] in Hincl. rewrite Hsplit in Hrows. apply Forall_app in Hrows.
        apply Forall_forall. intros x Hx. apply Hincl in Hx.
        destruct Hrows as [Hrows _]. rewrite Forall_forall in Hrows. auto. }
      rewrite Hw. cbn [bind]. rewrite Hrc.
      destruct (pq_row_count st1 =? limit_ this) eqn:Hl.
      * apply Nat.eqb_eq in Hl. apply Hdone in Hl.
        rewrite driver_run_done by exact Hl.
        exists false, st2. split; [reflexivity|]. split; [exact Hrel2|].
        split; auto.
      * apply Nat.eqb_neq in Hl.
        assert (Hd1 : d_done d1 = false).
        { destruct (d_done d1); [|reflexivity]. exfalso. apply Hl, Hdone. reflexivity. }
        apply IH; assumption.
Qed.

End Block.
End ParquetSink.

Section ParquetExport.
Context {collab : Collaborators}.
Variable this : PhysicalExport.
Variable fields : list (string * ArrowType).

Lemma Forall2_and_left {A B} (Q : A -> Prop) (R : B -> Prop) l l' :
  Forall Q l -> Forall2 (fun _ y => R y) l l' ->
  Forall2 (fun x y => Q x /\ R y) l l'.
Proof.
  intros HQ H. induction H; constructor.
  - split; [now inversion HQ | assumption].
  - apply IHForall2. now inversion HQ.
Qed.

Lemma parquet_block_simulates (segment_id : SegmentID)
      (filter : SegmentOffset -> bool) (b : BlockEntry) :
  forallb (column_lowers this) (select_columns this) = true ->
  forallb (column_sized b) (select_columns this) = true ->
  simulates (limit_ this) (row_limit_ this) (pq_rel this)
            (parquet_block this fields segment_id filter)
            (fun b => map (row_event (row_values this))
                          (block_scan segment_id filter b))
            b.
Proof.
  intros Hlow Hsized st d Hrel Hd.
  destruct (materialize_sized _ segment_id _ Hsized) as (cvs & Hm & Hsz).
  assert (Hready : columns_ready this cvs (block_row_count b)).
  { unfold columns_ready. apply Forall2_and_left; [|exact Hsz].
    apply Forall_forall. intros c Hc. rewrite forallb_forall in Hlow.
    specialize (Hlow c Hc). unfold column_lowers in Hlow.
    destruct (index (column_defs this) c) as [cd|]; [|discriminate].
    now exists cd. }
  destruct (@consume_loop_sim _ this fields cvs filter (segment_offset b)
              (block_row_count b) (block_row_count b) Hready
              (seq 0 (block_row_count b)) st d)
    as (go & st' & Hrun & Hrel' & Hgo); try assumption.
  { rewrite length_seq. lia. }
  { apply Forall_forall. intros i Hi. apply in_seq in Hi. lia. }
  assert (Hev : map (row_event (row_values this)) (block_scan segment_id filter b)
                = block_events cvs filter (segment_offset b)
                               (seq 0 (block_row_count b))).
  { unfold block_scan, block_events. rewrite map_map. apply map_ext. intros i.
    unfold row_event, row_visible, row_values. cbn. rewrite Hm. reflexivity. }
  rewrite Hev.
  unfold parquet_block, consume_block. rewrite Hm. cbn [bind]. rewrite Hrun.
  cbn [bind]. destruct go.
  - exists Next, st'. split; [reflexivity|]. split; [exact Hrel'|].
    split; [discriminate|]. intros H. apply Hgo in H. discriminate.
  - exists GotoReturn, st'. split; [reflexivity|]. split; [exact Hrel'|].
    split; [intros _; now apply Hgo | reflexivity].
Qed.

Lemma parquet_segment_simulates (segment : SegmentID * SegmentSnapshot) :
  forallb (column_lowers this) (select_columns this) = true ->
  (forall b, In b (block_map_ (snd segment)) ->
             forallb (column_sized b) (select_columns this) = true) ->
  simulates (limit_ this) (row_limit_ this) (pq_rel this)
            (parquet_segment this fields)
            (fun sg => map (row_event (row_values this)) (segment_scan sg))
            segment.
Proof.
  intros Hlow Hsized st d HR Hd. destruct segment as [segment_id segment_snapshot].
  cbn [parquet_segment fst snd] in *.
  assert (Hblocks : Forall
            (simulates (limit_ this) (row_limit_ this) (pq_rel this)
               (parquet_block this fields segment_id (visible segment_snapshot))
               (fun b => map (row_event (row_values this))
                             (block_scan segment_id (visible segment_snapshot) b)))
            (block_map_ segment_snapshot)).
  { apply Forall_forall. intros b Hb. apply parquet_block_simulates; auto. }
  pose proof (for_each_simulates Hblocks st d HR Hd) as Hsim.
  unfold segment_scan. cbn [fst snd]. rewrite map_flat_map. exact Hsim.
Qed.

End ParquetExport.

Section ParquetTop.
Context {collab : Collaborators}.
Variable this : PhysicalExport.

Lemma schema_fields_ok :
  forallb (column_lowers this) (select_columns this) = true ->
  exists fields, schema_fields this = Ok fields.
Proof.
  intros H. unfold schema_fields.
  destruct (@mapM_ok _ _
              (fun column_id =>
                 column_def <- index (column_defs this) column_id ;;
                 arrow_type <- GetArrowType column_def ;;
                 Ok (name column_def, arrow_type))
              (fun _ _ => True) (select_columns this)) as (fs & Hfs & _).
  - intros c Hc. rewrite forallb_forall in H. specialize (H c Hc).
    unfold column_lowers, lowers in H.
    destruct (index (column_defs this) c) as [cd|]; [|discriminate].
    cbn [bind]. destruct (GetArrowType cd); [|discriminate].
    cbn [bind]. eexists. split; [reflexivity | exact I].
  - now exists fs.
Qed.

(** [ExportToPARQUET] writes the expected rows, [row_limit_] to a
    file. *)
Lemma parquet_spec :
  parquet_exportable this = true ->
  exists files,
    ExportToPARQUET this = Ok (length (exported_rows this), files) /\
    map output_file_path files
    = map (export_path (file_path_ this)) (seq 0 (length files)) /\
    split_every (row_limit_ this) (map (row_values this) (exported_rows this))
                (map parquet_rows files).
Proof.
  intros H. apply andb_true_iff in H. destruct H as [Hlow Hsized].
  destruct (schema_fields_ok Hlow) as [fields Hfields].
  unfold ExportToPARQUET. rewrite Hfields. cbn [bind].
  set (st0 := {| pq_offset := offset_ this; pq_row_count := 0; pq_file_no_ := 0;
                 switch_to_new_file := false; closed_writers := [];
                 file_writer := {| output_file_path := file_path_ this;
                                   schema := fields; record_batches := [] |} |}).
  assert (HR0 : pq_rel this st0 (driver_init (list Value) (offset_ this))).
  { repeat split. }
  assert (Hsegs : Forall
            (simulates (limit_ this) (row_limit_ this) (pq_rel this)
               (parquet_segment this fields)
               (fun sg => map (row_event (row_values this)) (segment_scan sg)))
            (block_index_ this)).
  { apply Forall_forall. intros sg Hsg. apply parquet_segment_simulates; [exact Hlow|].
    intros b Hb. unfold blocks_sized in Hsized. rewrite forallb_forall in Hsized.
    apply Hsized. eapply in_all_blocks; eassumption. }
  destruct (for_each_simulates Hsegs st0 _ HR0 eq_refl) as (c & st & Hrun & HR & _).
  rewrite <- map_flat_map in HR. fold (scan_order this) in HR.
  set (events := map (row_event (row_values this)) (scan_order this)) in HR.
  pose proof (driver_run_spec (limit_ this) (row_limit_ this) events (offset_ this))
    as [Hcount Hsplit].
  cbv zeta in Hcount, Hsplit.
  set (d := fold_left (driver_step (limit_ this) (row_limit_ this)) events
                      (driver_init (list Value) (offset_ this))) in *.
  assert (HE : take_limit (limit_ this) (skipn (offset_ this) (payloads events))
               = map (row_values this) (exported_rows this)).
  { unfold events, row_event. rewrite payloads_map, skipn_map, take_limit_map.
    reflexivity. }
  rewrite HE in Hcount, Hsplit. rewrite length_map in Hcount.
  destruct HR as [[(_ & Hrc & _ & Hpaths) Hch] _].
  unfold pq_chunks in Hch. injection Hch as Hcl Hcur.
  rewrite Hrun. cbn [bind]. rewrite Hrc, Hcount.
  eexists. split; [reflexivity|]. split.
  - rewrite length_app. cbn [length]. rewrite Nat.add_1_r. exact Hpaths.
  - rewrite map_app. cbn [map]. rewrite <- Hcl, <- Hcur. exact Hsplit.
Qed.

End ParquetTop.

(* ================================================================= *)
(** ** The fuel of [consume_loop] is enough *)

Section Fuel.
Context {collab : Collaborators}.

Lemma mapM_fault {A B} (f : A -> Result B) (l : list A) (e : Fault) :
  mapM f l = Raise e -> exists x, In x l /\ f x = Raise e.
Proof.
  induction l as [|a l IH]; cbn [mapM]; [discriminate|].
  destruct (f a) as [b|e'] eqn:Ha; cbn [bind].
  - destruct (mapM f l) as [ys|e'']; cbn [bind]; [discriminate|].
    intros H. injection H as ->. destruct (IH eq_refl) as (x & Hx & Hf).
    exists x. split; [now right | exact Hf].
  - intros H. injection H as ->. exists a. split; [now left | exact Ha].
Qed.

Lemma index_fault {A} (v : list A) (i : ColumnID) (e : Fault) :
  index v i = Raise e -> e = OutOfBounds.
Proof.
  unfold index. destruct (i <? N.of_nat (length v))%N; [|congruence].
  destruct (nth_error v (N.to_nat i)); congruence.
Qed.

Lemma GetValue_fault (cv : ColumnVector) (i : nat) (e : Fault) :
  GetValue cv i = Raise e -> e = OutOfBounds.
Proof. unfold GetValue. destruct (nth_error cv i); congruence. Qed.

Lemma MakeArrayBuilder_fault (column_def : ColumnDef) :
  MakeArrayBuilder column_def <> Raise LoopFuelExhausted.
Proof.
  destruct column_def as [n [t info]]. unfold MakeArrayBuilder.
  cbn [column_type type].
  destruct t; try discriminate;
    unfold as_SparseInfo, as_EmbeddingInfo; cbn [type_info];
    destruct info as [|e d|e i d]; cbn [bind]; try discriminate.
  all: try (destruct e; cbn [embedding_element_builder bind]; discriminate).
  destruct i; cbn [sparse_index_builder bind]; try discriminate;
    destruct e; cbn [sparse_value_builder deref_type bind]; discriminate.
Qed.

Lemma write_batch_fault (this : PhysicalExport) fields column_vectors
      (rows : list nat) (need : bool) (st : ParquetState) :
  write_batch this fields column_vectors rows need st <> Raise LoopFuelExhausted.
Proof.
  unfold write_batch.
  match goal with
  | |- context [mapM ?f ?l] => destruct (mapM f l) as [arrays|e] eqn:E
  end; cbn [bind]; [discriminate|].
  intros H. injection H as ->.
  apply mapM_fault in E. destruct E as ([c cv] & _ & E).
  destruct (index (column_defs this) c) as [cd|e] eqn:Hi; cbn [bind] in E.
  - unfold BuildArrowArray in E.
    destruct (MakeArrayBuilder cd) as [b|e] eqn:Hb; cbn [bind] in E.
    + destruct (mapM (GetValue cv) rows) as [vs|e] eqn:Hv; cbn [bind] in E;
        [discriminate|].
      injection E as ->. apply mapM_fault in Hv. destruct Hv as (i & _ & Hv).
      apply GetValue_fault in Hv. discriminate.
    + injection E as ->. exact (MakeArrayBuilder_fault cd Hb).
  - injection E as ->. apply index_fault in Hi. discriminate.
Qed.

Lemma collect_rows_rest (this : PhysicalExport) filter seg_off (rows : list nat) :
  forall acc st,
    length (snd (collect_rows this filter seg_off rows acc st)) <= length rows.
Proof.
  induction rows as [|r rows IH]; intros acc st; cbn [collect_rows].
  - cbn. lia.
  - destruct (negb (filter (seg_off + r))); [cbn [length]; rewrite IH; lia|].
    destruct (0 <? pq_offset st); [cbn [length]; rewrite IH; lia|].
    match goal with
    | |- context [if ?b then _ else _] => destruct b; [cbn; lia|]
    end.
    match goal with
    | |- context [if ?b then _ else _] => destruct b; [cbn; lia|]
    end.
    cbn [length]. rewrite IH. lia.
Qed.

(** [consume_block] never runs out of fuel. *)
Lemma consume_loop_fuel (this : PhysicalExport) fields column_vectors filter seg_off
      (fuel : nat) :
  forall (rows : list nat) (st : ParquetState),
    length rows <= fuel ->
    consume_loop this fields column_vectors filter seg_off fuel rows st
    <> Raise LoopFuelExhausted.
Proof.
  induction fuel as [|fuel IH]; intros rows st Hlen.
  - destruct rows; [discriminate | cbn in Hlen; lia].
  - destruct rows as [|r rows]; [discriminate|].
    cbn [consume_loop].
    pose proof (collect_rows_rest this filter seg_off (r :: rows) [] st) as Hrest.
    destruct (collect_rows this filter seg_off (r :: rows) [] st)
      as [[[acc need] st1] rest].
    cbn [snd] in Hrest.
    assert (Htl : length (tl rest) <= fuel).
    { destruct rest; cbn in *; lia. }
    destruct acc as [|a acc]; [apply IH; exact Htl|].
    destruct (write_batch this fields column_vectors (a :: acc) need st1)
      as [st2|e] eqn:Hw; cbn [bind].
    + destruct (pq_row_count st2 =? limit_ this); [discriminate|].
      apply IH. exact Htl.
    + intros H. injection H as ->. exact (write_batch_fault _ _ _ _ _ _ Hw).
Qed.

End Fuel.

(* ================================================================= *)
(** ** What the exports return *)

Section Outcomes.
Context {collab : Collaborators}.
Variable this : PhysicalExport.



Lemma exported_rows_scanned (r : RowRef) :
  In r (exported_rows this) -> In r (scan_order this).
Proof.
  unfold exported_rows, take_limit, visible_rows. intros H.
  assert (H' : In r (skipn (offset_ this) (filter row_visible (scan_order this)))).
  { destruct (limit_ this =? 0); [exact H|].
    rewrite <- (firstn_skipn (limit_ this)). apply in_or_app. now left. }
  assert (H'' : In r (filter row_visible (scan_order this))).
  { rewrite <- (firstn_skipn (offset_ this)). apply in_or_app. now right. }
  apply filter_In in H''. tauto.
Qed.

Lemma exported_lines (row : RowRef -> Result (list byte)) :
  (forall r, In r (scan_order this) -> row r = Ok (unwrap (row r))) ->
  Forall2 (fun r line => row r = Ok line) (exported_rows this)
          (map (fun r => unwrap (row r)) (exported_rows this)).
Proof.
  intros H.
  assert (Hall : Forall (fun r => row r = Ok (unwrap (row r))) (exported_rows this)).
  { apply Forall_forall. intros r Hr. apply H, exported_rows_scanned, Hr. }
  induction Hall; cbn; constructor; assumption.
Qed.

(** A text sink with ready blocks: the rows it returns, the lines it
    writes and the files that receive them. *)
Lemma text_sink_spec
      (materialize_block : SegmentID -> BlockEntry -> Result (list ColumnVector))
      (serialize : list ColumnVector -> nat -> Result (list byte))
      (head : list byte) :
  snapshot_ready this materialize_block serialize ->
  exists lines chunks,
    Forall2 (fun r line => row_bytes materialize_block serialize r = Ok line)
            (exported_rows this) lines /\
    scan this materialize_block serialize head
    = Ok (length (exported_rows this),
          text_files (file_path_ this) head chunks) /\
    split_every (row_limit_ this) lines chunks.
Proof.
  intros Hready.
  destruct (scan_spec head Hready) as (chunks & Hscan & Hsplit).
  exists (map (text_payload materialize_block serialize) (exported_rows this)), chunks.
  split; [|split; assumption].
  apply exported_lines with (row := row_bytes materialize_block serialize).
  intros r Hr. apply (rows_ready Hready). exact Hr.
Qed.

Lemma ExportToCSV_spec :
  text_exportable this = true ->
  exists header lines chunks,
    (if header_ this
     then exists text, csv_header this (select_columns this) = Ok text
                       /\ header = bytes text
     else header = []) /\
    Forall2 (fun r line => csv_row this r = Ok line) (exported_rows this) lines /\
    ExportToCSV this
    = Ok (length (exported_rows this),
          text_files (file_path_ this) header chunks) /\
    split_every (row_limit_ this) lines chunks.
Proof.
  intros H. pose proof (csv_ready this H) as Hready.
  apply andb_true_iff in H. destruct H as [Hknown _].
  unfold ExportToCSV.
  destruct (header_ this).
  - destruct (csv_header_ok this _ Hknown) as [text Htext].
    rewrite Htext. cbn [bind].
    destruct (text_sink_spec (bytes text) Hready) as (lines & chunks & Hl & Hs & Hc).
    exists (bytes text), lines, chunks.
    split; [now exists text|]. split; [exact Hl|]. split; [exact Hs | exact Hc].
  - cbn [bind].
    destruct (text_sink_spec [] Hready) as (lines & chunks & Hl & Hs & Hc).
    exists [], lines, chunks.
    split; [reflexivity|]. split; [exact Hl|]. split; [exact Hs | exact Hc].
Qed.

Lemma ExportToJSONL_spec :
  text_exportable this = true ->
  exists lines chunks,
    Forall2 (fun r line => jsonl_row this r = Ok line) (exported_rows this) lines /\
    ExportToJSONL this
    = Ok (length (exported_rows this), text_files (file_path_ this) [] chunks) /\
    split_every (row_limit_ this) lines chunks.
Proof.
  intros H. pose proof (jsonl_ready this H) as Hready.
  exact (text_sink_spec [] Hready).
Qed.

Lemma fvecs_exportable_check :
  fvecs_exportable this = true ->
  exists exported_column_idx dimension,
    fvecs_check this = Ok (exported_column_idx, dimension).
Proof.
  unfold fvecs_exportable. destruct (fvecs_check this) as [[c dim]|]; [|discriminate].
  intros _. now exists c, dim.
Qed.

Lemma ExportToFVECS_spec :
  fvecs_exportable this = true ->
  exists exported_column_idx dimension lines chunks,
    fvecs_check this = Ok (exported_column_idx, dimension) /\
    Forall2 (fun r line => fvecs_row exported_column_idx dimension r = Ok line)
            (exported_rows this) lines /\
    ExportToFVECS this
    = Ok (length (exported_rows this), text_files (file_path_ this) [] chunks) /\
    split_every (row_limit_ this) lines chunks.
Proof.
  intros H. destruct (fvecs_exportable_check H) as (c & dim & Hcheck).
  pose proof (fvecs_ready this Hcheck H) as Hready.
  destruct (text_sink_spec [] Hready) as (lines & chunks & Hl & Hs & Hc).
  exists c, dim, lines, chunks. split; [exact Hcheck|]. split; [exact Hl|].
  split; [|exact Hc]. unfold ExportToFVECS. rewrite Hcheck. exact Hs.
Qed.

(** [Execute] reports the row count of the sink it dispatches to. *)
Lemma Execute_reports (n : nat) :
  match file_type_ this with
  | kCSV => exists files, ExportToCSV this = Ok (n, files)
  | kJSONL => exists files, ExportToJSONL this = Ok (n, files)
  | kFVECS => exists files, ExportToFVECS this = Ok (n, files)
  | kPARQUET => exists files, ExportToPARQUET this = Ok (n, files)
  | kOther => False
  end ->
  Execute this = Ok (n, ("EXPORT " ++ decimal n ++ " Rows")%string).
Proof.
  unfold Execute. destruct (file_type_ this); intros H; try contradiction;
    destruct H as [files ->]; reflexivity.
Qed.

End Outcomes.

(* ================================================================= *)
(** ** Runs and files *)

Section SplitFacts.
Variable A : Type.
Variable k : nat.
Variable rows : list A.
Variable chunks : list (list A).
Hypothesis Hsplit : split_every k rows chunks.

Lemma split_every_nonempty : 1 <= length chunks.
Proof.
  destruct Hsplit as (_ & Hlen & _). rewrite Hlen.
  destruct (k =? 0); lia.
Qed.

Lemma split_every_whole : flat_map (fun c => c) chunks = rows.
Proof.
  destruct Hsplit as (Hcat & _). rewrite flat_map_concat_map, map_id. exact Hcat.
Qed.

Lemma split_every_count :
  0 < k -> 0 < length rows -> length chunks = ceil_div (length rows) k.
Proof.
  intros Hk Hn. destruct Hsplit as (_ & Hlen & _). rewrite Hlen.
  destruct (k =? 0) eqn:K; [apply Nat.eqb_eq in K; lia|].
  assert (1 <= ceil_div (length rows) k); [|lia].
  unfold ceil_div. apply Nat.div_le_lower_bound; lia.
Qed.

Lemma ceil_div_covers (i : nat) :
  0 < k -> i < ceil_div (length rows) k -> i * k < length rows.
Proof.
  intros Hk Hi. unfold ceil_div in Hi.
  pose proof (Nat.Div0.mul_div_le (length rows + k - 1) k) as Hle.
  nia.
Qed.

Lemma split_every_full (i : nat) :
  0 < k -> S i < length chunks -> length (nth i chunks []) = k.
Proof.
  intros Hk Hi. destruct Hsplit as (_ & Hlen & Hnth).
  rewrite Hnth by lia.
  destruct (k =? 0) eqn:K; [apply Nat.eqb_eq in K; lia|].
  rewrite Hlen in Hi. rewrite ?K in Hi.
  assert (Hc : S i < ceil_div (length rows) k) by lia.
  apply ceil_div_covers in Hc; [|exact Hk].
  rewrite length_firstn, length_skipn. cbn in Hc. lia.
Qed.

Lemma split_every_parts (i : nat) :
  0 < i < length chunks -> nth i chunks [] <> [].
Proof.
  intros [Hpos Hi]. destruct Hsplit as (_ & Hlen & Hnth).
  rewrite Hnth by lia. rewrite Hlen in Hi.
  destruct (k =? 0) eqn:K; [lia|]. rewrite ?K in Hi. apply Nat.eqb_neq in K.
  assert (Hc : i < ceil_div (length rows) k) by lia.
  apply ceil_div_covers in Hc; [|lia].
  intros E. apply (f_equal (@length A)) in E.
  rewrite length_firstn, length_skipn in E. cbn in E. lia.
Qed.

Lemma split_every_first :
  nth 0 chunks [] = if k =? 0 then rows else firstn k rows.
Proof.
  destruct Hsplit as (_ & _ & Hnth). rewrite Hnth by apply split_every_nonempty.
  reflexivity.
Qed.

End SplitFacts.

Section TextFiles.
Variable p : string.
Variable head : list byte.

Lemma text_files_length (chunks : list (list (list byte))) :
  length (text_files p head chunks) = length chunks.
Proof.
  unfold text_files. rewrite length_map, length_combine, length_seq.
  apply Nat.min_id.
Qed.

Lemma text_files_nth (chunks : list (list (list byte))) (i : nat) (f : File) :
  nth_error (text_files p head chunks) i = Some f ->
  path f = export_path p i /\
  content f = (if i =? 0 then head else []) ++ concat (nth i chunks []).
Proof.
  induction chunks as [|c chunks IH] using rev_ind; intros H.
  - destruct i; discriminate.
  - rewrite text_files_snoc in H.
    assert (Hi : i < length (text_files p head (chunks ++ [c]))).
    { apply nth_error_Some. rewrite text_files_snoc. congruence. }
    rewrite text_files_length, length_app in Hi. cbn in Hi.
    destruct (Nat.eq_dec i (length chunks)) as [->|Hne].
    + rewrite nth_error_app2 in H by (rewrite text_files_length; lia).
      rewrite text_files_length, Nat.sub_diag in H. cbn in H.
      injection H as <-. cbn [path content].
      rewrite app_nth2, Nat.sub_diag by lia. split; reflexivity.
    + rewrite nth_error_app1 in H by (rewrite text_files_length; lia).
      rewrite app_nth1 by lia. apply IH. exact H.
Qed.

Lemma text_files_paths (chunks : list (list (list byte))) :
  map path (text_files p head chunks)
  = map (export_path p) (seq 0 (length chunks)).
Proof.
  induction chunks as [|c chunks IH] using rev_ind; [reflexivity|].
  rewrite text_files_snoc, map_app, IH, length_app. cbn [length map path].
  rewrite Nat.add_1_r, seq_S, map_app. reflexivity.
Qed.

Lemma text_files_content (chunks : list (list (list byte))) :
  chunks <> [] ->
  concat (map content (text_files p head chunks)) = head ++ concat (concat chunks).
Proof.
  induction chunks as [|c chunks IH] using rev_ind; [congruence|]. intros _.
  rewrite text_files_snoc, map_app, !concat_app. cbn [map content concat].
  rewrite !app_nil_r.
  destruct chunks as [|c0 chunks]; [reflexivity|].
  rewrite IH by discriminate. cbn [length Nat.eqb app].
  rewrite <- app_assoc. reflexivity.
Qed.

End TextFiles.

Lemma split_every_files {A} (file_path : string) (k : nat) (rows : list A)
      (paths : list string) (chunks : list (list A)) :
  split_every k rows chunks ->
  paths = map (export_path file_path) (seq 0 (length chunks)) ->
  files_split file_path k rows paths chunks.
Proof.
  intros Hs Hp. split; [exact Hp|].
  split; [apply Hs|]. split.
  { destruct (k =? 0) eqn:K; cbn [orb].
    - destruct Hs as (_ & Hlen & _). now rewrite K in Hlen.
    - apply Nat.eqb_neq in K. destruct (length rows =? 0) eqn:N.
      + apply Nat.eqb_eq in N. destruct Hs as (_ & Hlen & _).
        rewrite Hlen, N. apply Nat.eqb_neq in K. rewrite K.
        rewrite ceil_div_0 by (apply Nat.eqb_neq in K; lia). reflexivity.
      + apply Nat.eqb_neq in N. apply (split_every_count Hs); lia. }
  split; [apply Hs|].
  split; [intros Hk i; apply (split_every_full Hs); exact Hk|].
  apply (split_every_parts Hs).
Qed.

Lemma headless_contents (chunks : list (list (list byte))) (s : nat) :
  map (fun ic : nat * list (list byte) =>
         (if fst ic =? 0 then [] else []) ++ concat (snd ic))
      (combine (seq s (length chunks)) chunks)
  = map (@concat byte) chunks.
Proof.
  revert s. induction chunks as [|c chunks IH]; intros s; [reflexivity|].
  cbn [length seq combine map fst snd]. rewrite IH.
  destruct (s =? 0); reflexivity.
Qed.

(* ================================================================= *)
(** ** Bytes and text *)

Lemma byte_of_N_value (n : N) : Byte.to_N (byte_of_N n) = (n mod 256)%N.
Proof.
  unfold byte_of_N.
  destruct (Byte.of_N (n mod 256)) as [b|] eqn:E.
  - apply Byte.to_of_N. exact E.
  - apply Byte.of_N_None_iff in E.
    pose proof (N.mod_upper_bound n 256). lia.
Qed.

Lemma i32_bytes_little_endian (n : N) :
  length (i32_bytes n) = 4 /\ le_value (i32_bytes n) = (n mod 2 ^ 32)%N.
Proof.
  split; [reflexivity|].
  unfold i32_bytes, le_value. cbn [fold_right].
  rewrite !byte_of_N_value.
  set (w := (n mod 2 ^ 32)%N).
  assert (Hw : (w < 2 ^ 32)%N) by (apply N.mod_upper_bound; discriminate).
  change (2 ^ 8)%N with 256%N. change (2 ^ 16)%N with (256 * 256)%N.
  change (2 ^ 24)%N with (256 * 256 * 256)%N.
  rewrite <- !N.Div0.div_div.
  set (a := (w / 256)%N). set (b := (a / 256)%N). set (c := (b / 256)%N).
  pose proof (N.div_mod w 256 ltac:(discriminate)) as H0. fold a in H0.
  pose proof (N.div_mod a 256 ltac:(discriminate)) as H1. fold b in H1.
  pose proof (N.div_mod b 256 ltac:(discriminate)) as H2. fold c in H2.
  assert (Hc : (c < 256)%N).
  { unfold c, b, a. rewrite !N.Div0.div_div.
    apply N.Div0.div_lt_upper_bound. exact Hw. }
  rewrite (N.mod_small c 256) by exact Hc.
  generalize dependent (w mod 256)%N. generalize dependent (a mod 256)%N.
  generalize dependent (b mod 256)%N. intros. lia.
Qed.

Lemma append_empty_r (s : string) : (s ++ "")%string = s.
Proof. induction s; cbn; congruence. Qed.

Lemma append_assoc (a b c : string) : ((a ++ b) ++ c = a ++ b ++ c)%string.
Proof. induction a; cbn; congruence. Qed.

Section TextShape.
Context {collab : Collaborators}.

Lemma csv_header_join (this : PhysicalExport) (columns : list ColumnID)
      (names : list string) :
  mapM (export_name this) columns = Ok names -> columns <> [] ->
  csv_header this columns
  = Ok (String.concat (String (delimiter_ this) "") names ++ LF)%string.
Proof.
  revert names. induction columns as [|c columns IH]; intros names H Hne.
  - contradiction.
  - cbn [mapM] in H. cbn [csv_header].
    destruct (export_name this c) as [n|]; [|discriminate]. cbn [bind] in *.
    destruct (mapM (export_name this) columns) as [ns|] eqn:Hns; [|discriminate].
    cbn [bind] in H. injection H as <-.
    destruct columns as [|c' columns].
    + cbn in Hns. injection Hns as <-. reflexivity.
    + rewrite (IH ns eq_refl) by discriminate. cbn [bind].
      destruct ns as [|n' ns].
      { cbn [mapM] in Hns. destruct (export_name this c'); [|discriminate].
        cbn [bind] in Hns. destruct (mapM (export_name this) columns); discriminate. }
      cbn [String.concat]. rewrite !append_assoc. reflexivity.
Qed.

Lemma csv_line_join (delimiter : ascii) (column_vectors : list ColumnVector)
      (row_idx : nat) (values : list Value) :
  mapM (fun cv => GetValue cv row_idx) column_vectors = Ok values ->
  column_vectors <> [] ->
  csv_line delimiter column_vectors row_idx
  = Ok (String.concat (String delimiter "") (map csv_cell values) ++ LF)%string.
Proof.
  revert values. induction column_vectors as [|cv cvs IH]; intros values H Hne.
  - contradiction.
  - cbn [mapM] in H. cbn [csv_line].
    destruct (GetValue cv row_idx) as [v|]; [|discriminate]. cbn [bind] in *.
    destruct (mapM (fun cv => GetValue cv row_idx) cvs) as [vs|] eqn:Hvs;
      [|discriminate].
    cbn [bind] in H. injection H as <-.
    destruct cvs as [|cv' cvs].
    + cbn in Hvs. injection Hvs as <-. reflexivity.
    + rewrite (IH vs eq_refl) by discriminate. cbn [bind].
      destruct vs as [|v' vs].
      { cbn [mapM] in Hvs. destruct (GetValue cv' row_idx); [|discriminate].
        cbn [bind] in Hvs.
        destruct (mapM (fun cv => GetValue cv row_idx) cvs); discriminate. }
      cbn [map String.concat]. rewrite !append_assoc. reflexivity.
Qed.

Lemma virtual_names (this : PhysicalExport) :
  export_name this COLUMN_IDENTIFIER_ROW_ID = Ok "_row_id" /\
  export_name this COLUMN_IDENTIFIER_CREATE = Ok "_create_timestamp" /\
  export_name this COLUMN_IDENTIFIER_DELETE = Ok "_delete_timestamp".
Proof.
  destruct COLUMN_IDENTIFIER_distinct as (H1 & H2 & H3).
  unfold export_name. rewrite !N.eqb_refl.
  apply not_eq_sym in H1, H2, H3.
  apply N.eqb_neq in H1, H2, H3. rewrite H1, H2, H3. repeat split.
Qed.

Lemma index_nth_error {A} (v : list A) (i : ColumnID) (a : A) :
  index v i = Ok a <-> nth_error v (N.to_nat i) = Some a.
Proof.
  unfold index. split.
  - destruct (i <? N.of_nat (length v))%N; [|discriminate].
    destruct (nth_error v (N.to_nat i)); [|discriminate]. now intros [= ->].
  - intros H.
    assert (Hlt : N.to_nat i < length v) by (apply nth_error_Some; congruence).
    assert (Hb : (i <? N.of_nat (length v))%N = true) by (apply N.ltb_lt; lia).
    rewrite Hb, H. reflexivity.
Qed.

Lemma export_name_physical (this : PhysicalExport) (c : ColumnID)
      (column_def : ColumnDef) :
  is_virtual c = false ->
  nth_error (column_defs this) (N.to_nat c) = Some column_def ->
  export_name this c = Ok (name column_def).
Proof.
  unfold is_virtual, export_name. intros Hv Hc.
  apply orb_false_iff in Hv. destruct Hv as [Hv ->].
  apply orb_false_iff in Hv. destruct Hv as [-> ->].
  apply index_nth_error in Hc. rewrite Hc. reflexivity.
Qed.

Lemma export_name_unknown (this : PhysicalExport) (c : ColumnID) :
  is_virtual c = false -> (N.of_nat (length (column_defs this)) <= c)%N ->
  export_name this c = Raise OutOfBounds.
Proof.
  unfold is_virtual, export_name. intros Hv Hc.
  apply orb_false_iff in Hv. destruct Hv as [Hv ->].
  apply orb_false_iff in Hv. destruct Hv as [-> ->].
  rewrite index_out_of_bounds by exact Hc. reflexivity.
Qed.


End TextShape.

Section Fvecs.
Context {collab : Collaborators}.


Lemma fvecs_row_value (c : ColumnID) (dimension : N) (r : RowRef) (line : list byte) :
  fvecs_row c dimension r = Ok line ->
  exists v, GetValue (GetConstColumnVector (rr_block r) c) (rr_idx r) = Ok v /\
            line = fvecs_record dimension v.
Proof.
  unfold fvecs_row, row_bytes, fvecs_materialize.
  destruct (length (GetConstColumnVector (rr_block r) c) =? block_row_count (rr_block r));
    [|discriminate].
  cbn [bind fvecs_serialize].
  destruct (GetValue (GetConstColumnVector (rr_block r) c) (rr_idx r)) as [v|];
    [|discriminate].
  cbn [bind]. intros H. injection H as <-. now exists v.
Qed.



End Fvecs.

Section MapM.
Variables A B : Type.
Variable f : A -> Result B.



End MapM.

(* ================================================================= *)
(** * The claims of the specification *)




(** C2: every export tests the visibility of a row first, and a row
    that is not visible changes nothing: not the remaining offset, not
    the row count (which the row limit and the per-file limit are
    tested on), not the files.  The rows written are the visible rows
    past the offset, in scan order, up to the limit:
    [exported_rows this] is
    [take_limit limit_ (skipn offset_ (filter row_visible scan_order))]. *)
Theorem invisible_rows_cost_nothing {collab : Collaborators} (this : PhysicalExport) :
  (forall serialize filter seg_off column_vectors st row_idx,
      filter (seg_off + row_idx) = false ->
      export_row this serialize filter seg_off column_vectors st row_idx
      = Ok (Next, st)) /\
  (forall filter seg_off row_idx rows block_rows_for_output st,
      filter (seg_off + row_idx) = false ->
      collect_rows this filter seg_off (row_idx :: rows) block_rows_for_output st
      = collect_rows this filter seg_off rows block_rows_for_output st) /\
  exported_rows this
  = take_limit (limit_ this)
               (skipn (offset_ this) (filter row_visible (scan_order this))) /\
  (text_exportable this = true ->
   exists header lines n files,
     Forall2 (fun r line => csv_row this r = Ok line) (exported_rows this) lines /\
     ExportToCSV this = Ok (n, files) /\
     concat (map content files) = header ++ concat lines) /\
  (text_exportable this = true ->
   exists lines n files,
     Forall2 (fun r line => jsonl_row this r = Ok line) (exported_rows this) lines /\
     ExportToJSONL this = Ok (n, files) /\
     concat (map content files) = concat lines) /\
  (fvecs_exportable this = true ->
   exists exported_column_idx dimension lines n files,
     fvecs_check this = Ok (exported_column_idx, dimension) /\
     Forall2 (fun r line => fvecs_row exported_column_idx dimension r = Ok line)
             (exported_rows this) lines /\
     ExportToFVECS this = Ok (n, files) /\
     concat (map content files) = concat lines) /\
  (parquet_exportable this = true ->
   exists n files,
     ExportToPARQUET this = Ok (n, files) /\
     flat_map parquet_rows files = map (row_values this) (exported_rows this)).
Proof.
  split.
  { intros serialize filter seg_off cvs st row_idx H.
    unfold export_row. rewrite H. reflexivity. }
  split.
  { intros filter seg_off row_idx rows acc st H.
    cbn [collect_rows]. rewrite H. reflexivity. }
  split; [reflexivity|].
  assert (Hcontent : forall p head (lines : list (list byte)) chunks,
             split_every (row_limit_ this) lines chunks ->
             concat (map content (text_files p head chunks)) = head ++ concat lines).
  { intros p head lines chunks Hs.
    rewrite text_files_content.
    - destruct Hs as (-> & _). reflexivity.
    - pose proof (split_every_nonempty Hs). destruct chunks; cbn in *; [lia|discriminate]. }
  split.
  { intros H. destruct (ExportToCSV_spec this H) as (h & ls & cs & _ & Hl & E & Hs).
    exists h, ls. do 2 eexists. split; [exact Hl|]. split; [exact E|].
    apply Hcontent. exact Hs. }
  split.
  { intros H. destruct (ExportToJSONL_spec this H) as (ls & cs & Hl & E & Hs).
    exists ls. do 2 eexists. split; [exact Hl|]. split; [exact E|].
    apply (Hcontent _ [] _ _ Hs). }
  split.
  { intros H.
    destruct (ExportToFVECS_spec this H) as (c & dim & ls & cs & Hc & Hl & E & Hs).
    exists c, dim, ls. do 2 eexists. split; [exact Hc|]. split; [exact Hl|].
    split; [exact E|]. apply (Hcontent _ [] _ _ Hs). }
  intros H. destruct (parquet_spec this H) as (files & E & _ & Hs).
  do 2 eexists. split; [exact E|].
  destruct Hs as (Hcat & _). rewrite flat_map_concat_map. exact Hcat.
Qed.

Lemma invisible_rows_cost_nothing_witness :
  let this := Sample.id_name_export kCSV [] true 1 0 0
                (fun i => negb (i =? 1)) in
  exists files,
    ExportToCSV this = Ok (1, files) /\
    concat (map content files)
    = bytes ("id,name" ++ LF ++ "3,c" ++ LF)%string.
Proof.
  cbv zeta.
  destruct (invisible_rows_cost_nothing
              (Sample.id_name_export kCSV [] true 1 0 0 (fun i => negb (i =? 1))))
    as (_ & _ & _ & Hcsv & _).
  destruct (Hcsv eq_refl) as (header & lines & n & files & _ & E & _).
  exists files. vm_compute in E. injection E as _ <-. split; reflexivity.
Defined.

(** C3, as stated: [ceil(n / k)] files.  An export that emits no row
    still leaves its base file: with a per-file limit of 2 and no
    visible row there is one file, not [ceil(0 / 2) = 0]. *)
Lemma file_count_claim_fails :
  let this := Sample.id_name_export kCSV [] false 0 0 2 (fun _ => false) in
  exists n files,
    ExportToCSV this = Ok (n, files) /\
    0 < row_limit_ this /\
    length files <> ceil_div n (row_limit_ this).
Proof.
  cbv zeta. do 2 eexists. split; [vm_compute; reflexivity|].
  split; [cbn; lia|]. vm_compute. discriminate.
Qed.

(** C3 (amended): with a per-file limit [k] and [n] emitted rows an
    export produces [ceil(n / k)] files when [k > 0] and [n > 0], and
    one file when [k = 0] or [n = 0].  The files are [path],
    [path.part1], [path.part2], ... in this order; file [i] holds rows
    [i * k .. i * k + k - 1] (all rows when [k = 0]), so every file but
    the last holds [k] rows, and no part file is empty. *)
Theorem export_file_splitting {collab : Collaborators} (this : PhysicalExport) :
  (text_exportable this = true ->
   exists header lines chunks files,
     (if header_ this
      then exists text, csv_header this (select_columns this) = Ok text
                        /\ header = bytes text
      else header = []) /\
     Forall2 (fun r line => csv_row this r = Ok line) (exported_rows this) lines /\
     ExportToCSV this = Ok (length lines, files) /\
     map content files
     = map (fun ic => (if fst ic =? 0 then header else []) ++ concat (snd ic))
           (combine (seq 0 (length chunks)) chunks) /\
     files_split (file_path_ this) (row_limit_ this) lines (map path files) chunks) /\
  (text_exportable this = true ->
   exists lines chunks files,
     Forall2 (fun r line => jsonl_row this r = Ok line) (exported_rows this) lines /\
     ExportToJSONL this = Ok (length lines, files) /\
     map content files = map (@concat byte) chunks /\
     files_split (file_path_ this) (row_limit_ this) lines (map path files) chunks) /\
  (fvecs_exportable this = true ->
   exists exported_column_idx dimension lines chunks files,
     fvecs_check this = Ok (exported_column_idx, dimension) /\
     Forall2 (fun r line => fvecs_row exported_column_idx dimension r = Ok line)
             (exported_rows this) lines /\
     ExportToFVECS this = Ok (length lines, files) /\
     map content files = map (@concat byte) chunks /\
     files_split (file_path_ this) (row_limit_ this) lines (map path files) chunks) /\
  (parquet_exportable this = true ->
   exists files,
     ExportToPARQUET this = Ok (length (exported_rows this), files) /\
     files_split (file_path_ this) (row_limit_ this)
                 (map (row_values this) (exported_rows this))
                 (map output_file_path files) (map parquet_rows files)).
Proof.
  assert (Hcontents : forall p head (chunks : list (list (list byte))),
             map content (text_files p head chunks)
             = map (fun ic => (if fst ic =? 0 then head else []) ++ concat (snd ic))
                   (combine (seq 0 (length chunks)) chunks)).
  { intros. unfold text_files. rewrite map_map. reflexivity. }
  assert (Hplain : forall (chunks : list (list (list byte))),
             map (fun ic : nat * list (list byte) =>
                    (if fst ic =? 0 then [] else []) ++ concat (snd ic))
                 (combine (seq 0 (length chunks)) chunks)
             = map (@concat byte) chunks).
  { intros chunks. apply headless_contents. }
  split.
  { intros H. destruct (ExportToCSV_spec this H) as (h & ls & cs & Hh & Hl & E & Hs).
    exists h, ls, cs. eexists. split; [exact Hh|]. split; [exact Hl|].
    rewrite <- (Forall2_length Hl). split; [exact E|].
    split; [apply Hcontents|].
    apply split_every_files; [exact Hs | apply text_files_paths]. }
  split.
  { intros H. destruct (ExportToJSONL_spec this H) as (ls & cs & Hl & E & Hs).
    exists ls, cs. eexists. split; [exact Hl|].
    rewrite <- (Forall2_length Hl). split; [exact E|].
    split; [rewrite Hcontents; apply Hplain|].
    apply split_every_files; [exact Hs | apply text_files_paths]. }
  split.
  { intros H.
    destruct (ExportToFVECS_spec this H) as (c & dim & ls & cs & Hc & Hl & E & Hs).
    exists c, dim, ls, cs. eexists. split; [exact Hc|]. split; [exact Hl|].
    rewrite <- (Forall2_length Hl). split; [exact E|].
    split; [rewrite Hcontents; apply Hplain|].
    apply split_every_files; [exact Hs | apply text_files_paths]. }
  intros H. destruct (parquet_spec this H) as (files & E & Hp & Hs).
  exists files. split; [exact E|].
  apply split_every_files; [exact Hs|]. rewrite length_map. exact Hp.
Qed.

Lemma export_file_splitting_witness :
  let this := Sample.id_name_export kCSV [] true 0 0 2 Sample.all_visible in
  exists files,
    ExportToCSV this = Ok (3, files) /\
    map path files = ["/tmp/t.out"; "/tmp/t.out.part1"]%string /\
    map content files
    = [bytes ("id,name" ++ LF ++ "1,a" ++ LF ++ "2,b" ++ LF)%string;
       bytes ("3,c" ++ LF)%string].
Proof.
  cbv zeta.
  destruct (export_file_splitting
              (Sample.id_name_export kCSV [] true 0 0 2 Sample.all_visible))
    as (Hcsv & _).
  destruct (Hcsv eq_refl) as (header & lines & chunks & files & _ & _ & E & _).
  exists files. vm_compute in E. injection E as _ <-. repeat split; reflexivity.
Defined.

(** C4, as stated: both 16-bit float types are upcast to 32-bit.  A
    [float16] column keeps a 16-bit field and a half-float builder. *)
Lemma float16_is_not_upcast :
  GetArrowType (scalar_column "h" kFloat16) = Ok float16 /\
  MakeArrayBuilder (scalar_column "h" kFloat16) = Ok HalfFloatBuilder /\
  GetArrowType (scalar_column "h" kFloat16) <> Ok float32 /\
  MakeArrayBuilder (scalar_column "h" kFloat16) <> Ok FloatBuilder.
Proof. repeat split; discriminate. Qed.

(** C4 (amended): of the two 16-bit floating-point types only
    [bfloat16] is upcast, to a 32-bit float field and a float builder;
    [float16] is written as a 16-bit half-float field with a half-float
    builder.  The same holds for the elements of vectors and of sparse
    values. *)
Theorem sixteen_bit_floats (column_def : ColumnDef) :
  (type (column_type column_def) = kBFloat16 ->
   GetArrowType column_def = Ok float32 /\
   MakeArrayBuilder column_def = Ok FloatBuilder) /\
  (type (column_type column_def) = kFloat16 ->
   GetArrowType column_def = Ok float16 /\
   MakeArrayBuilder column_def = Ok HalfFloatBuilder) /\
  (embedding_elem_type kElemBFloat16 = Ok float32 /\
   embedding_element_builder kElemBFloat16 = Ok FloatBuilder /\
   sparse_value_type kElemBFloat16 = Ok (Some (list_ float32)) /\
   sparse_value_builder kElemBFloat16 = Ok (Some (ListBuilder FloatBuilder))) /\
  (embedding_elem_type kElemFloat16 = Ok float16 /\
   embedding_element_builder kElemFloat16 = Ok HalfFloatBuilder /\
   sparse_value_type kElemFloat16 = Ok (Some (list_ float16)) /\
   sparse_value_builder kElemFloat16 = Ok (Some (ListBuilder HalfFloatBuilder))).
Proof.
  split; [|split; [|repeat split]].
  - intros H. unfold GetArrowType, MakeArrayBuilder. rewrite H. split; reflexivity.
  - intros H. unfold GetArrowType, MakeArrayBuilder. rewrite H. split; reflexivity.
Qed.

Lemma sixteen_bit_floats_witness :
  GetArrowType (scalar_column "b" kBFloat16) = Ok float32 /\
  MakeArrayBuilder (scalar_column "b" kBFloat16) = Ok FloatBuilder.
Proof.
  destruct (sixteen_bit_floats (scalar_column "b" kBFloat16)) as (H & _).
  apply H. reflexivity.
Defined.

(** C5: the code at the failing input.  For a sparse column whose
    element type is single-bit the schema has the [index] field alone,
    but [BuildArrowArray] dereferences the null [value_builder] when it
    builds the struct type: no array is built, whatever the rows. *)
Theorem sparse_bit_builder_faults {collab : Collaborators}
        (column_name : string) (index : EmbeddingDataType) (dimension : nat)
        (index_type : ArrowType) :
  index_arrow_type index = Some index_type ->
  let column_def := sparse_column column_name kElemBit index dimension in
  GetArrowType column_def = Ok (struct_ [("index"%string, list_ index_type)]) /\
  MakeArrayBuilder column_def = Raise NullDereference /\
  (forall (column_vector : ColumnVector) (rows : list nat),
      BuildArrowArray column_def column_vector rows = Raise NullDereference).
Proof.
  intros H. cbv zeta. unfold BuildArrowArray.
  destruct index; try discriminate; injection H as <-; repeat split.
Qed.

Lemma sparse_bit_builder_faults_witness :
  GetArrowType (sparse_column "s" kElemBit kElemInt32 100)
  = Ok (struct_ [("index"%string, list_ int32)]) /\
  MakeArrayBuilder (sparse_column "s" kElemBit kElemInt32 100)
  = Raise NullDereference.
Proof.
  destruct (@sparse_bit_builder_faults Sample.collaborators "s" kElemInt32 100 int32
              eq_refl) as (H1 & H2 & _).
  split; assumption.
Defined.

(** C6, as stated: every unsupported raw-vector request raises a
    recoverable fault.  A request for two columns raises an
    unrecoverable one. *)
Lemma fvecs_two_columns_unrecoverable :
  let this := Sample.vec_export (Sample.vec_defs kElemFloat) [0%N; 0%N] in
  exists f, ExportToFVECS this = Raise f /\
            is_recoverable f = false /\ is_unrecoverable f = true.
Proof. cbv zeta. eexists. split; [reflexivity | split; reflexivity]. Qed.

(** C6 (amended): an unsupported raw-vector request is refused by the
    checks that precede the opening of the file and the scan, so no row
    is processed and no file is written; the checks read the column
    list and the column definitions only.  A column list that does not
    select exactly one column, and a selected column that is not an
    embedding, raise an unrecoverable fault; an embedding whose element
    type is not 32-bit float raises a recoverable one. *)
Theorem fvecs_unsupported {collab : Collaborators} (this : PhysicalExport) :
  (forall f, fvecs_check this = Raise f -> ExportToFVECS this = Raise f) /\
  (forall other : PhysicalExport,
      column_idx_array_ other = column_idx_array_ this ->
      column_defs other = column_defs this ->
      fvecs_check other = fvecs_check this) /\
  (length (column_idx_array_ this) <> 1 ->
   exists message, fvecs_check this = Raise (UnrecoverableError message)) /\
  (forall c column_def,
      column_idx_array_ this = [c] ->
      index (column_defs this) c = Ok column_def ->
      type (column_type column_def) <> kEmbedding ->
      exists message, fvecs_check this = Raise (UnrecoverableError message)) /\
  (forall c column_def elem dim,
      column_idx_array_ this = [c] ->
      index (column_defs this) c = Ok column_def ->
      type (column_type column_def) = kEmbedding ->
      type_info (column_type column_def) = EmbeddingInfo elem dim ->
      elem <> kElemFloat ->
      exists status, fvecs_check this = Raise (RecoverableError status)).
Proof.
  split.
  { intros f H. unfold ExportToFVECS. rewrite H. reflexivity. }
  split.
  { intros other H1 H2. unfold fvecs_check. rewrite H1, H2. reflexivity. }
  split.
  { intros H. unfold fvecs_check.
    destruct (column_idx_array_ this) as [|c [|c' l]];
      try (eexists; reflexivity). exfalso. apply H. reflexivity. }
  split.
  { intros c cd Hc Hi Ht. unfold fvecs_check. rewrite Hc, Hi. cbn [bind].
    destruct (type (column_type cd)) eqn:E; try (eexists; reflexivity).
    exfalso. congruence. }
  intros c cd elem dim Hc Hi Ht Hinfo He.
  unfold fvecs_check. rewrite Hc, Hi. cbn [bind]. rewrite Ht.
  unfold as_EmbeddingInfo. rewrite Hinfo. cbn [bind].
  destruct elem; try (eexists; reflexivity). exfalso. congruence.
Qed.

Lemma fvecs_unsupported_witness :
  (exists message,
      ExportToFVECS (Sample.vec_export (Sample.vec_defs kElemFloat) [0%N; 0%N])
      = Raise (UnrecoverableError message)) /\
  (exists message,
      ExportToFVECS (Sample.vec_export Sample.id_name_defs [0%N])
      = Raise (UnrecoverableError message)) /\
  (exists status,
      ExportToFVECS (Sample.vec_export (Sample.vec_defs kElemInt8) [0%N])
      = Raise (RecoverableError status)).
Proof.
  split; [|split].
  - destruct (fvecs_unsupported
                (Sample.vec_export (Sample.vec_defs kElemFloat) [0%N; 0%N]))
      as (Hraise & _ & Hcount & _).
    destruct Hcount as [message Hm]; [cbn; lia|].
    exists message. apply Hraise. exact Hm.
  - destruct (fvecs_unsupported (Sample.vec_export Sample.id_name_defs [0%N]))
      as (Hraise & _ & _ & Htype & _).
    destruct (Htype 0%N _ eq_refl eq_refl) as [message Hm]; [discriminate|].
    exists message. apply Hraise. exact Hm.
  - destruct (fvecs_unsupported
                (Sample.vec_export (Sample.vec_defs kElemInt8) [0%N]))
      as (Hraise & _ & _ & _ & Helem).
    destruct (Helem 0%N _ kElemInt8 2 eq_refl eq_refl eq_refl eq_refl)
      as [status Hs]; [discriminate|].
    exists status. apply Hraise. exact Hs.
Defined.



(** C8: the text scenario.  For the table [(id : int, name : text)]
    with the visible rows (1, a), (2, b), (3, c), header on, delimiter
    [,], offset 0 and limit 0, the export writes one file whose bytes
    are [id,name\n1,a\n2,b\n3,c\n].  In general the header is the
    names of the selected columns ([_row_id], [_create_timestamp],
    [_delete_timestamp] for the virtual ones, and for any other
    selector the name of the column definition at this position of
    [column_defs]; past the end of [column_defs] there is no name and
    the access is out of bounds) joined by the delimiter
    and ended by a newline; a row is its cells joined by the delimiter
    and ended by a newline; and a cell is the value's text, in quotes
    exactly for the embedding, multi-vector, tensor, tensor-array and
    sparse types. *)
Theorem csv_text_scenario {collab : Collaborators} :
  (forall ids names : ColumnVector,
      map Value_type ids = [kInteger; kInteger; kInteger] ->
      map ToString ids = ["1"; "2"; "3"]%string ->
      map Value_type names = [kVarchar; kVarchar; kVarchar] ->
      map ToString names = ["a"; "b"; "c"]%string ->
      is_virtual 0%N = false -> is_virtual 1%N = false ->
      ExportToCSV (text_scenario ids names)
      = Ok (3, [{| path := "out.csv";
                   content := bytes ("id,name" ++ LF ++ "1,a" ++ LF
                                     ++ "2,b" ++ LF ++ "3,c" ++ LF)%string |}])) /\
  (forall this : PhysicalExport,
      export_name this COLUMN_IDENTIFIER_ROW_ID = Ok "_row_id"%string /\
      export_name this COLUMN_IDENTIFIER_CREATE = Ok "_create_timestamp"%string /\
      export_name this COLUMN_IDENTIFIER_DELETE = Ok "_delete_timestamp"%string) /\
  (forall (this : PhysicalExport) (c : ColumnID) (column_def : ColumnDef),
      is_virtual c = false ->
      nth_error (column_defs this) (N.to_nat c) = Some column_def ->
      export_name this c = Ok (name column_def)) /\
  (forall (this : PhysicalExport) (c : ColumnID),
      is_virtual c = false -> (N.of_nat (length (column_defs this)) <= c)%N ->
      export_name this c = Raise OutOfBounds) /\
  (forall (this : PhysicalExport) columns names,
      mapM (export_name this) columns = Ok names -> columns <> [] ->
      csv_header this columns
      = Ok (String.concat (String (delimiter_ this) "") names ++ LF)%string) /\
  (forall delimiter (column_vectors : list ColumnVector) row_idx values,
      mapM (fun cv => GetValue cv row_idx) column_vectors = Ok values ->
      column_vectors <> [] ->
      csv_line delimiter column_vectors row_idx
      = Ok (String.concat (String delimiter "") (map csv_cell values) ++ LF)%string) /\
  (forall v : Value,
      csv_cell v = if quoted (Value_type v)
                   then (QUOTE ++ ToString v ++ QUOTE)%string
                   else ToString v).
Proof.
  split.
  { intros ids names Hit His Hnt Hns Hv0 Hv1.
    destruct ids as [|i1 [|i2 [|i3 [|]]]]; try discriminate.
    destruct names as [|n1 [|n2 [|n3 [|]]]]; try discriminate.
    cbn [map] in *.
    injection Hit as Ht1 Ht2 Ht3. injection His as Hs1 Hs2 Hs3.
    injection Hnt as Hu1 Hu2 Hu3. injection Hns as Hr1 Hr2 Hr3.
    unfold is_virtual in Hv0, Hv1.
    apply orb_false_iff in Hv0, Hv1. destruct Hv0 as [Hv0 Hd0], Hv1 as [Hv1 Hd1].
    apply orb_false_iff in Hv0, Hv1. destruct Hv0 as [Hr0 Hc0], Hv1 as [Hr1' Hc1].
    set (this := text_scenario [i1; i2; i3] [n1; n2; n3]).
    set (cvs := [[i1; i2; i3]; [n1; n2; n3]]).
    assert (Hn0 : export_name this 0%N = Ok "id"%string).
    { unfold export_name. rewrite Hr0, Hc0, Hd0. reflexivity. }
    assert (Hn1 : export_name this 1%N = Ok "name"%string).
    { unfold export_name. rewrite Hr1', Hc1, Hd1. reflexivity. }
    assert (Hhead : csv_header this [0%N; 1%N] = Ok ("id,name" ++ LF)%string).
    { cbn [csv_header]. rewrite Hn0, Hn1. reflexivity. }
    assert (Hmat : materialize [0%N; 1%N] 0 (plain_block 3 cvs) = Ok cvs).
    { unfold materialize. cbn [mapM]. unfold materialize_column.
      rewrite Hr0, Hc0, Hd0, Hr1', Hc1, Hd1. reflexivity. }
    assert (Hl0 : csv_line ","%char cvs 0 = Ok ("1,a" ++ LF)%string).
    { cbn [csv_line cvs GetValue nth_error bind]. unfold csv_cell.
      rewrite Ht1, Hu1, Hs1, Hr1. reflexivity. }
    assert (Hl1 : csv_line ","%char cvs 1 = Ok ("2,b" ++ LF)%string).
    { cbn [csv_line cvs GetValue nth_error bind]. unfold csv_cell.
      rewrite Ht2, Hu2, Hs2, Hr2. reflexivity. }
    assert (Hl2 : csv_line ","%char cvs 2 = Ok ("3,c" ++ LF)%string).
    { cbn [csv_line cvs GetValue nth_error bind]. unfold csv_cell.
      rewrite Ht3, Hu3, Hs3, Hr3. reflexivity. }
    unfold ExportToCSV.
    change (select_columns this) with [0%N; 1%N].
    change (header_ this) with true. cbv iota. rewrite Hhead. cbn [bind].
    unfold scan.
    change (block_index_ this)
      with [(0, {| visible := fun _ : SegmentOffset => true;
                   block_map_ := [plain_block 3 cvs] |})].
    cbn [for_each export_segment block_map_ visible bind].
    unfold export_block at 1. rewrite Hmat. cbn [bind].
    change (block_row_count (plain_block 3 cvs)) with 3.
    change (delimiter_ this) with ","%char.
    cbn [seq for_each]. unfold export_row.
    cbn [negb offset Nat.ltb Nat.leb Nat.add].
    change (offset_ this) with 0. cbn [Nat.ltb Nat.leb].
    rewrite Hl0. cbn [bind].
    change (limit_ this) with 0. change (row_limit_ this) with 0.
    cbn [row_count Nat.ltb Nat.leb andb negb Nat.eqb Append offset file_no_
         closed_files file_handle path content app bind].
    rewrite Hl1. cbn [bind].
    cbn [row_count Nat.ltb Nat.leb andb negb Nat.eqb Append offset file_no_
         closed_files file_handle path content app bind].
    rewrite Hl2. cbn [bind].
    cbn [row_count Nat.ltb Nat.leb andb negb Nat.eqb Append offset file_no_
         closed_files file_handle path content app bind files].
    reflexivity. }
  split; [apply virtual_names|].
  split; [apply export_name_physical|].
  split; [apply export_name_unknown|].
  split; [apply csv_header_join|].
  split; [apply csv_line_join|].
  intros v. unfold csv_cell, quoted. destruct (Value_type v); reflexivity.
Qed.

Lemma csv_text_scenario_witness :
  @ExportToCSV Sample.collaborators
     (text_scenario (Sample.int_column [1; 2; 3]%Z)
                    (Sample.text_column ["a"; "b"; "c"]%string))
  = Ok (3, [{| path := "out.csv";
               content := bytes ("id,name" ++ LF ++ "1,a" ++ LF
                                 ++ "2,b" ++ LF ++ "3,c" ++ LF)%string |}]).
Proof.
  destruct (@csv_text_scenario Sample.collaborators) as [H _].
  apply H; reflexivity.
Defined.

(** C9: a text export with the header on writes the header once, to
    the base file, before any row; with splitting active every
    [.part] file holds the lines of its rows and nothing else. *)
Theorem csv_header_once {collab : Collaborators} (this : PhysicalExport) :
  header_ this = true ->
  text_exportable this = true ->
  exists header lines chunks files,
    csv_header this (select_columns this) = Ok header /\
    Forall2 (fun r line => csv_row this r = Ok line) (exported_rows this) lines /\
    ExportToCSV this = Ok (length lines, files) /\
    split_every (row_limit_ this) lines chunks /\
    length files = length chunks /\
    forall i f, nth_error files i = Some f ->
                path f = export_path (file_path_ this) i /\
                content f = (if i =? 0 then bytes header else [])
                            ++ concat (nth i chunks []).
Proof.
  intros Hh H.
  destruct (ExportToCSV_spec this H) as (h & ls & cs & Hhead & Hl & E & Hs).
  rewrite Hh in Hhead. destruct Hhead as (text & Htext & ->).
  exists text, ls, cs. eexists. split; [exact Htext|]. split; [exact Hl|].
  rewrite <- (Forall2_length Hl). split; [exact E|]. split; [exact Hs|].
  split; [apply text_files_length|].
  intros i f Hf. apply text_files_nth. exact Hf.
Qed.

Lemma csv_header_once_witness :
  let this := Sample.id_name_export kCSV [] true 0 0 1 Sample.all_visible in
  exists files,
    ExportToCSV this = Ok (3, files) /\
    map content files
    = [bytes ("id,name" ++ LF ++ "1,a" ++ LF)%string;
       bytes ("2,b" ++ LF)%string; bytes ("3,c" ++ LF)%string].
Proof.
  cbv zeta.
  destruct (@csv_header_once Sample.collaborators
              (Sample.id_name_export kCSV [] true 0 0 1 Sample.all_visible)
              eq_refl eq_refl)
    as (header & lines & chunks & files & _ & _ & E & _).
  exists files. vm_compute in E. injection E as _ <-. split; reflexivity.
Defined.



(* ================================================================= *)
(** * Further properties of the operator *)

(* ================================================================= *)
(** ** Shared facts *)

Lemma MakeArrayBuilder_type (column_def : ColumnDef) (builder : ArrowBuilder) :
  MakeArrayBuilder column_def = Ok builder ->
  GetArrowType column_def = Ok (builder_type builder).
Proof.
  destruct column_def as [n [t info]].
  unfold GetArrowType, MakeArrayBuilder, as_SparseInfo, as_EmbeddingInfo.
  cbn [column_type type type_info].
  destruct t; try discriminate; try (intros [= <-]; reflexivity).
  all: destruct info as [|e d|e i d]; cbn [bind]; try discriminate.
  all: try (destruct e; cbn [embedding_element_builder embedding_elem_type bind];
            try discriminate; intros [= <-]; reflexivity).
  destruct i; cbn [sparse_index_builder sparse_index_type bind]; try discriminate;
    destruct e; cbn [sparse_value_builder sparse_value_type deref_type bind];
    try discriminate; intros [= <-]; reflexivity.
Qed.

Lemma mapM_length {A B} (f : A -> Result B) (l : list A) (ys : list B) :
  mapM f l = Ok ys -> length ys = length l.
Proof.
  revert ys. induction l as [|a l IH]; intros ys; cbn [mapM].
  - intros [= <-]. reflexivity.
  - destruct (f a); cbn [bind]; [|discriminate].
    destruct (mapM f l) as [zs|]; cbn [bind]; [|discriminate].
    intros [= <-]. cbn. f_equal. now apply IH.
Qed.

Lemma mapM_Forall2 {A B} (f : A -> Result B) (l : list A) (ys : list B) :
  mapM f l = Ok ys -> Forall2 (fun x y => f x = Ok y) l ys.
Proof.
  revert ys. induction l as [|a l IH]; intros ys; cbn [mapM].
  - intros [= <-]. constructor.
  - destruct (f a) as [b|] eqn:Ha; cbn [bind]; [|discriminate].
    destruct (mapM f l) as [zs|]; cbn [bind]; [|discriminate].
    intros [= <-]. constructor; [exact Ha | now apply IH].
Qed.

(** When [e] is the only fault [f] raises on [l], and it raises it
    somewhere, the traversal raises [e]. *)
Lemma mapM_raises {A B} (f : A -> Result B) (e : Fault) (l : list A) (x : A) :
  (forall a, In a l -> (exists b, f a = Ok b) \/ f a = Raise e) ->
  In x l -> f x = Raise e -> mapM f l = Raise e.
Proof.
  induction l as [|a l IH]; intros Hall Hin Hx; [contradiction|].
  cbn [mapM]. destruct (Hall a (or_introl eq_refl)) as [[b Hb]|Ha].
  - rewrite Hb. cbn [bind]. destruct Hin as [->|Hin]; [congruence|].
    rewrite IH; [reflexivity | | exact Hin | exact Hx].
    intros a' Ha'. apply Hall. now right.
  - rewrite Ha. reflexivity.
Qed.

Lemma Forall2_functional {A B} (f : A -> Result B) (l : list A) (l1 l2 : list B) :
  Forall2 (fun a b => f a = Ok b) l l1 ->
  Forall2 (fun a b => f a = Ok b) l l2 -> l1 = l2.
Proof.
  intros H. revert l2. induction H as [|a b l l1 Hab _ IH]; intros l2 H2.
  - inversion H2. reflexivity.
  - inversion H2 as [|a' b' l' l2' Hab' H2']; subst. f_equal; [congruence|].
    now apply IH.
Qed.

Lemma adjacent_lines {A B} (f : A -> Result (list B)) (rows1 rows2 : list A)
      (lines1 lines2 lines : list (list B)) :
  Forall2 (fun r line => f r = Ok line) rows1 lines1 ->
  Forall2 (fun r line => f r = Ok line) rows2 lines2 ->
  Forall2 (fun r line => f r = Ok line) (rows1 ++ rows2) lines ->
  lines = lines1 ++ lines2.
Proof.
  intros H1 H2 H. apply Forall2_app_inv_l in H.
  destruct H as (m1 & m2 & M1 & M2 & ->).
  rewrite (Forall2_functional f M1 H1), (Forall2_functional f M2 H2). reflexivity.
Qed.

Lemma for_each_invariant {A S} (I : S -> Prop)
      (body : S -> A -> Result (Control * S)) (l : list A) :
  (forall s x c s', In x l -> I s -> body s x = Ok (c, s') -> I s') ->
  forall s c s', I s -> for_each body l s = Ok (c, s') -> I s'.
Proof.
  induction l as [|x l IH]; intros Hbody s c s' Hs; cbn [for_each].
  - intros [= _ <-]. exact Hs.
  - destruct (body s x) as [[c1 s1]|] eqn:Hx; cbn [bind]; [|discriminate].
    pose proof (Hbody s x c1 s1 (or_introl eq_refl) Hs Hx) as Hs1.
    destruct c1.
    + apply IH; [|exact Hs1]. intros s0 x0 c0 s0' Hin. apply Hbody. now right.
    + intros [= _ <-]. exact Hs1.
Qed.

Lemma for_each_ext {A S} (body body' : S -> A -> Result (Control * S))
      (l : list A) :
  (forall s x, In x l -> body s x = body' s x) ->
  forall s, for_each body l s = for_each body' l s.
Proof.
  induction l as [|x l IH]; intros H s; [reflexivity|].
  cbn [for_each]. rewrite (H s x (or_introl eq_refl)).
  destruct (body' s x) as [[c s']|]; cbn [bind]; [|reflexivity].
  destruct c; [|reflexivity]. apply IH. intros s0 x0 Hx0. apply H. now right.
Qed.

(** A loop that has left by [goto label_return] does not look at what
    follows. *)
Lemma for_each_stops {A S} (body : S -> A -> Result (Control * S))
      (l1 l2 : list A) :
  forall s s', for_each body l1 s = Ok (GotoReturn, s') ->
               for_each body (l1 ++ l2) s = Ok (GotoReturn, s').
Proof.
  induction l1 as [|x l1 IH]; intros s s'; cbn [for_each app]; [discriminate|].
  destruct (body s x) as [[c s1]|]; cbn [bind]; [|discriminate].
  destruct c; [apply IH | auto].
Qed.

Lemma firstn_add {A} (a b : nat) (l : list A) :
  firstn (a + b) l = firstn a l ++ firstn b (skipn a l).
Proof.
  revert l. induction a as [|a IH]; intros l; [reflexivity|].
  destruct l as [|x l]; cbn; [now rewrite firstn_nil|]. now rewrite IH.
Qed.

Lemma take_limit_all {A} (limit : nat) (l : list A) :
  length l <= limit -> take_limit limit l = l.
Proof.
  intros H. unfold take_limit. destruct (limit =? 0); [reflexivity|].
  now apply firstn_all2.
Qed.

Lemma split_every_unique {A} (k : nat) (rows : list A) (c1 c2 : list (list A)) :
  split_every k rows c1 -> split_every k rows c2 -> c1 = c2.
Proof.
  intros (_ & L1 & N1) (_ & L2 & N2).
  apply nth_ext with (d := []) (d' := []); [congruence|].
  intros i Hi. rewrite N1 by exact Hi. rewrite N2 by congruence. reflexivity.
Qed.

Lemma split_every_Forall {A} (Q : A -> Prop) (k : nat) (rows : list A)
      (chunks : list (list A)) :
  split_every k rows chunks -> Forall Q rows -> Forall (Forall Q) chunks.
Proof.
  intros (Hcat & _) H. subst rows.
  induction chunks as [|c chunks IH]; [constructor|].
  cbn [concat] in H. apply Forall_app in H. destruct H as [Hc H].
  constructor; [exact Hc | now apply IH].
Qed.

Lemma split_every_bound {A} (k : nat) (rows : list A) (chunks : list (list A)) :
  split_every k rows chunks -> 0 < k -> Forall (fun c => length c <= k) chunks.
Proof.
  intros (_ & _ & Hnth) Hk. apply Forall_forall. intros c Hc.
  apply (In_nth _ _ []) in Hc. destruct Hc as (i & Hi & <-).
  rewrite Hnth by exact Hi.
  destruct (k =? 0) eqn:K; [apply Nat.eqb_eq in K; lia|].
  rewrite length_firstn. lia.
Qed.

Lemma concat_uniform {A} (size : nat) (ls : list (list A)) :
  Forall (fun l => length l = size) ls ->
  length (concat ls) = length ls * size.
Proof.
  induction 1 as [|l ls Hl _ IH]; [reflexivity|].
  cbn [concat length]. rewrite length_app, Hl, IH. reflexivity.
Qed.

(* ----------------------------------------------------------------- *)
(** *** The names of the output files *)

Lemma decimal_inj (a b : nat) : decimal a = decimal b -> a = b.
Proof.
  unfold decimal. intros H.
  assert (Hnil : forall n, Nat.to_uint n <> Decimal.Nil).
  { intros n E. pose proof (DecimalNat.Unsigned.of_to n) as Hn.
    rewrite E in Hn. cbn in Hn. subst n. discriminate. }
  apply (f_equal DecimalString.NilZero.uint_of_string) in H.
  rewrite !DecimalString.NilZero.usu in H by apply Hnil.
  injection H as H. now apply DecimalNat.Unsigned.to_uint_inj.
Qed.

Lemma append_cancel_l (p a b : string) : (p ++ a = p ++ b)%string -> a = b.
Proof.
  induction p as [|c p IH]; cbn; [auto|]. intros H. injection H as H. auto.
Qed.

Lemma append_fixed (p s : string) : (p = p ++ s)%string -> s = "".
Proof.
  induction p as [|c p IH]; cbn; [auto|]. intros H. injection H as H. auto.
Qed.

Lemma export_path_inj (file_path : string) (i j : nat) :
  export_path file_path i = export_path file_path j -> i = j.
Proof.
  destruct i as [|i], j as [|j]; cbn [export_path]; unfold part_path; intros H.
  - reflexivity.
  - apply append_fixed in H. discriminate.
  - symmetry in H. apply append_fixed in H. discriminate.
  - apply append_cancel_l in H. cbn in H. injection H as H.
    now apply decimal_inj.
Qed.

Lemma export_paths_NoDup (file_path : string) (n : nat) :
  NoDup (map (export_path file_path) (seq 0 n)).
Proof.
  apply NoDup_map_NoDup_ForallPairs; [|apply seq_NoDup].
  intros i j _ _. apply export_path_inj.
Qed.

(* ----------------------------------------------------------------- *)
(** *** The bytes of the files of a text sink *)

Lemma text_files_whole (p : string) (head : list byte) (k : nat)
      (lines : list (list byte)) (chunks : list (list (list byte))) :
  split_every k lines chunks ->
  concat (map content (text_files p head chunks)) = head ++ concat lines.
Proof.
  intros Hs. rewrite text_files_content.
  - destruct Hs as (-> & _). reflexivity.
  - pose proof (split_every_nonempty Hs). destruct chunks; cbn in *; [lia|discriminate].
Qed.

Lemma text_files_sizes (p : string) (chunks : list (list (list byte))) :
  map (fun f => length (content f)) (text_files p [] chunks)
  = map (fun c => length (concat c)) chunks.
Proof.
  unfold text_files. rewrite map_map. cbn [content].
  transitivity
    (map (@length byte)
         (map (fun ic : nat * list (list byte) =>
                 (if fst ic =? 0 then [] else []) ++ concat (snd ic))
              (combine (seq 0 (length chunks)) chunks))).
  - rewrite map_map. reflexivity.
  - rewrite headless_contents, map_map. reflexivity.
Qed.

(* ----------------------------------------------------------------- *)
(** *** Exports that share their catalog *)

Section Same.
Context {collab : Collaborators}.
Variables a b : PhysicalExport.
Hypothesis Hdefs : column_defs a = column_defs b.

Lemma export_name_same (c : ColumnID) : export_name a c = export_name b c.
Proof. unfold export_name. rewrite Hdefs. reflexivity. Qed.

Lemma csv_header_same (columns : list ColumnID) :
  delimiter_ a = delimiter_ b -> csv_header a columns = csv_header b columns.
Proof.
  intros Hd. induction columns as [|c columns IH]; [reflexivity|].
  cbn [csv_header]. rewrite export_name_same, IH, Hd. reflexivity.
Qed.

Lemma jsonl_object_same (columns : list (ColumnID * ColumnVector)) (row_idx : nat) :
  forall line_json,
    jsonl_object a columns row_idx line_json
    = jsonl_object b columns row_idx line_json.
Proof.
  induction columns as [|[c cv] columns IH]; intros j; [reflexivity|].
  cbn [jsonl_object]. rewrite export_name_same.
  destruct (export_name b c); cbn [bind]; [|reflexivity].
  destruct (GetValue cv row_idx); cbn [bind]; [|reflexivity]. apply IH.
Qed.

End Same.

Section ScanFacts.
Context {collab : Collaborators}.

Lemma scan_ext (this : PhysicalExport)
      (materialize_block : SegmentID -> BlockEntry -> Result (list ColumnVector))
      (serialize serialize' : list ColumnVector -> nat -> Result (list byte))
      (head : list byte) :
  (forall column_vectors row_idx,
      serialize column_vectors row_idx = serialize' column_vectors row_idx) ->
  scan this materialize_block serialize head
  = scan this materialize_block serialize' head.
Proof.
  intros H. unfold scan.
  rewrite (@for_each_ext _ _ (export_segment this materialize_block serialize)
                         (export_segment this materialize_block serialize'));
    [reflexivity|].
  intros s [segment_id segment] _. cbn [export_segment].
  apply for_each_ext. intros s1 b _. unfold export_block.
  destruct (materialize_block segment_id b) as [cvs|]; cbn [bind]; [|reflexivity].
  apply for_each_ext. intros s2 i _. unfold export_row. rewrite H. reflexivity.
Qed.

Lemma scan_order_block (this : PhysicalExport) (r : RowRef) :
  In r (scan_order this) -> In (rr_block r) (all_blocks this).
Proof.
  unfold scan_order, all_blocks. intros H.
  apply in_flat_map in H. destruct H as (sg & Hsg & H).
  unfold segment_scan in H. apply in_flat_map in H. destruct H as (b & Hb & H).
  unfold block_scan in H. apply in_map_iff in H. destruct H as (i & <- & _).
  apply in_flat_map. exists sg. split; [exact Hsg | exact Hb].
Qed.

Lemma GetValue_In (cv : ColumnVector) (i : nat) (v : Value) :
  GetValue cv i = Ok v -> In v cv.
Proof.
  unfold GetValue. destruct (nth_error cv i) as [w|] eqn:E; [|discriminate].
  intros [= <-]. eapply nth_error_In. exact E.
Qed.

End ScanFacts.

(* ================================================================= *)
(** ** The lowering to arrow types *)

(** X1: the [switch] of [GetArrowType] and the [switch] of
    [BuildArrowArray] agree.  A column for which a builder is made has,
    in the schema, exactly the type of this builder; a column the
    schema accepts gets a builder, except a sparse column of single-bit
    elements, for which the builder step dereferences a null pointer;
    and a column the schema refuses is refused by the builder step with
    a fault of the same kind. *)
Theorem lowering_agrees (column_def : ColumnDef) :
  (forall builder,
      MakeArrayBuilder column_def = Ok builder ->
      GetArrowType column_def = Ok (builder_type builder)) /\
  (forall arrow_type,
      GetArrowType column_def = Ok arrow_type ->
      (exists builder, MakeArrayBuilder column_def = Ok builder) \/
      (type (column_type column_def) = kSparse /\
       (exists index dimension,
           type_info (column_type column_def) = SparseInfo kElemBit index dimension) /\
       MakeArrayBuilder column_def = Raise NullDereference)) /\
  (forall f,
      GetArrowType column_def = Raise f ->
      exists f', MakeArrayBuilder column_def = Raise f' /\
                 is_unrecoverable f' = is_unrecoverable f).
Proof.
  split; [intros builder; apply MakeArrayBuilder_type|].
  destruct column_def as [n [t info]].
  unfold GetArrowType, MakeArrayBuilder, as_SparseInfo, as_EmbeddingInfo.
  cbn [column_type type type_info].
  split.
  - intros a.
    destruct t; try discriminate; try (intros _; left; eexists; reflexivity).
    all: destruct info as [|e d|e i d]; cbn [bind]; try discriminate.
    all: try (destruct e; cbn [embedding_element_builder embedding_elem_type bind];
              try discriminate; intros _; left; eexists; reflexivity).
    destruct i; cbn [sparse_index_builder sparse_index_type bind]; try discriminate;
      destruct e; cbn [sparse_value_builder sparse_value_type deref_type bind];
      try discriminate; intros _;
      try (left; eexists; reflexivity);
      right; (split; [reflexivity|]; split; [do 2 eexists; reflexivity | reflexivity]).
  - intros f.
    destruct t; try discriminate; try (intros [= <-]; eexists; split; reflexivity).
    all: destruct info as [|e d|e i d]; cbn [bind];
      try (intros [= <-]; eexists; split; reflexivity).
    all: try (destruct e; cbn [embedding_element_builder embedding_elem_type bind];
              try discriminate; intros [= <-]; eexists; split; reflexivity).
    destruct i; cbn [sparse_index_builder sparse_index_type bind];
      try (intros [= <-]; eexists; split; reflexivity);
      destruct e; cbn [sparse_value_builder sparse_value_type deref_type bind];
      try discriminate; intros [= <-]; eexists; split; reflexivity.
Qed.

Lemma lowering_agrees_witness :
  let tensors := {| name := "t";
                    column_type := {| type := kTensorArray;
                                      type_info := EmbeddingInfo kElemUInt8 4 |} |} in
  GetArrowType tensors = Ok (list_ (list_ (fixed_size_list uint8 4))) /\
  (exists f', MakeArrayBuilder (scalar_column "u" kUuid) = Raise f' /\
              is_unrecoverable f' = true).
Proof.
  cbv zeta. split.
  - destruct (lowering_agrees
                {| name := "t";
                   column_type := {| type := kTensorArray;
                                     type_info := EmbeddingInfo kElemUInt8 4 |} |})
      as (H & _).
    exact (H _ eq_refl).
  - destruct (lowering_agrees (scalar_column "u" kUuid)) as (_ & _ & H).
    exact (H _ eq_refl).
Defined.

(** X2: the branches marked "Unreachable code!" at the end of the
    vector cases of [GetArrowType] and [BuildArrowArray] are never
    taken, whatever the column definition. *)
Theorem unreachable_code_never_raised (column_def : ColumnDef) :
  GetArrowType column_def <> Raise (UnrecoverableError "Unreachable code!") /\
  MakeArrayBuilder column_def <> Raise (UnrecoverableError "Unreachable code!").
Proof.
  destruct column_def as [n [t info]].
  unfold GetArrowType, MakeArrayBuilder, as_SparseInfo, as_EmbeddingInfo.
  cbn [column_type type type_info].
  split.
  - destruct t; try discriminate.
    all: destruct info as [|e d|e i d]; cbn [bind]; try discriminate.
    all: try (destruct e; cbn [embedding_elem_type bind]; discriminate).
    destruct i; cbn [sparse_index_type bind]; try discriminate;
      destruct e; cbn [sparse_value_type bind]; discriminate.
  - destruct t; try discriminate.
    all: destruct info as [|e d|e i d]; cbn [bind]; try discriminate.
    all: try (destruct e; cbn [embedding_element_builder bind]; discriminate).
    destruct i; cbn [sparse_index_builder bind]; try discriminate;
      destruct e; cbn [sparse_value_builder deref_type bind]; discriminate.
Qed.

(* ================================================================= *)
(** ** The record batches of a parquet export *)

Section BatchFacts.
Context {collab : Collaborators}.
Variable this : PhysicalExport.
Variable fields : list (string * ArrowType).
Hypothesis Hfields : schema_fields this = Ok fields.

Lemma arrays_fit (rows : list nat) (columns : list ColumnID) :
  forall (column_vectors : list ColumnVector) (fs : list (string * ArrowType))
         (arrays : list ArrowArray),
    length column_vectors = length columns ->
    mapM (fun column_id =>
            column_def <- index (column_defs this) column_id ;;
            arrow_type <- GetArrowType column_def ;;
            Ok (name column_def, arrow_type)) columns = Ok fs ->
    mapM (fun '(select_column_idx, column_vector) =>
            column_def <- index (column_defs this) select_column_idx ;;
            BuildArrowArray column_def column_vector rows)
         (combine columns column_vectors) = Ok arrays ->
    Forall2 (fun field a => builder_type (array_builder a) = snd field /\
                            length (array_values a) = length rows) fs arrays.
Proof.
  induction columns as [|c columns IH]; intros cvs fs arrays Hlen Hfs Harr.
  - destruct cvs; [|discriminate]. cbn in Hfs, Harr.
    injection Hfs as <-. injection Harr as <-. constructor.
  - destruct cvs as [|cv cvs]; [discriminate|]. cbn [length] in Hlen.
    cbn [mapM combine] in Hfs, Harr.
    destruct (index (column_defs this) c) as [cd|]; cbn [bind] in Hfs, Harr;
      [|discriminate].
    destruct (GetArrowType cd) as [t|] eqn:Ht; cbn [bind] in Hfs; [|discriminate].
    match type of Hfs with
    | context [mapM ?f columns] => destruct (mapM f columns) as [fs'|] eqn:Hfs'
    end; cbn [bind] in Hfs; [|discriminate].
    injection Hfs as <-.
    unfold BuildArrowArray in Harr.
    destruct (MakeArrayBuilder cd) as [b|] eqn:Hb; cbn [bind] in Harr; [|discriminate].
    destruct (mapM (GetValue cv) rows) as [vs|] eqn:Hvs; cbn [bind] in Harr;
      [|discriminate].
    match type of Harr with
    | context [mapM ?g (combine columns cvs)] =>
        destruct (mapM g (combine columns cvs)) as [arrays'|] eqn:Harr'
    end; cbn [bind] in Harr; [|discriminate].
    injection Harr as <-.
    constructor.
    + cbn [array_builder array_values snd]. split.
      * apply MakeArrayBuilder_type in Hb. congruence.
      * apply (mapM_length _ _ Hvs).
    + apply (IH cvs); [lia | reflexivity | exact Harr'].
Qed.

Lemma open_next_writer_fits (st : ParquetState) :
  writers_fit fields st -> writers_fit fields (open_next_writer this fields st).
Proof.
  unfold writers_fit, open_next_writer. cbn [closed_writers file_writer].
  intros H. apply Forall_app. split; [exact H|].
  constructor; [|constructor]. split; [reflexivity | constructor].
Qed.

Lemma write_batch_fits (column_vectors : list ColumnVector) (rows : list nat)
      (need : bool) (st st' : ParquetState) :
  rows <> [] ->
  length column_vectors = length (select_columns this) ->
  writers_fit fields st ->
  write_batch this fields column_vectors rows need st = Ok st' ->
  writers_fit fields st'.
Proof.
  intros Hrows Hlen Hst. unfold write_batch.
  set (st1 := if switch_to_new_file st then open_next_writer this fields st else st).
  assert (Hst1 : writers_fit fields st1).
  { unfold st1. destruct (switch_to_new_file st); [|exact Hst].
    now apply open_next_writer_fits. }
  clearbody st1.
  match goal with
  | |- context [mapM ?g ?l] => destruct (mapM g l) as [arrays|] eqn:Harr
  end; cbn [bind]; [|discriminate].
  intros [= <-]. unfold writers_fit in *. cbn [closed_writers file_writer].
  apply Forall_app in Hst1. destruct Hst1 as [Hclosed Hcur].
  apply Forall_app. split; [exact Hclosed|].
  constructor; [|constructor].
  apply Forall_inv in Hcur. destruct Hcur as [Hschema Hbatches].
  split; [exact Hschema|]. cbn [record_batches].
  apply Forall_app. split; [exact Hbatches|].
  constructor; [|constructor]. split; cbn [num_rows block_arrays].
  - destruct rows; [congruence | cbn; lia].
  - unfold schema_fields in Hfields.
    exact (arrays_fit rows (select_columns this) column_vectors Hlen Hfields Harr).
Qed.

(** The inner loop of [consume_block] writes nothing. *)
Lemma collect_rows_writers (filter : SegmentOffset -> bool) (seg_off : SegmentOffset)
      (rows : list nat) :
  forall acc st,
    let st' := snd (fst (collect_rows this filter seg_off rows acc st)) in
    closed_writers st' = closed_writers st /\
    file_writer st' = file_writer st.
Proof.
  induction rows as [|r rows IH]; intros acc st; cbn [collect_rows].
  - cbn. split; reflexivity.
  - destruct (negb (filter (seg_off + r))); [apply IH|].
    destruct (0 <? pq_offset st).
    { cbv zeta. match goal with
      | |- context [collect_rows _ _ _ rows acc ?s] =>
          destruct (IH acc s) as [H1 H2]
      end. split; [exact H1 | exact H2]. }
    match goal with
    | |- context [if ?b then _ else _] => destruct b; [cbn; split; reflexivity|]
    end.
    match goal with
    | |- context [if ?b then _ else _] => destruct b; [cbn; split; reflexivity|]
    end.
    cbv zeta. match goal with
    | |- context [collect_rows _ _ _ rows ?a ?s] =>
        destruct (IH a s) as [H1 H2]
    end. split; [exact H1 | exact H2].
Qed.

Lemma consume_loop_fits (column_vectors : list ColumnVector)
      (filter : SegmentOffset -> bool) (seg_off : SegmentOffset) (fuel : nat) :
  length column_vectors = length (select_columns this) ->
  forall rows st go st',
    writers_fit fields st ->
    consume_loop this fields column_vectors filter seg_off fuel rows st = Ok (go, st') ->
    writers_fit fields st'.
Proof.
  intros Hlen. induction fuel as [|fuel IH]; intros rows st go st' Hst.
  - destruct rows; cbn [consume_loop]; [|discriminate]. intros [= _ <-]. exact Hst.
  - destruct rows as [|r rows]; cbn [consume_loop]; [intros [= _ <-]; exact Hst|].
    pose proof (collect_rows_writers filter seg_off (r :: rows) [] st) as Hw.
    destruct (collect_rows this filter seg_off (r :: rows) [] st)
      as [[[acc need] st1] rest].
    cbn [fst snd] in Hw. destruct Hw as [Hw1 Hw2].
    assert (Hst1 : writers_fit fields st1).
    { unfold writers_fit in *. rewrite Hw1, Hw2. exact Hst. }
    destruct acc as [|a acc]; [apply IH; exact Hst1|].
    destruct (write_batch this fields column_vectors (a :: acc) need st1)
      as [st2|] eqn:Hwb; cbn [bind]; [|discriminate].
    assert (Hst2 : writers_fit fields st2).
    { eapply write_batch_fits; [| exact Hlen | exact Hst1 | exact Hwb]. discriminate. }
    destruct (pq_row_count st2 =? limit_ this); [intros [= _ <-]; exact Hst2|].
    apply IH. exact Hst2.
Qed.

Lemma parquet_block_fits (segment_id : SegmentID) (filter : SegmentOffset -> bool)
      (st : ParquetState) (b : BlockEntry) (c : Control) (st' : ParquetState) :
  writers_fit fields st ->
  parquet_block this fields segment_id filter st b = Ok (c, st') ->
  writers_fit fields st'.
Proof.
  intros Hst. unfold parquet_block.
  destruct (materialize (select_columns this) segment_id b) as [cvs|] eqn:Hm;
    cbn [bind]; [|discriminate].
  apply mapM_length in Hm.
  unfold consume_block.
  match goal with
  | |- context [consume_loop ?t ?f ?cv ?v ?o ?fu ?r ?s] =>
      destruct (consume_loop t f cv v o fu r s) as [[go st1]|] eqn:Hc
  end; cbn [bind]; [|discriminate].
  apply (consume_loop_fits _ _ _ _ Hm) in Hc; [|exact Hst].
  destruct go; intros [= _ <-]; exact Hc.
Qed.

Lemma parquet_run_fits (st : ParquetState) (c : Control) (st' : ParquetState) :
  writers_fit fields st ->
  for_each (parquet_segment this fields) (block_index_ this) st = Ok (c, st') ->
  writers_fit fields st'.
Proof.
  apply for_each_invariant.
  intros s [segment_id segment] c1 s1 _ Hs. cbn [parquet_segment].
  apply for_each_invariant; [|exact Hs].
  intros s2 b c2 s3 _ Hs2. now apply parquet_block_fits.
Qed.

End BatchFacts.

(** X3: what a parquet export writes fits its schema.  The schema has
    one field per selected column, named as the catalog names the
    column and typed by [GetArrowType]; every file, the base file and
    each part, is opened with this schema; and every record batch
    written has at least one row and one array per field, built by a
    builder of the field's type and holding one value per row of the
    batch. *)
Theorem parquet_batches_fit_schema {collab : Collaborators} (this : PhysicalExport) :
  parquet_exportable this = true ->
  exists fields files,
    schema_fields this = Ok fields /\
    Forall2 (fun c field =>
               exists column_def,
                 index (column_defs this) c = Ok column_def /\
                 fst field = name column_def /\
                 GetArrowType column_def = Ok (snd field))
            (select_columns this) fields /\
    ExportToPARQUET this = Ok (length (exported_rows this), files) /\
    Forall (file_fits fields) files.
Proof.
  intros H. destruct (parquet_spec this H) as (files & E & _).
  destruct (schema_fields this) as [fields|] eqn:Hfields.
  2:{ unfold ExportToPARQUET in E. rewrite Hfields in E. discriminate. }
  exists fields, files. split; [reflexivity|]. split; [|split; [exact E|]].
  - unfold schema_fields in Hfields. apply mapM_Forall2 in Hfields.
    eapply Forall2_impl; [|exact Hfields]. cbn. intros c field Hc.
    destruct (index (column_defs this) c) as [cd|]; cbn [bind] in Hc; [|discriminate].
    destruct (GetArrowType cd) as [t|] eqn:Ht; cbn [bind] in Hc; [|discriminate].
    injection Hc as <-. exists cd. repeat split. exact Ht.
  - unfold ExportToPARQUET in E. rewrite Hfields in E. cbn [bind] in E.
    match type of E with
    | context [for_each ?body ?l ?s] =>
        destruct (for_each body l s) as [[c st]|] eqn:Hrun
    end; cbn [bind] in E; [|discriminate].
    injection E as _ <-.
    apply (parquet_run_fits this Hfields) in Hrun; [exact Hrun|].
    unfold writers_fit. cbn [closed_writers file_writer app].
    constructor; [|constructor]. split; [reflexivity | constructor].
Qed.

Lemma parquet_batches_fit_schema_witness :
  let this := Sample.id_name_export kPARQUET [] true 0 0 2 Sample.all_visible in
  exists files,
    ExportToPARQUET this = Ok (3, files) /\
    Forall (file_fits [("id", int32); ("name", utf8)]) files.
Proof.
  cbv zeta.
  destruct (@parquet_batches_fit_schema Sample.collaborators
              (Sample.id_name_export kPARQUET [] true 0 0 2 Sample.all_visible)
              eq_refl)
    as (fields & files & Hf & _ & E & Hfit).
  vm_compute in Hf. injection Hf as <-.
  exists files. split; [exact E | exact Hfit].
Defined.

(* ================================================================= *)
(** ** The dispatcher *)

(** X4: [Execute] runs the sink of [file_type_] and reports its row
    count: for an export that runs to completion the result message is
    "EXPORT n Rows" where [n] is the number of visible rows left after
    the offset and the limit.  A file type without a case is refused
    with an unrecoverable fault. *)
Theorem Execute_reports_exported_rows {collab : Collaborators} (this : PhysicalExport) :
  let n := length (exported_rows this) in
  let reported := Ok (n, ("EXPORT " ++ decimal n ++ " Rows")%string) in
  (file_type_ this = kCSV -> text_exportable this = true ->
   Execute this = reported) /\
  (file_type_ this = kJSONL -> text_exportable this = true ->
   Execute this = reported) /\
  (file_type_ this = kFVECS -> fvecs_exportable this = true ->
   Execute this = reported) /\
  (file_type_ this = kPARQUET -> parquet_exportable this = true ->
   Execute this = reported) /\
  (file_type_ this = kOther ->
   Execute this = Raise (UnrecoverableError "Not supported file type")).
Proof.
  cbv zeta. split; [|split; [|split; [|split]]].
  - intros Ht H. apply Execute_reports. rewrite Ht.
    destruct (ExportToCSV_spec this H) as (h & ls & cs & _ & _ & E & _).
    eexists. exact E.
  - intros Ht H. apply Execute_reports. rewrite Ht.
    destruct (ExportToJSONL_spec this H) as (ls & cs & _ & E & _).
    eexists. exact E.
  - intros Ht H. apply Execute_reports. rewrite Ht.
    destruct (ExportToFVECS_spec this H) as (c & dim & ls & cs & _ & _ & E & _).
    eexists. exact E.
  - intros Ht H. apply Execute_reports. rewrite Ht.
    destruct (parquet_spec this H) as (files & E & _).
    eexists. exact E.
  - intros Ht. unfold Execute. rewrite Ht. reflexivity.
Qed.

Lemma Execute_reports_exported_rows_witness :
  Execute (Sample.id_name_export kCSV [] true 1 0 0 Sample.all_visible)
  = Ok (2, "EXPORT 2 Rows") /\
  Execute (Sample.id_name_export kOther [] true 1 0 0 Sample.all_visible)
  = Raise (UnrecoverableError "Not supported file type").
Proof.
  split.
  - destruct (@Execute_reports_exported_rows Sample.collaborators
                (Sample.id_name_export kCSV [] true 1 0 0 Sample.all_visible))
      as (H & _).
    exact (H eq_refl eq_refl).
  - destruct (@Execute_reports_exported_rows Sample.collaborators
                (Sample.id_name_export kOther [] true 1 0 0 Sample.all_visible))
      as (_ & _ & _ & _ & H).
    exact (H eq_refl).
Defined.

(* ================================================================= *)
(** ** The output files *)

(** X5: the files of an export have pairwise distinct paths, so no
    part file is opened over the base file or over another part. *)
Theorem export_paths_distinct {collab : Collaborators} (this : PhysicalExport) :
  (text_exportable this = true ->
   exists n files, ExportToCSV this = Ok (n, files) /\ NoDup (map path files)) /\
  (text_exportable this = true ->
   exists n files, ExportToJSONL this = Ok (n, files) /\ NoDup (map path files)) /\
  (fvecs_exportable this = true ->
   exists n files, ExportToFVECS this = Ok (n, files) /\ NoDup (map path files)) /\
  (parquet_exportable this = true ->
   exists n files, ExportToPARQUET this = Ok (n, files) /\
                   NoDup (map output_file_path files)).
Proof.
  split; [|split; [|split]].
  - intros H. destruct (ExportToCSV_spec this H) as (h & ls & cs & _ & _ & E & _).
    do 2 eexists. split; [exact E|].
    rewrite text_files_paths. apply export_paths_NoDup.
  - intros H. destruct (ExportToJSONL_spec this H) as (ls & cs & _ & E & _).
    do 2 eexists. split; [exact E|].
    rewrite text_files_paths. apply export_paths_NoDup.
  - intros H.
    destruct (ExportToFVECS_spec this H) as (c & dim & ls & cs & _ & _ & E & _).
    do 2 eexists. split; [exact E|].
    rewrite text_files_paths. apply export_paths_NoDup.
  - intros H. destruct (parquet_spec this H) as (files & E & Hp & _).
    do 2 eexists. split; [exact E|]. rewrite Hp. apply export_paths_NoDup.
Qed.

Lemma export_paths_distinct_witness :
  let this := Sample.id_name_export kJSONL [] true 0 0 1 Sample.all_visible in
  exists files,
    ExportToJSONL this = Ok (3, files) /\
    map path files = ["/tmp/t.out"; "/tmp/t.out.part1"; "/tmp/t.out.part2"]%string /\
    NoDup (map path files).
Proof.
  cbv zeta.
  destruct (@export_paths_distinct Sample.collaborators
              (Sample.id_name_export kJSONL [] true 0 0 1 Sample.all_visible))
    as (_ & H & _).
  destruct (H eq_refl) as (n & files & E & Hd).
  pose proof E as E'. vm_compute in E'. injection E' as <- <-.
  eexists. split; [exact E|]. split; [reflexivity | exact Hd].
Defined.

(* ================================================================= *)
(** ** The column list *)

Section ColumnFacts.
Context {collab : Collaborators}.
Variable this : PhysicalExport.
Variable columns : list ColumnID.
Hypothesis Hsel : select_columns (with_columns this columns) = select_columns this.

Lemma ExportToCSV_columns :
  ExportToCSV (with_columns this columns) = ExportToCSV this.
Proof.
  unfold ExportToCSV. cbv zeta.
  rewrite Hsel, (@csv_header_same _ (with_columns this columns) this eq_refl _ eq_refl).
  reflexivity.
Qed.

Lemma ExportToJSONL_columns :
  ExportToJSONL (with_columns this columns) = ExportToJSONL this.
Proof.
  unfold ExportToJSONL. cbv zeta. rewrite Hsel.
  transitivity
    (scan this (materialize (select_columns this))
          (fun column_vectors row_idx =>
             line_json <- jsonl_object (with_columns this columns)
                            (combine (select_columns this) column_vectors)
                            row_idx json_null ;;
             Ok (bytes (json_dump line_json ++ LF)%string)) []);
    [reflexivity|].
  apply scan_ext. intros cvs i.
  rewrite (@jsonl_object_same _ (with_columns this columns) this eq_refl).
  reflexivity.
Qed.

Lemma write_batch_columns fields column_vectors rows need st :
  write_batch (with_columns this columns) fields column_vectors rows need st
  = write_batch this fields column_vectors rows need st.
Proof. unfold write_batch. rewrite Hsel. reflexivity. Qed.

Lemma consume_loop_columns fields column_vectors filter seg_off (fuel : nat) :
  forall rows st,
    consume_loop (with_columns this columns) fields column_vectors filter seg_off
                 fuel rows st
    = consume_loop this fields column_vectors filter seg_off fuel rows st.
Proof.
  induction fuel as [|fuel IH]; intros rows st; [reflexivity|].
  destruct rows as [|r rows]; [reflexivity|].
  cbn [consume_loop].
  change (collect_rows (with_columns this columns) filter seg_off (r :: rows) [] st)
    with (collect_rows this filter seg_off (r :: rows) [] st).
  destruct (collect_rows this filter seg_off (r :: rows) [] st)
    as [[[acc need] st1] rest].
  destruct acc as [|a acc]; [apply IH|].
  rewrite write_batch_columns.
  destruct (write_batch this fields column_vectors (a :: acc) need st1) as [st2|];
    cbn [bind]; [|reflexivity].
  change (limit_ (with_columns this columns)) with (limit_ this).
  destruct (pq_row_count st2 =? limit_ this); [reflexivity|]. apply IH.
Qed.

Lemma ExportToPARQUET_columns :
  ExportToPARQUET (with_columns this columns) = ExportToPARQUET this.
Proof.
  unfold ExportToPARQUET.
  assert (Hschema : schema_fields (with_columns this columns) = schema_fields this).
  { unfold schema_fields. rewrite Hsel. reflexivity. }
  rewrite Hschema. destruct (schema_fields this) as [fields|]; cbn [bind];
    [|reflexivity].
  change (block_index_ (with_columns this columns)) with (block_index_ this).
  rewrite (@for_each_ext _ _ (parquet_segment (with_columns this columns) fields)
                         (parquet_segment this fields)); [reflexivity|].
  intros s [segment_id segment] _. cbn [parquet_segment].
  apply for_each_ext. intros s1 b _. unfold parquet_block. rewrite Hsel.
  destruct (materialize (select_columns this) segment_id b) as [cvs|];
    cbn [bind]; [|reflexivity].
  unfold consume_block. rewrite consume_loop_columns. reflexivity.
Qed.

End ColumnFacts.

Lemma select_columns_all {collab : Collaborators} (this : PhysicalExport) :
  column_idx_array_ this = [] ->
  select_columns (with_columns this (all_columns this)) = select_columns this.
Proof.
  intros H. unfold select_columns, all_columns.
  cbn [column_idx_array_ column_defs with_columns]. rewrite H.
  destruct (map N.of_nat (seq 0 (length (column_defs this)))); reflexivity.
Qed.

(** X6: an empty column list stands for every column of the table, in
    catalog order: the text, line-json and parquet exports give the
    same outcome as with all the positions listed.  The raw-vector
    export has no such default and refuses an empty column list. *)
Theorem default_column_list {collab : Collaborators} (this : PhysicalExport) :
  column_idx_array_ this = [] ->
  let listed := with_columns this (all_columns this) in
  ExportToCSV this = ExportToCSV listed /\
  ExportToJSONL this = ExportToJSONL listed /\
  ExportToPARQUET this = ExportToPARQUET listed /\
  ExportToFVECS this
  = Raise (UnrecoverableError
             "Only one column with embedding data type can be exported as FVECS file").
Proof.
  intros H. cbv zeta. pose proof (select_columns_all this H) as Hsel.
  split; [symmetry; now apply ExportToCSV_columns|].
  split; [symmetry; now apply ExportToJSONL_columns|].
  split; [symmetry; now apply ExportToPARQUET_columns|].
  unfold ExportToFVECS, fvecs_check. rewrite H. reflexivity.
Qed.

Lemma default_column_list_witness :
  let this := Sample.id_name_export kCSV [] true 0 0 0 Sample.all_visible in
  ExportToCSV this = ExportToCSV (with_columns this [0%N; 1%N]) /\
  exists message, ExportToFVECS this = Raise (UnrecoverableError message).
Proof.
  cbv zeta.
  destruct (@default_column_list Sample.collaborators
              (Sample.id_name_export kCSV [] true 0 0 0 Sample.all_visible) eq_refl)
    as (Hcsv & _ & _ & Hfvecs).
  split; [exact Hcsv | eexists; exact Hfvecs].
Defined.

(* ================================================================= *)
(** ** The lines of a line-json export *)

Section JsonFacts.
Context {collab : Collaborators}.



End JsonFacts.



(* ================================================================= *)
(** ** The raw-vector export *)

Lemma fvecs_check_column {collab : Collaborators} (this : PhysicalExport)
      (c c' : ColumnID) (dimension : N) :
  column_idx_array_ this = [c] -> fvecs_check this = Ok (c', dimension) -> c' = c.
Proof.
  unfold fvecs_check. intros ->.
  destruct (index (column_defs this) c) as [cd|]; cbn [bind]; [|discriminate].
  destruct (type (column_type cd)); try discriminate.
  destruct (as_EmbeddingInfo (column_type cd)) as [[e d]|]; cbn [bind]; [|discriminate].
  destruct e; try discriminate. intros [= <- _]. reflexivity.
Qed.

(** X8: when every embedding of the exported column has [size] bytes,
    each file of a raw-vector export is a whole number of records of
    [4 + size] bytes: a split never cuts a record, the number of rows
    of a file is its size divided by the record size, the rows of the
    files add up to the row count returned, and with a per-file limit
    no file has more rows than the limit. *)
Theorem fvecs_files_whole_records {collab : Collaborators} (this : PhysicalExport)
        (c : ColumnID) (size : nat) :
  fvecs_exportable this = true ->
  column_idx_array_ this = [c] ->
  (forall b v, In b (all_blocks this) -> In v (GetConstColumnVector b c) ->
               length (GetEmbedding v) = size) ->
  exists files rows_per_file,
    ExportToFVECS this = Ok (list_sum rows_per_file, files) /\
    map (fun f => length (content f)) files
    = map (fun rows => rows * (4 + size)) rows_per_file /\
    (0 < row_limit_ this ->
     Forall (fun rows => rows <= row_limit_ this) rows_per_file).
Proof.
  intros H Hc Hsize.
  destruct (ExportToFVECS_spec this H) as (c' & dim & ls & cs & Hcheck & Hl & E & Hs).
  pose proof (fvecs_check_column this Hc Hcheck) as ->.
  assert (Hgen : forall rows lines,
             Forall2 (fun r line => fvecs_row c dim r = Ok line) rows lines ->
             Forall (fun r => In r (scan_order this)) rows ->
             Forall (fun line => length line = 4 + size) lines).
  { induction 1 as [|r line rows lines Hr _ IH]; intros Hin; [constructor|].
    pose proof (Forall_inv Hin) as Hr'. pose proof (Forall_inv_tail Hin) as Hin'.
    constructor; [|exact (IH Hin')].
    apply fvecs_row_value in Hr. destruct Hr as (v & Hv & ->).
    unfold fvecs_record. rewrite length_app.
    destruct (i32_bytes_little_endian dim) as [-> _]. f_equal.
    apply (Hsize (rr_block r)); [now apply scan_order_block|].
    eapply GetValue_In. exact Hv. }
  assert (Hlines : Forall (fun line => length line = 4 + size) ls).
  { apply (Hgen _ _ Hl). apply Forall_forall. intros r.
    apply exported_rows_scanned. }
  exists (text_files (file_path_ this) [] cs), (map (@length _) cs).
  split; [|split].
  - rewrite E. f_equal. f_equal.
    rewrite <- length_concat. destruct Hs as (-> & _).
    apply (Forall2_length Hl).
  - rewrite text_files_sizes, map_map. apply map_ext_Forall.
    pose proof (split_every_Forall Hs Hlines) as Hcs.
    eapply Forall_impl; [|exact Hcs]. cbn. intros chunk Hchunk.
    now apply concat_uniform.
  - intros Hk. apply Forall_map. now apply (split_every_bound Hs).
Qed.

Lemma fvecs_files_whole_records_witness :
  exists files,
    ExportToFVECS (Sample.vec_export (Sample.vec_defs kElemFloat) [0%N])
    = Ok (2, files) /\
    map (fun f => length (content f)) files = [24].
Proof.
  destruct (@fvecs_files_whole_records Sample.collaborators
              (Sample.vec_export (Sample.vec_defs kElemFloat) [0%N]) 0%N 8
              eq_refl eq_refl)
    as (files & rows_per_file & E & Hsizes & _).
  - intros b v [<-|[]] [<-|[<-|[]]]; reflexivity.
  - exists files. vm_compute in E. injection E as Hn <-.
    split; [reflexivity|]. reflexivity.
Defined.

(** X9: the raw-vector export indexes [column_defs] with its one
    selector without any check (line 405): a selector that is not a
    position of [column_defs], as the selectors of the virtual columns
    are, is an out-of-bounds access before any type check and before
    the file is opened. *)
Theorem fvecs_selector_unchecked {collab : Collaborators} (this : PhysicalExport)
        (c : ColumnID) :
  column_idx_array_ this = [c] ->
  (N.of_nat (length (column_defs this)) <= c)%N ->
  ExportToFVECS this = Raise OutOfBounds.
Proof.
  intros Hc Hb. unfold ExportToFVECS, fvecs_check. rewrite Hc.
  rewrite index_out_of_bounds by exact Hb. reflexivity.
Qed.

Lemma fvecs_selector_unchecked_witness :
  ExportToFVECS (Sample.vec_export (Sample.vec_defs kElemFloat) [(2 ^ 64 - 1)%N])
  = Raise OutOfBounds.
Proof.
  apply (@fvecs_selector_unchecked Sample.collaborators
           (Sample.vec_export (Sample.vec_defs kElemFloat) [(2 ^ 64 - 1)%N])
           (2 ^ 64 - 1)%N eq_refl).
  cbn. discriminate.
Defined.

(* ================================================================= *)
(** ** Offset and limit *)

Section WindowFacts.
Context {collab : Collaborators}.
Variable this : PhysicalExport.

Lemma exported_rows_window (o l : nat) :
  exported_rows (with_window this o l)
  = take_limit l (skipn o (visible_rows this)).
Proof. reflexivity. Qed.

Lemma windows_adjacent (o l1 l2 : nat) :
  0 < l1 -> 0 < l2 ->
  exported_rows (with_window this o (l1 + l2))
  = exported_rows (with_window this o l1)
    ++ exported_rows (with_window this (o + l1) l2).
Proof.
  intros H1 H2. rewrite !exported_rows_window. unfold take_limit.
  destruct (l1 + l2 =? 0) eqn:E12; [apply Nat.eqb_eq in E12; lia|].
  destruct (l1 =? 0) eqn:E1; [apply Nat.eqb_eq in E1; lia|].
  destruct (l2 =? 0) eqn:E2; [apply Nat.eqb_eq in E2; lia|].
  rewrite firstn_add, skipn_skipn. f_equal. f_equal. f_equal. lia.
Qed.

Lemma exported_rows_unlimited :
  length (visible_rows this) - offset_ this <= limit_ this ->
  exported_rows (with_window this (offset_ this) 0) = exported_rows this.
Proof.
  intros H. rewrite exported_rows_window. unfold exported_rows.
  rewrite (@take_limit_all _ (limit_ this)) by (rewrite length_skipn; exact H).
  reflexivity.
Qed.

Lemma jsonl_row_window (o l : nat) (r : RowRef) :
  jsonl_row (with_window this o l) r = jsonl_row this r.
Proof.
  unfold jsonl_row, row_bytes.
  change (select_columns (with_window this o l)) with (select_columns this).
  destruct (materialize (select_columns this) (rr_segment_id r) (rr_block r));
    cbn [bind]; [|reflexivity].
  rewrite (@jsonl_object_same _ (with_window this o l) this eq_refl). reflexivity.
Qed.

Lemma jsonl_rows_window (o l : nat) (rows : list RowRef) (lines : list (list byte)) :
  Forall2 (fun r line => jsonl_row (with_window this o l) r = Ok line) rows lines ->
  Forall2 (fun r line => jsonl_row this r = Ok line) rows lines.
Proof.
  intros H. eapply Forall2_impl; [|exact H].
  cbn. intros r line Hr. rewrite jsonl_row_window in Hr. exact Hr.
Qed.

End WindowFacts.

(** X10: consecutive windows compose.  An export of [l1] rows from
    offset [o] followed by an export of [l2] rows from offset [o + l1]
    writes what one export of [l1 + l2] rows from offset [o] writes:
    the row counts add up and the bytes (for parquet, the rows) of the
    second follow those of the first.  Paging through a table exports
    every visible row once. *)
Theorem windows_compose {collab : Collaborators} (this : PhysicalExport)
        (o l1 l2 : nat) :
  0 < l1 -> 0 < l2 ->
  let first := with_window this o l1 in
  let second := with_window this (o + l1) l2 in
  let both := with_window this o (l1 + l2) in
  (text_exportable this = true -> header_ this = false ->
   exists n1 f1 n2 f2 f,
     ExportToCSV first = Ok (n1, f1) /\
     ExportToCSV second = Ok (n2, f2) /\
     ExportToCSV both = Ok (n1 + n2, f) /\
     concat (map content f) = concat (map content f1) ++ concat (map content f2)) /\
  (text_exportable this = true ->
   exists n1 f1 n2 f2 f,
     ExportToJSONL first = Ok (n1, f1) /\
     ExportToJSONL second = Ok (n2, f2) /\
     ExportToJSONL both = Ok (n1 + n2, f) /\
     concat (map content f) = concat (map content f1) ++ concat (map content f2)) /\
  (fvecs_exportable this = true ->
   exists n1 f1 n2 f2 f,
     ExportToFVECS first = Ok (n1, f1) /\
     ExportToFVECS second = Ok (n2, f2) /\
     ExportToFVECS both = Ok (n1 + n2, f) /\
     concat (map content f) = concat (map content f1) ++ concat (map content f2)) /\
  (parquet_exportable this = true ->
   exists n1 f1 n2 f2 f,
     ExportToPARQUET first = Ok (n1, f1) /\
     ExportToPARQUET second = Ok (n2, f2) /\
     ExportToPARQUET both = Ok (n1 + n2, f) /\
     flat_map parquet_rows f
     = flat_map parquet_rows f1 ++ flat_map parquet_rows f2).
Proof.
  intros H1 H2. cbv zeta.
  pose proof (windows_adjacent this o H1 H2) as Hrows.
  split; [|split; [|split]].
  - intros H Hh.
    destruct (ExportToCSV_spec (with_window this o l1) H)
      as (h1 & ls1 & cs1 & Hh1 & Hl1 & E1 & Hs1).
    destruct (ExportToCSV_spec (with_window this (o + l1) l2) H)
      as (h2 & ls2 & cs2 & Hh2 & Hl2 & E2 & Hs2).
    destruct (ExportToCSV_spec (with_window this o (l1 + l2)) H)
      as (h & ls & cs & Hh0 & Hl & E & Hs).
    change (header_ (with_window this o l1)) with (header_ this) in Hh1.
    change (header_ (with_window this (o + l1) l2)) with (header_ this) in Hh2.
    change (header_ (with_window this o (l1 + l2))) with (header_ this) in Hh0.
    rewrite Hh in Hh1, Hh2, Hh0. subst h1 h2 h.
    rewrite Hrows in Hl, E.
    pose proof (adjacent_lines (csv_row this) Hl1 Hl2 Hl) as ->.
    rewrite length_app in E.
    do 5 eexists. split; [exact E1|]. split; [exact E2|]. split; [exact E|].
    rewrite (text_files_whole _ [] Hs1), (text_files_whole _ [] Hs2),
      (text_files_whole _ [] Hs).
    cbn [app]. apply concat_app.
  - intros H.
    destruct (ExportToJSONL_spec (with_window this o l1) H)
      as (ls1 & cs1 & Hl1 & E1 & Hs1).
    destruct (ExportToJSONL_spec (with_window this (o + l1) l2) H)
      as (ls2 & cs2 & Hl2 & E2 & Hs2).
    destruct (ExportToJSONL_spec (with_window this o (l1 + l2)) H)
      as (ls & cs & Hl & E & Hs).
    apply jsonl_rows_window in Hl1, Hl2, Hl.
    rewrite Hrows in Hl, E.
    pose proof (adjacent_lines (jsonl_row this) Hl1 Hl2 Hl) as ->.
    rewrite length_app in E.
    do 5 eexists. split; [exact E1|]. split; [exact E2|]. split; [exact E|].
    rewrite (text_files_whole _ [] Hs1), (text_files_whole _ [] Hs2),
      (text_files_whole _ [] Hs).
    cbn [app]. apply concat_app.
  - intros H.
    destruct (ExportToFVECS_spec (with_window this o l1) H)
      as (c1 & d1 & ls1 & cs1 & Hc1 & Hl1 & E1 & Hs1).
    destruct (ExportToFVECS_spec (with_window this (o + l1) l2) H)
      as (c2 & d2 & ls2 & cs2 & Hc2 & Hl2 & E2 & Hs2).
    destruct (ExportToFVECS_spec (with_window this o (l1 + l2)) H)
      as (c & d & ls & cs & Hc & Hl & E & Hs).
    change (fvecs_check (with_window this o l1)) with (fvecs_check this) in Hc1.
    change (fvecs_check (with_window this (o + l1) l2)) with (fvecs_check this) in Hc2.
    change (fvecs_check (with_window this o (l1 + l2))) with (fvecs_check this) in Hc.
    rewrite Hc in Hc1, Hc2. injection Hc1 as <- <-. injection Hc2 as <- <-.
    rewrite Hrows in Hl, E.
    pose proof (adjacent_lines (fvecs_row c d) Hl1 Hl2 Hl) as ->.
    rewrite length_app in E.
    do 5 eexists. split; [exact E1|]. split; [exact E2|]. split; [exact E|].
    rewrite (text_files_whole _ [] Hs1), (text_files_whole _ [] Hs2),
      (text_files_whole _ [] Hs).
    cbn [app]. apply concat_app.
  - intros H.
    destruct (parquet_spec (with_window this o l1) H) as (f1 & E1 & _ & (Hc1 & _)).
    destruct (parquet_spec (with_window this (o + l1) l2) H)
      as (f2 & E2 & _ & (Hc2 & _)).
    destruct (parquet_spec (with_window this o (l1 + l2)) H)
      as (f & E & _ & (Hc & _)).
    rewrite Hrows in Hc, E. rewrite length_app in E.
    do 5 eexists. split; [exact E1|]. split; [exact E2|]. split; [exact E|].
    rewrite !flat_map_concat_map, Hc, Hc1, Hc2. apply map_app.
Qed.

Lemma windows_compose_witness :
  let this := Sample.id_name_export kCSV [] false 0 0 0 Sample.all_visible in
  exists f1 f2 f,
    ExportToCSV (with_window this 0 1) = Ok (1, f1) /\
    ExportToCSV (with_window this 1 2) = Ok (2, f2) /\
    ExportToCSV (with_window this 0 3) = Ok (3, f) /\
    concat (map content f) = concat (map content f1) ++ concat (map content f2).
Proof.
  cbv zeta.
  destruct (@windows_compose Sample.collaborators
              (Sample.id_name_export kCSV [] false 0 0 0 Sample.all_visible)
              0 1 2 (Nat.lt_0_succ 0) (Nat.lt_0_succ 1)) as (H & _).
  destruct (H eq_refl eq_refl) as (n1 & f1 & n2 & f2 & f & E1 & E2 & E & Hc).
  exists f1, f2, f.
  assert (N1 : n1 = 1) by (vm_compute in E1; now injection E1).
  assert (N2 : n2 = 2) by (vm_compute in E2; now injection E2).
  subst n1 n2. split; [exact E1|]. split; [exact E2|]. split; [exact E | exact Hc].
Defined.

(** X11: a limit that the visible rows past the offset do not exceed
    is no limit: the export gives the outcome of the export without
    limit (for parquet: the same files, holding the same rows). *)
Theorem limit_beyond_rows {collab : Collaborators} (this : PhysicalExport) :
  length (visible_rows this) - offset_ this <= limit_ this ->
  let unlimited := with_window this (offset_ this) 0 in
  (text_exportable this = true -> ExportToCSV this = ExportToCSV unlimited) /\
  (text_exportable this = true -> ExportToJSONL this = ExportToJSONL unlimited) /\
  (fvecs_exportable this = true -> ExportToFVECS this = ExportToFVECS unlimited) /\
  (parquet_exportable this = true ->
   exists n files files',
     ExportToPARQUET this = Ok (n, files) /\
     ExportToPARQUET unlimited = Ok (n, files') /\
     map output_file_path files = map output_file_path files' /\
     map parquet_rows files = map parquet_rows files').
Proof.
  intros Hl. cbv zeta.
  pose proof (exported_rows_unlimited this Hl) as Hrows.
  split; [|split; [|split]].
  - intros H.
    destruct (ExportToCSV_spec this H) as (h & ls & cs & Hh & HL & E & Hs).
    destruct (ExportToCSV_spec (with_window this (offset_ this) 0) H)
      as (h' & ls' & cs' & Hh' & HL' & E' & Hs').
    change (header_ (with_window this (offset_ this) 0)) with (header_ this) in Hh'.
    change (select_columns (with_window this (offset_ this) 0))
      with (select_columns this) in Hh'.
    rewrite Hrows in HL', E'.
    assert (h' = h) as ->.
    { destruct (header_ this); [|congruence].
      destruct Hh as (t & Ht & ->), Hh' as (t' & Ht' & ->).
      rewrite (@csv_header_same _ (with_window this (offset_ this) 0) this
                                eq_refl _ eq_refl) in Ht'.
      congruence. }
    rewrite (Forall2_functional _ HL' HL) in Hs'.
    rewrite (split_every_unique Hs' Hs) in E'.
    rewrite E, E'. reflexivity.
  - intros H.
    destruct (ExportToJSONL_spec this H) as (ls & cs & HL & E & Hs).
    destruct (ExportToJSONL_spec (with_window this (offset_ this) 0) H)
      as (ls' & cs' & HL' & E' & Hs').
    rewrite Hrows in HL', E'. apply jsonl_rows_window in HL'.
    rewrite (Forall2_functional _ HL' HL) in Hs'.
    rewrite (split_every_unique Hs' Hs) in E'.
    rewrite E, E'. reflexivity.
  - intros H.
    destruct (ExportToFVECS_spec this H) as (c & d & ls & cs & Hc & HL & E & Hs).
    destruct (ExportToFVECS_spec (with_window this (offset_ this) 0) H)
      as (c' & d' & ls' & cs' & Hc' & HL' & E' & Hs').
    change (fvecs_check (with_window this (offset_ this) 0))
      with (fvecs_check this) in Hc'.
    rewrite Hc in Hc'. injection Hc' as <- <-.
    rewrite Hrows in HL', E'.
    rewrite (Forall2_functional _ HL' HL) in Hs'.
    rewrite (split_every_unique Hs' Hs) in E'.
    rewrite E, E'. reflexivity.
  - intros H.
    destruct (parquet_spec this H) as (f & E & Hp & Hs).
    destruct (parquet_spec (with_window this (offset_ this) 0) H)
      as (f' & E' & Hp' & Hs').
    rewrite Hrows in E', Hs'.
    change (row_values (with_window this (offset_ this) 0))
      with (row_values this) in Hs'.
    pose proof (split_every_unique Hs Hs') as Hsame.
    exists (length (exported_rows this)), f, f'.
    split; [exact E|]. split; [exact E'|]. split; [|exact Hsame].
    rewrite Hp, Hp'.
    change (file_path_ (with_window this (offset_ this) 0)) with (file_path_ this).
    rewrite <- (length_map parquet_rows f), <- (length_map parquet_rows f'), Hsame.
    reflexivity.
Qed.

Lemma limit_beyond_rows_witness :
  let this := Sample.id_name_export kCSV [] true 1 7 2 Sample.all_visible in
  ExportToCSV this = ExportToCSV (with_window this 1 0).
Proof.
  cbv zeta.
  destruct (@limit_beyond_rows Sample.collaborators
              (Sample.id_name_export kCSV [] true 1 7 2 Sample.all_visible))
    as (H & _).
  - vm_compute. lia.
  - exact (H eq_refl).
Defined.

(* ----------------------------------------------------------------- *)
(** *** What follows the limit *)

Section Stops.
Context {collab : Collaborators}.

(** Once [limit] rows are there to emit, the driver is done. *)
Lemma driver_run_full (P : Type) (limit k : nat) (events : list (bool * P)) (o : nat) :
  0 < limit -> o + limit <= length (payloads events) ->
  d_done (fold_left (driver_step limit k) events (driver_init P o)) = true.
Proof.
  intros Hl Hn.
  pose proof (driver_run_inv events (driver_inv_init P limit k o) eq_refl)
    as Hinv.
  cbn [app d_offset driver_init] in Hinv.
  destruct Hinv as (_ & _ & _ & _ & Hopen & _).
  destruct (d_done _); [reflexivity|].
  destruct (Hopen eq_refl) as [H0|Hlt]; [lia|].
  exfalso. unfold remaining in Hlt. cbn [length] in Hlt.
  destruct (limit =? 0) eqn:L; [apply Nat.eqb_eq in L; lia|].
  rewrite Nat.sub_0_r, length_firstn, length_skipn in Hlt. lia.
Qed.

Variable this : PhysicalExport.

Lemma visible_payloads {P} (payload : RowRef -> P) :
  length (payloads (map (row_event payload) (scan_order this)))
  = length (visible_rows this).
Proof.
  unfold row_event. rewrite payloads_map, length_map. reflexivity.
Qed.

Lemma scan_stops
      (materialize_block : SegmentID -> BlockEntry -> Result (list ColumnVector))
      (serialize : list ColumnVector -> nat -> Result (list byte))
      (head : list byte) (more : list (SegmentID * SegmentSnapshot)) :
  snapshot_ready this materialize_block serialize ->
  0 < limit_ this ->
  offset_ this + limit_ this <= length (visible_rows this) ->
  scan (with_index this (block_index_ this ++ more)) materialize_block serialize head
  = scan this materialize_block serialize head.
Proof.
  intros Hready Hl Hn.
  assert (Hsegs : Forall
            (simulates (limit_ this) (row_limit_ this) (text_rel this head)
               (export_segment this materialize_block serialize)
               (fun sg => map (row_event (text_payload materialize_block serialize))
                              (segment_scan sg)))
            (block_index_ this)).
  { apply Forall_forall. intros sg Hsg. apply export_segment_simulates. auto. }
  set (st0 := {| offset := offset_ this; row_count := 0; file_no_ := 0;
                 closed_files := [];
                 file_handle := {| path := file_path_ this; content := head |} |}).
  assert (HR0 : text_rel this head st0 (driver_init (list byte) (offset_ this))).
  { unfold text_rel, st0. cbn. rewrite app_nil_r. repeat split; reflexivity. }
  destruct (for_each_simulates Hsegs st0 _ HR0 eq_refl) as (c & st & Hrun & _ & Hc).
  rewrite <- map_flat_map in Hc. fold (scan_order this) in Hc.
  rewrite driver_run_full in Hc by (try rewrite visible_payloads; assumption).
  assert (c = GotoReturn) as -> by now apply Hc.
  unfold scan. fold st0.
  cbn [block_index_ with_index offset_ file_path_].
  fold st0.
  change (export_segment (with_index this (block_index_ this ++ more))
                         materialize_block serialize)
    with (export_segment this materialize_block serialize).
  rewrite (for_each_stops _ _ more _ Hrun), Hrun. reflexivity.
Qed.

Lemma parquet_stops (more : list (SegmentID * SegmentSnapshot)) :
  parquet_exportable this = true ->
  0 < limit_ this ->
  offset_ this + limit_ this <= length (visible_rows this) ->
  ExportToPARQUET (with_index this (block_index_ this ++ more))
  = ExportToPARQUET this.
Proof.
  intros H Hl Hn. apply andb_true_iff in H. destruct H as [Hlow Hsized].
  destruct (schema_fields_ok this Hlow) as [fields Hfields].
  unfold ExportToPARQUET.
  change (schema_fields (with_index this (block_index_ this ++ more)))
    with (schema_fields this).
  rewrite Hfields. cbn [bind].
  cbn [block_index_ with_index offset_ file_path_].
  set (st0 := {| pq_offset := offset_ this; pq_row_count := 0; pq_file_no_ := 0;
                 switch_to_new_file := false; closed_writers := [];
                 file_writer := {| output_file_path := file_path_ this;
                                   schema := fields; record_batches := [] |} |}).
  assert (HR0 : pq_rel this st0 (driver_init (list Value) (offset_ this))).
  { repeat split. }
  assert (Hsegs : Forall
            (simulates (limit_ this) (row_limit_ this) (pq_rel this)
               (parquet_segment this fields)
               (fun sg => map (row_event (row_values this)) (segment_scan sg)))
            (block_index_ this)).
  { apply Forall_forall. intros sg Hsg. apply parquet_segment_simulates; [exact Hlow|].
    intros b Hb. unfold blocks_sized in Hsized. rewrite forallb_forall in Hsized.
    apply Hsized. eapply in_all_blocks; eassumption. }
  destruct (for_each_simulates Hsegs st0 _ HR0 eq_refl) as (c & st & Hrun & _ & Hc).
  rewrite <- map_flat_map in Hc. fold (scan_order this) in Hc.
  rewrite driver_run_full in Hc by (try rewrite visible_payloads; assumption).
  assert (c = GotoReturn) as -> by now apply Hc.
  change (parquet_segment (with_index this (block_index_ this ++ more)) fields)
    with (parquet_segment this fields).
  rewrite (for_each_stops _ _ more _ Hrun), Hrun. reflexivity.
Qed.

End Stops.

(** X12: nothing is read once the limit is reached.  When the
    segments of an export hold enough visible rows for its offset and
    its (positive) limit, segments that follow them in the block index
    change nothing: whatever they hold, also blocks that would fail the
    size check, the export gives the same outcome as without them. *)
Theorem nothing_read_past_limit {collab : Collaborators} (this : PhysicalExport)
        (more : list (SegmentID * SegmentSnapshot)) :
  0 < limit_ this ->
  offset_ this + limit_ this <= length (visible_rows this) ->
  let longer := with_index this (block_index_ this ++ more) in
  (text_exportable this = true ->
   ExportToCSV longer = ExportToCSV this /\
   ExportToJSONL longer = ExportToJSONL this) /\
  (fvecs_exportable this = true -> ExportToFVECS longer = ExportToFVECS this) /\
  (parquet_exportable this = true -> ExportToPARQUET longer = ExportToPARQUET this).
Proof.
  intros Hl Hn. cbv zeta. split; [|split].
  - intros H. split.
    + unfold ExportToCSV. cbv zeta.
      change (select_columns (with_index this (block_index_ this ++ more)))
        with (select_columns this).
      change (header_ (with_index this (block_index_ this ++ more)))
        with (header_ this).
      rewrite (@csv_header_same _ (with_index this (block_index_ this ++ more)) this
                                eq_refl _ eq_refl).
      destruct (if header_ this
                then header <- csv_header this (select_columns this) ;;
                     Ok (bytes header)
                else Ok []) as [header|]; cbn [bind]; [|reflexivity].
      apply (@scan_stops _ this _ _ header more (csv_ready this H) Hl Hn).
    + unfold ExportToJSONL. cbv zeta.
      change (select_columns (with_index this (block_index_ this ++ more)))
        with (select_columns this).
      rewrite <- (@scan_stops _ this _ _ [] more (jsonl_ready this H) Hl Hn).
      apply scan_ext. intros cvs i.
      rewrite (@jsonl_object_same _ (with_index this (block_index_ this ++ more)) this
                                  eq_refl).
      reflexivity.
  - intros H. destruct (@fvecs_exportable_check _ this H) as (c & dim & Hcheck).
    unfold ExportToFVECS.
    change (fvecs_check (with_index this (block_index_ this ++ more)))
      with (fvecs_check this).
    rewrite Hcheck. cbn [bind].
    apply (@scan_stops _ this _ _ [] more (fvecs_ready this Hcheck H) Hl Hn).
  - intros H. now apply parquet_stops.
Qed.

Lemma nothing_read_past_limit_witness :
  let this := Sample.id_name_export kCSV [] true 0 2 0 Sample.all_visible in
  let short := Sample.block 1 0 5 [Sample.int_column [4]%Z;
                                    Sample.text_column ["d"]] in
  let longer :=
    with_index this (block_index_ this
                     ++ [(1, {| visible := Sample.all_visible;
                                block_map_ := [short] |})]) in
  ExportToCSV longer = ExportToCSV this /\
  ExportToPARQUET longer = ExportToPARQUET this /\
  exists files, ExportToCSV longer = Ok (2, files).
Proof.
  cbv zeta.
  destruct (@nothing_read_past_limit Sample.collaborators
              (Sample.id_name_export kCSV [] true 0 2 0 Sample.all_visible)
              [(1, {| visible := Sample.all_visible;
                      block_map_ := [Sample.block 1 0 5
                                       [Sample.int_column [4]%Z;
                                        Sample.text_column ["d"]]] |})])
    as (Htext & _ & Hparquet).
  - cbn. lia.
  - vm_compute. lia.
  - destruct (Htext eq_refl) as [Hcsv _].
    split; [exact Hcsv|]. split; [exact (Hparquet eq_refl)|].
    rewrite Hcsv. eexists. vm_compute. reflexivity.
Defined.

(* ================================================================= *)
(** ** The size check of a block *)

Section Unmatched.
Context {collab : Collaborators}.

Lemma materialize_column_outcome (segment_id : SegmentID) (b : BlockEntry)
      (c : ColumnID) :
  (exists cv, materialize_column segment_id b c = Ok cv) \/
  materialize_column segment_id b c = Raise unmatched_row_count.
Proof.
  unfold materialize_column.
  destruct (c =? COLUMN_IDENTIFIER_ROW_ID)%N; [left; now eexists|].
  destruct (c =? COLUMN_IDENTIFIER_CREATE)%N; [left; now eexists|].
  destruct (c =? COLUMN_IDENTIFIER_DELETE)%N; [left; now eexists|].
  destruct (length (GetConstColumnVector b c) =? block_row_count b);
    [left; now eexists | right; reflexivity].
Qed.

Lemma materialize_unmatched (columns : list ColumnID) (segment_id : SegmentID)
      (b : BlockEntry) (c : ColumnID) :
  In c columns -> is_virtual c = false ->
  length (GetConstColumnVector b c) <> block_row_count b ->
  materialize columns segment_id b = Raise unmatched_row_count.
Proof.
  intros Hin Hv Hlen. unfold materialize.
  apply mapM_raises with (x := c); [|exact Hin|].
  - intros a _. apply materialize_column_outcome.
  - unfold is_virtual in Hv. apply orb_false_iff in Hv. destruct Hv as [Hv Hd].
    apply orb_false_iff in Hv. destruct Hv as [Hr Hc].
    unfold materialize_column. rewrite Hr, Hc, Hd.
    apply Nat.eqb_neq in Hlen. rewrite Hlen. reflexivity.
Qed.

End Unmatched.

Lemma for_each_continue {A S} (body : S -> A -> Result (Control * S))
      (l1 l2 : list A) :
  forall s s', for_each body l1 s = Ok (Next, s') ->
               for_each body (l1 ++ l2) s = for_each body l2 s'.
Proof.
  induction l1 as [|x l1 IH]; intros s s'; cbn [for_each app].
  - intros [= <-]. reflexivity.
  - destruct (body s x) as [[c s1]|]; cbn [bind]; [|discriminate].
    destruct c; [apply IH | discriminate].
Qed.

Lemma for_each_last {A S} (body : S -> A -> Result (Control * S))
      (l : list A) (x : A) :
  forall s s', for_each body (l ++ [x]) s = Ok (Next, s') ->
               exists s1, for_each body l s = Ok (Next, s1) /\
                          body s1 x = Ok (Next, s').
Proof.
  induction l as [|y l IH]; intros s s'; cbn [for_each app].
  - destruct (body s x) as [[c s1]|] eqn:Hx; cbn [bind]; [|discriminate].
    destruct c; [|discriminate]. intros [= <-]. exists s.
    split; [reflexivity | exact Hx].
  - destruct (body s y) as [[c s1]|]; cbn [bind]; [|discriminate].
    destruct c; [apply IH | discriminate].
Qed.

Section Reaches.
Context {collab : Collaborators}.

(** While fewer than [limit] rows are there to emit, the driver goes
    on. *)
Lemma driver_run_open (P : Type) (limit k : nat) (events : list (bool * P)) (o : nat) :
  limit = 0 \/ length (payloads events) < o + limit ->
  d_done (fold_left (driver_step limit k) events (driver_init P o)) = false.
Proof.
  intros Hn.
  pose proof (driver_run_inv events (driver_inv_init P limit k o) eq_refl)
    as Hinv.
  cbn [app d_offset driver_init] in Hinv.
  destruct Hinv as (_ & _ & _ & _ & _ & Hdone).
  destruct (d_done _); [|reflexivity].
  destruct (Hdone eq_refl) as [H0 Hlen].
  exfalso. destruct Hn as [Hn|Hn]; [contradiction|].
  unfold remaining in Hlen. cbn [length] in Hlen.
  destruct (limit =? 0) eqn:L; [apply Nat.eqb_eq in L; contradiction|].
  rewrite Nat.sub_0_r, length_firstn, length_skipn in Hlen. lia.
Qed.

Variable this : PhysicalExport.
Variables (before after : list (SegmentID * SegmentSnapshot)).
Variables (segment_id : SegmentID) (segment : SegmentSnapshot).
Variables (blocks_before blocks_after : list BlockEntry) (b : BlockEntry).
Hypothesis Hindex : block_index_ this = before ++ (segment_id, segment) :: after.
Hypothesis Hmap : block_map_ segment = blocks_before ++ b :: blocks_after.

Local Abbreviation read := (read_before this before segment_id segment blocks_before).

Hypothesis Hopen :
  limit_ this = 0 \/ length (visible_rows read) < offset_ this + limit_ this.

(** A text sink gets to the block [b] and to the fault of its
    materialization. *)
Lemma scan_reaches
      (materialize_block : SegmentID -> BlockEntry -> Result (list ColumnVector))
      (serialize : list ColumnVector -> nat -> Result (list byte))
      (head : list byte) (e : Fault) :
  snapshot_ready read materialize_block serialize ->
  materialize_block segment_id b = Raise e ->
  scan this materialize_block serialize head = Raise e.
Proof.
  intros Hready Hb.
  assert (Hsegs : Forall
            (simulates (limit_ this) (row_limit_ this) (text_rel this head)
               (export_segment this materialize_block serialize)
               (fun sg => map (row_event (text_payload materialize_block serialize))
                              (segment_scan sg)))
            (block_index_ read)).
  { apply Forall_forall. intros sg Hsg.
    apply (@export_segment_simulates _ read materialize_block serialize head sg).
    auto. }
  set (st0 := {| offset := offset_ this; row_count := 0; file_no_ := 0;
                 closed_files := [];
                 file_handle := {| path := file_path_ this; content := head |} |}).
  assert (HR0 : text_rel this head st0 (driver_init (list byte) (offset_ this))).
  { unfold text_rel, st0. cbn. rewrite app_nil_r. repeat split; reflexivity. }
  destruct (for_each_simulates Hsegs st0 _ HR0 eq_refl) as (c & st & Hrun & _ & Hc).
  rewrite <- map_flat_map in Hc. fold (scan_order read) in Hc.
  rewrite driver_run_open in Hc
    by (rewrite (@visible_payloads _ read); exact Hopen).
  assert (c = Next) as ->.
  { destruct c; [reflexivity|]. destruct Hc as [Hc _]. discriminate (Hc eq_refl). }
  cbn [block_index_ read_before with_index] in Hrun.
  apply for_each_last in Hrun. destruct Hrun as (s1 & Hbefore & Hcut).
  cbn [export_segment visible block_map_] in Hcut.
  unfold scan. fold st0. rewrite Hindex.
  rewrite (for_each_continue _ _ _ _ Hbefore).
  cbn [for_each export_segment]. rewrite Hmap.
  rewrite (for_each_continue _ _ _ _ Hcut).
  cbn [for_each]. unfold export_block at 1. rewrite Hb. reflexivity.
Qed.

Lemma parquet_reaches (e : Fault) :
  forallb (column_lowers this) (select_columns this) = true ->
  blocks_sized read (select_columns this) = true ->
  materialize (select_columns this) segment_id b = Raise e ->
  ExportToPARQUET this = Raise e.
Proof.
  intros Hlow Hsized Hb.
  destruct (schema_fields_ok this Hlow) as [fields Hfields].
  unfold ExportToPARQUET. rewrite Hfields. cbn [bind].
  set (st0 := {| pq_offset := offset_ this; pq_row_count := 0; pq_file_no_ := 0;
                 switch_to_new_file := false; closed_writers := [];
                 file_writer := {| output_file_path := file_path_ this;
                                   schema := fields; record_batches := [] |} |}).
  assert (HR0 : pq_rel this st0 (driver_init (list Value) (offset_ this))).
  { repeat split. }
  assert (Hsegs : Forall
            (simulates (limit_ this) (row_limit_ this) (pq_rel this)
               (parquet_segment this fields)
               (fun sg => map (row_event (row_values this)) (segment_scan sg)))
            (block_index_ read)).
  { apply Forall_forall. intros sg Hsg. apply parquet_segment_simulates; [exact Hlow|].
    intros b' Hb'. unfold blocks_sized in Hsized. rewrite forallb_forall in Hsized.
    apply Hsized. eapply in_all_blocks; eassumption. }
  destruct (for_each_simulates Hsegs st0 _ HR0 eq_refl) as (c & st & Hrun & _ & Hc).
  rewrite <- map_flat_map in Hc. fold (scan_order read) in Hc.
  rewrite driver_run_open in Hc
    by (rewrite (@visible_payloads _ read); exact Hopen).
  assert (c = Next) as ->.
  { destruct c; [reflexivity|]. destruct Hc as [Hc _]. discriminate (Hc eq_refl). }
  cbn [block_index_ read_before with_index] in Hrun.
  apply for_each_last in Hrun. destruct Hrun as (s1 & Hbefore & Hcut).
  cbn [parquet_segment visible block_map_] in Hcut.
  rewrite Hindex.
  rewrite (for_each_continue _ _ _ _ Hbefore).
  cbn [for_each parquet_segment]. rewrite Hmap.
  rewrite (for_each_continue _ _ _ _ Hcut).
  cbn [for_each]. unfold parquet_block at 1. rewrite Hb. reflexivity.
Qed.

End Reaches.

(** X13: a block whose size check fails is refused wherever it is,
    unless the limit is reached before it.  When a block has a
    selected physical column whose vector does not have the block's
    row count, the blocks before it are sound and hold fewer visible
    rows than the offset and the limit ask for (or there is no limit),
    every sink raises the unrecoverable fault "Unmatched row_count
    between block and block_column".  The check precedes the rows of
    the block: the fault is raised whatever their visibility, also
    when none of them would be exported. *)
Theorem unmatched_block_refused {collab : Collaborators} (this : PhysicalExport)
        (before after : list (SegmentID * SegmentSnapshot))
        (segment_id : SegmentID) (segment : SegmentSnapshot)
        (blocks_before blocks_after : list BlockEntry) (b : BlockEntry)
        (c : ColumnID) :
  block_index_ this = before ++ (segment_id, segment) :: after ->
  block_map_ segment = blocks_before ++ b :: blocks_after ->
  In c (select_columns this) -> is_virtual c = false ->
  length (GetConstColumnVector b c) <> block_row_count b ->
  let read := read_before this before segment_id segment blocks_before in
  limit_ this = 0 \/ length (visible_rows read) < offset_ this + limit_ this ->
  (text_exportable read = true ->
   ExportToCSV this = Raise unmatched_row_count /\
   ExportToJSONL this = Raise unmatched_row_count) /\
  (parquet_exportable read = true ->
   ExportToPARQUET this = Raise unmatched_row_count) /\
  (fvecs_exportable read = true -> column_idx_array_ this = [c] ->
   ExportToFVECS this = Raise unmatched_row_count).
Proof.
  intros Hindex Hmap Hin Hv Hlen read Hopen.
  pose proof (materialize_unmatched (select_columns this) segment_id b c Hin Hv Hlen)
    as Hmat.
  split; [|split].
  - intros H. split.
    + unfold ExportToCSV.
      assert (Hhead : exists header,
                 (if header_ this
                  then header <- csv_header this (select_columns this) ;;
                       Ok (bytes header)
                  else Ok []) = Ok header).
      { destruct (header_ this); [|now eexists].
        pose proof H as H'. apply andb_true_iff in H'. destruct H' as [Hk _].
        change (columns_known this = true) in Hk.
        destruct (csv_header_ok this (select_columns this) Hk) as [t Ht].
        rewrite Ht. now eexists. }
      destruct Hhead as [header ->]. cbn [bind].
      eapply scan_reaches;
        [exact Hindex | exact Hmap | exact Hopen | exact (csv_ready read H) | exact Hmat].
    + unfold ExportToJSONL. cbv zeta.
      rewrite (@scan_ext _ this (materialize (select_columns this)) _
                 (fun column_vectors row_idx =>
                    line_json <- jsonl_object read
                                   (combine (select_columns this) column_vectors)
                                   row_idx json_null ;;
                    Ok (bytes (json_dump line_json ++ LF)%string)) []).
      * eapply scan_reaches;
          [exact Hindex | exact Hmap | exact Hopen | exact (jsonl_ready read H)
          | exact Hmat].
      * intros cvs i. rewrite (@jsonl_object_same _ this read eq_refl). reflexivity.
  - intros H. apply andb_true_iff in H. destruct H as [Hlow Hsized].
    eapply parquet_reaches;
      [exact Hindex | exact Hmap | exact Hopen | exact Hlow | exact Hsized | exact Hmat].
  - intros H Hc. destruct (@fvecs_exportable_check _ read H) as (c' & dim & Hcheck).
    assert (c' = c) as -> by exact (fvecs_check_column read Hc Hcheck).
    unfold ExportToFVECS.
    change (fvecs_check this) with (fvecs_check read). rewrite Hcheck. cbn [bind].
    eapply scan_reaches;
      [exact Hindex | exact Hmap | exact Hopen | exact (fvecs_ready read Hcheck H) |].
    unfold fvecs_materialize. apply Nat.eqb_neq in Hlen. rewrite Hlen. reflexivity.
Qed.

Lemma unmatched_block_refused_witness :
  let short := Sample.block 1 3 5 [Sample.int_column [4; 5]%Z;
                                    Sample.text_column ["d"; "e"]] in
  let this :=
    {| file_type_ := kCSV; file_path_ := "/tmp/t.csv"; header_ := true;
       delimiter_ := ","%char; column_idx_array_ := [];
       offset_ := 0; limit_ := 4; row_limit_ := 0;
       column_defs := Sample.id_name_defs;
       block_index_ := [(0, {| visible := fun i => i <? 3;
                               block_map_ := [Sample.id_name_block; short] |})] |} in
  ExportToCSV this = Raise unmatched_row_count /\
  ExportToJSONL this = Raise unmatched_row_count /\
  ExportToPARQUET this = Raise unmatched_row_count.
Proof.
  cbv zeta.
  match goal with
  | |- ExportToCSV ?t = _ /\ _ =>
      destruct (@unmatched_block_refused Sample.collaborators t
                  [] [] 0 _ [Sample.id_name_block] [] _ 0%N eq_refl eq_refl)
        as (Htext & Hparquet & _)
  end.
  - cbn. now left.
  - reflexivity.
  - cbn. lia.
  - right. vm_compute. lia.
  - destruct (Htext eq_refl) as [Hcsv Hjsonl].
    split; [exact Hcsv|]. split; [exact Hjsonl|]. exact (Hparquet eq_refl).
Defined.

(* ================================================================= *)
(** ** The persistence handler *)

Section PersistFacts.
Variable GetObjPath : string -> string.

Lemma fs_remove_In (p q : string) (fs : list string) :
  In q (Persist.fs_remove p fs) <-> In q fs /\ q <> p.
Proof.
  unfold Persist.fs_remove. rewrite filter_In.
  rewrite negb_true_iff, String.eqb_neq. reflexivity.
Qed.

Lemma drop_all_In (keys : list string) :
  forall (fs : list string) (q : string),
    In q (fold_left (fun fs drop_key => Persist.fs_remove (GetObjPath drop_key) fs)
                    keys fs)
    <-> In q fs /\ ~ In q (map GetObjPath keys).
Proof.
  induction keys as [|k keys IH]; intros fs q; cbn [fold_left map In].
  - tauto.
  - rewrite IH, fs_remove_In. intuition congruence.
Qed.

Lemma keep_all (A : Type) (keys : list A) (fs : list string) :
  fold_left (fun fs _ => fs) keys fs = fs.
Proof. induction keys; cbn; auto. Qed.

End PersistFacts.

(** X14: [HandleWriteResult] deletes the object files of the drop keys
    and nothing else: afterwards a path exists exactly when it existed
    before and is the object path of no drop key; the persist keys
    play no part.  [HandleReadResult] returns the address of the
    result exactly when the object is cached, and raises otherwise. *)
Theorem persist_results_handled (ObjAddr : Type) (obj_key_ : ObjAddr -> string)
        (GetObjPath : string -> string) :
  (forall (result : Persist.PersistWriteResult) (fs : list string) (p : string),
      In p (Persist.HandleWriteResult GetObjPath result fs)
      <-> In p fs /\ ~ In p (map GetObjPath (Persist.drop_keys_ result))) /\
  (forall (result : Persist.PersistReadResult ObjAddr) (addr : ObjAddr),
      Persist.HandleReadResult obj_key_ result = Ok addr
      <-> Persist.cached_ result = true /\ addr = Persist.obj_addr_ result) /\
  (forall (result : Persist.PersistReadResult ObjAddr),
      Persist.cached_ result = false ->
      exists message,
        Persist.HandleReadResult obj_key_ result
        = Raise (UnrecoverableError message)).
Proof.
  split; [|split].
  - intros result fs p. unfold Persist.HandleWriteResult. cbv zeta.
    rewrite keep_all. apply drop_all_In.
  - intros result addr. unfold Persist.HandleReadResult.
    destruct (Persist.cached_ result); cbn [negb]; split.
    + intros [= <-]. split; reflexivity.
    + intros [_ ->]. reflexivity.
    + discriminate.
    + intros [H _]. discriminate.
  - intros result H. unfold Persist.HandleReadResult. rewrite H.
    eexists. reflexivity.
Qed.

Lemma persist_results_handled_witness :
  let result := {| Persist.persist_keys_ := ["k1"]%string;
                   Persist.drop_keys_ := ["k2"; "k4"]%string |} in
  let obj_path := fun key => ("/var/persist/" ++ key)%string in
  let fs := ["/var/persist/k1"; "/var/persist/k2"; "/var/persist/k3"]%string in
  In "/var/persist/k1"%string (Persist.HandleWriteResult obj_path result fs) /\
  In "/var/persist/k3"%string (Persist.HandleWriteResult obj_path result fs) /\
  ~ In "/var/persist/k2"%string (Persist.HandleWriteResult obj_path result fs).
Proof.
  cbv zeta.
  destruct (persist_results_handled (fun key : string => key)
              (fun key => ("/var/persist/" ++ key)%string)) as (H & _).
  split; [|split].
  - apply H. split; [cbn; tauto|]. cbn. intros [E|[E|[]]]; discriminate.
  - apply H. split; [cbn; tauto|]. cbn. intros [E|[E|[]]]; discriminate.
  - intros Hin. apply H in Hin. destruct Hin as [_ Hn]. apply Hn. cbn. now left.
Defined.
